(** * Agile Planner: backlog generation, schema validation and retry loop

    A shallow embedding of the backlog generator (createBacklogSchema,
    callApiForBacklog, validateBacklog, processBacklogParams,
    attemptBacklogGeneration, generateBacklog) and of the epic selection
    of the markdown generator (generateMarkdownFilesFromResult).

    The two external libraries the generator calls are modelled as far as
    the generator uses them: Ajv (JSON-schema validation, for the keywords
    that occur in the backlog schema) as executable definitions in module
    [Ajv], and the chat-completion client and [JSON.parse] as parameters of
    the section [Generator]. *)

From Stdlib Require Import String Ascii List ZArith Bool Arith Lia DecimalString.
From Stdlib Require QArith_base.
Import ListNotations.
Open Scope string_scope.
Set Warnings "-register-all".

(* ================================================================== *)
(** ** JSON values, as produced by [JSON.parse] *)

Module Json.

(** A parsed JSON value. Numbers carry an integer payload: the backlog
    schema never constrains a number beyond its type. An object is the
    list of its fields; a property read takes the first field with the
    name. *)
Inductive json : Type :=
| JNull
| JBool (b : bool)
| JNum (n : Z)
| JStr (s : string)
| JArr (items : list json)
| JObj (fields : list (string * json)).

(** [obj.k]: [None] stands for [undefined]. *)
Fixpoint lookup (k : string) (fs : list (string * json)) : option json :=
  match fs with
  | [] => None
  | (k', v) :: fs' => if String.eqb k k' then Some v else lookup k fs'
  end.

(** Deep equality as Ajv's [enum] uses it (fast-deep-equal): arrays are
    compared element by element, objects by their key count and the value
    under every key of the left object. *)
Fixpoint json_equal (a b : json) {struct a} : bool :=
  match a, b with
  | JNull, JNull => true
  | JBool x, JBool y => Bool.eqb x y
  | JNum x, JNum y => Z.eqb x y
  | JStr x, JStr y => String.eqb x y
  | JArr la, JArr lb =>
      (fix all2 (la lb : list json) {struct la} : bool :=
         match la, lb with
         | [], [] => true
         | x :: la', y :: lb' => json_equal x y && all2 la' lb'
         | _, _ => false
         end) la lb
  | JObj fa, JObj fb =>
      Nat.eqb (length fa) (length fb) &&
      (fix allf (fa : list (string * json)) {struct fa} : bool :=
         match fa with
         | [] => true
         | (k, v) :: fa' =>
             match lookup k fb with
             | Some v' => json_equal v v'
             | None => false
             end && allf fa'
         end) fa
  | _, _ => false
  end.

(** JavaScript truthiness of a JSON value. *)
Definition truthy (d : json) : bool :=
  match d with
  | JNull => false
  | JBool b => b
  | JNum n => negb (Z.eqb n 0)
  | JStr s => negb (String.eqb s "")
  | JArr _ | JObj _ => true
  end.

(** [extendsb b b'] : [b'] is [b] with extra fields added, at any object
    nested in it: atoms agree, arrays agree in length and extend element
    by element, and every field of an object of [b] is a field of the
    corresponding object of [b'], with an extended value. *)
Fixpoint extendsb (a b : json) {struct a} : bool :=
  match a, b with
  | JNull, JNull => true
  | JBool x, JBool y => Bool.eqb x y
  | JNum x, JNum y => Z.eqb x y
  | JStr x, JStr y => String.eqb x y
  | JArr la, JArr lb =>
      (fix all2 (la lb : list json) {struct la} : bool :=
         match la, lb with
         | [], [] => true
         | x :: la', y :: lb' => extendsb x y && all2 la' lb'
         | _, _ => false
         end) la lb
  | JObj fa, JObj fb =>
      (fix allf (fa : list (string * json)) {struct fa} : bool :=
         match fa with
         | [] => true
         | (k, v) :: fa' =>
             match lookup k fb with
             | Some v' => extendsb v v'
             | None => false
             end && allf fa'
         end) fa
  | _, _ => false
  end.

End Json.
Import Json.

(** Decimal rendering of an array index or a bound, as in a template
    literal. *)
Definition string_of_nat (n : nat) : string :=
  NilZero.string_of_uint (Nat.to_uint n).

(* ================================================================== *)
(** ** The regular expressions of the schema's [pattern] keyword *)

Module RegExp.

(** The fragment the backlog schema needs: an optional [^], a sequence of
    literal characters and [\d], each optionally followed by a one-digit
    count [{n}], and an optional final [$]. *)
Inductive atom : Type :=
| Lit (c : ascii)
| Digit.

Record regex : Type := {
  anchored_start : bool;
  anchored_end : bool;
  atoms : list atom
}.

Definition digit_value (c : ascii) : option nat :=
  let n := nat_of_ascii c in
  if ((48 <=? n)%nat && (n <=? 57)%nat)%bool then Some (n - 48) else None.

Definition is_special (c : ascii) : bool :=
  existsb (Ascii.eqb c)
    ["."; "*"; "+"; "?"; "("; ")"; "["; "]"; "{"; "}"; "|"; "^"; "$"; "\"]%char.

(** Parser state: between atoms, after a backslash, after an opening
    brace, after the count [n] of a quantifier. *)
Inductive pstate : Type :=
| PNormal
| PEscape
| PCount
| PClose (n : nat).

(** Parses the atoms up to the end of the pattern, the atoms read so far
    in reverse in [acc]; the flag tells whether the pattern ended in [$]. *)
Fixpoint parse_atoms (st : pstate) (acc : list atom) (s : string)
  : option (list atom * bool) :=
  match s with
  | "" =>
      match st with
      | PNormal => Some (rev acc, false)
      | _ => None
      end
  | String c rest =>
      match st with
      | PNormal =>
          if Ascii.eqb c "\" then parse_atoms PEscape acc rest
          else if Ascii.eqb c "{" then
            match acc with
            | [] => None
            | _ :: _ => parse_atoms PCount acc rest
            end
          else if Ascii.eqb c "$" then
            if String.eqb rest "" then Some (rev acc, true) else None
          else if is_special c then None
          else parse_atoms PNormal (Lit c :: acc) rest
      | PEscape =>
          if Ascii.eqb c "d" then parse_atoms PNormal (Digit :: acc) rest
          else None
      | PCount =>
          match digit_value c with
          | Some n => parse_atoms (PClose n) acc rest
          | None => None
          end
      | PClose n =>
          if Ascii.eqb c "}" then
            match acc with
            | a :: acc' => parse_atoms PNormal (repeat a n ++ acc') rest
            | [] => None
            end
          else None
      end
  end.

(** [new RegExp(source)]; [None] outside the fragment. *)
Definition compile (source : string) : option regex :=
  let anchored :=
    match source with
    | String c _ => Ascii.eqb c "^"
    | "" => false
    end in
  let body :=
    match source with
    | String _ rest => if anchored then rest else source
    | "" => source
    end in
  match parse_atoms PNormal [] body with
  | Some (l, e) =>
      Some {| anchored_start := anchored; anchored_end := e; atoms := l |}
  | None => None
  end.

Definition atom_matches (a : atom) (c : ascii) : bool :=
  match a with
  | Lit c' => Ascii.eqb c c'
  | Digit => match digit_value c with Some _ => true | None => false end
  end.

(** Matches the atoms at the head of [s]; the rest of [s] on success. *)
Fixpoint match_here (l : list atom) (s : string) : option string :=
  match l, s with
  | [], _ => Some s
  | a :: l', String c s' =>
      if atom_matches a c then match_here l' s' else None
  | _ :: _, "" => None
  end.

Definition match_at (r : regex) (s : string) : bool :=
  match match_here (atoms r) s with
  | Some rest => if anchored_end r then String.eqb rest "" else true
  | None => false
  end.

Fixpoint search (r : regex) (s : string) : bool :=
  match_at r s ||
  match s with
  | "" => false
  | String _ s' => search r s'
  end.

(** [regex.test(s)]. *)
Definition test (r : regex) (s : string) : bool :=
  if anchored_start r then match_at r s else search r s.

End RegExp.

(* ================================================================== *)
(** ** Ajv: JSON-schema validation with [allErrors: true] *)

(** An error object. Ajv's errors carry [instancePath] and [message]; the
    generator also builds objects with a [message] only, whose
    [instancePath] is then [undefined] ([None]). *)
Record error_object : Type := {
  instancePath : option string;
  message : string
}.

Module Ajv.

(** A schema object, with the keywords that occur in the backlog schema;
    [None] for a keyword the object does not have. *)
Inductive schema : Type := Schema {
  s_type : option string;
  s_required : option (list string);
  s_properties : option (list (string * schema));
  s_minItems : option nat;
  s_maxItems : option nat;
  s_items : option schema;
  s_pattern : option string;
  s_enum : option (list json);
  s_ref : option string
}.

(** The empty schema object, and one function per keyword to add it. *)
Definition any : schema :=
  Schema None None None None None None None None None.

Definition type (t : string) (s : schema) : schema :=
  Schema (Some t) (s_required s) (s_properties s) (s_minItems s)
         (s_maxItems s) (s_items s) (s_pattern s) (s_enum s) (s_ref s).
Definition required (l : list string) (s : schema) : schema :=
  Schema (s_type s) (Some l) (s_properties s) (s_minItems s)
         (s_maxItems s) (s_items s) (s_pattern s) (s_enum s) (s_ref s).
Definition properties (ps : list (string * schema)) (s : schema) : schema :=
  Schema (s_type s) (s_required s) (Some ps) (s_minItems s)
         (s_maxItems s) (s_items s) (s_pattern s) (s_enum s) (s_ref s).
Definition minItems (n : nat) (s : schema) : schema :=
  Schema (s_type s) (s_required s) (s_properties s) (Some n)
         (s_maxItems s) (s_items s) (s_pattern s) (s_enum s) (s_ref s).
Definition maxItems (n : nat) (s : schema) : schema :=
  Schema (s_type s) (s_required s) (s_properties s) (s_minItems s)
         (Some n) (s_items s) (s_pattern s) (s_enum s) (s_ref s).
Definition items (i : schema) (s : schema) : schema :=
  Schema (s_type s) (s_required s) (s_properties s) (s_minItems s)
         (s_maxItems s) (Some i) (s_pattern s) (s_enum s) (s_ref s).
Definition pattern (p : string) (s : schema) : schema :=
  Schema (s_type s) (s_required s) (s_properties s) (s_minItems s)
         (s_maxItems s) (s_items s) (Some p) (s_enum s) (s_ref s).
Definition enum (vs : list json) (s : schema) : schema :=
  Schema (s_type s) (s_required s) (s_properties s) (s_minItems s)
         (s_maxItems s) (s_items s) (s_pattern s) (Some vs) (s_ref s).
Definition ref (r : string) (s : schema) : schema :=
  Schema (s_type s) (s_required s) (s_properties s) (s_minItems s)
         (s_maxItems s) (s_items s) (s_pattern s) (s_enum s) (Some r).

Definition is_some {A : Type} (o : option A) : bool :=
  match o with
  | Some _ => true
  | None => false
  end.

Definition is_nil {A : Type} (l : list A) : bool :=
  match l with
  | [] => true
  | _ :: _ => false
  end.

(** Ajv's data-type test for a [type] name. *)
Definition has_type (t : string) (d : json) : bool :=
  match d with
  | JNull => String.eqb t "null"
  | JBool _ => String.eqb t "boolean"
  | JNum _ => String.eqb t "number" || String.eqb t "integer"
  | JStr _ => String.eqb t "string"
  | JArr _ => String.eqb t "array"
  | JObj _ => String.eqb t "object"
  end.

Definition violation (path msg : string) : error_object :=
  {| instancePath := Some path; message := msg |}.

Definition quote : string := String (ascii_of_nat 34) "".

(** Sub-schema lookup by name in a [properties] list. *)
Fixpoint find_property (k : string) (ps : list (string * schema))
  : option schema :=
  match ps with
  | [] => None
  | (k', s) :: ps' => if String.eqb k k' then Some s else find_property k ps'
  end.

Section Validate.

(** What a [$ref] keyword does with the data at a path. *)
Variable on_ref : string -> string -> json -> list error_object.

(** The errors of [d] against [s], in the order Ajv's generated code
    reports them: the type upfront when the schema has no keyword for that
    type, then [$ref] and [enum], then the keywords for strings, arrays and
    objects, each group guarded by the type of the data and reporting the
    type error itself when the data is not of the schema's type. *)
Fixpoint validate (s : schema) (path : string) (d : json) {struct s}
  : list error_object :=
  match s with
  | Schema ty req props minI maxI itm pat enu rf =>
      let string_rules := is_some pat in
      let array_rules := is_some minI || is_some maxI || is_some itm in
      let object_rules := is_some req || is_some props in
      let rules_for (t : string) :=
        (String.eqb t "string" && string_rules)
        || (String.eqb t "array" && array_rules)
        || (String.eqb t "object" && object_rules) in
      let type_error :=
        match ty with
        | Some t => [violation path ("must be " ++ t)]
        | None => []
        end in
      let wrong_type_of (t : string) :=
        match ty with
        | Some t' => if String.eqb t' t then type_error else []
        | None => []
        end in
      (match ty with
       | Some t =>
           if negb (rules_for t) && negb (has_type t d) then type_error
           else []
       | None => []
       end)
      ++ (match rf with
          | Some r => on_ref r path d
          | None => []
          end)
      ++ (match enu with
          | Some vs =>
              if existsb (json_equal d) vs then []
              else [violation path "must be equal to one of the allowed values"]
          | None => []
          end)
      ++ (if string_rules then
            match d with
            | JStr str =>
                match pat with
                | Some p =>
                    match RegExp.compile p with
                    | Some r =>
                        if RegExp.test r str then []
                        else [violation path ("must match pattern "
                                          ++ quote ++ p ++ quote)]
                    | None =>
                        [violation path ("must match pattern "
                                     ++ quote ++ p ++ quote)]
                    end
                | None => []
                end
            | _ => wrong_type_of "string"
            end
          else [])
      ++ (if array_rules then
            match d with
            | JArr l =>
                (match maxI with
                 | Some n =>
                     if (n <? length l)%nat then
                       [violation path ("must NOT have more than "
                                    ++ string_of_nat n ++ " items")]
                     else []
                 | None => []
                 end)
                ++ (match minI with
                    | Some n =>
                        if (length l <? n)%nat then
                          [violation path ("must NOT have fewer than "
                                       ++ string_of_nat n ++ " items")]
                        else []
                    | None => []
                    end)
                ++ (match itm with
                    | Some si =>
                        flat_map
                          (fun ie : nat * json =>
                             validate si
                               (path ++ "/" ++ string_of_nat (fst ie))
                               (snd ie))
                          (combine (seq 0 (length l)) l)
                    | None => []
                    end)
            | _ => wrong_type_of "array"
            end
          else [])
      ++ (if object_rules then
            match d with
            | JObj fs =>
                (match req with
                 | Some ks =>
                     flat_map
                       (fun k : string =>
                          match lookup k fs with
                          | Some _ => []
                          | None =>
                              [violation path ("must have required property '"
                                           ++ k ++ "'")]
                          end)
                       ks
                 | None => []
                 end)
                ++ (match props with
                    | Some ps =>
                        flat_map
                          (fun ks : string * schema =>
                             match lookup (fst ks) fs with
                             | Some v =>
                                 validate (snd ks)
                                   (path ++ "/" ++ fst ks) v
                             | None => []
                             end)
                          ps
                    | None => []
                    end)
            | _ => wrong_type_of "object"
            end
          else [])
  end.

End Validate.

(** Splits a JSON pointer at its slashes. *)
Fixpoint split_slash (cur : string) (s : string) : list string :=
  match s with
  | "" => [cur]
  | String c rest =>
      if Ascii.eqb c "/" then cur :: split_slash "" rest
      else split_slash (cur ++ String c "") rest
  end.

(** Follows pointer segments from a schema object through [properties]
    and [items]. *)
Fixpoint navigate (segs : list string) (s : schema) : option schema :=
  match segs with
  | [] => Some s
  | seg :: rest =>
      if String.eqb seg "items" then
        match s_items s with
        | Some si => navigate rest si
        | None => None
        end
      else if String.eqb seg "properties" then
        match rest with
        | k :: rest' =>
            match s_properties s with
            | Some ps =>
                match find_property k ps with
                | Some sk => navigate rest' sk
                | None => None
                end
            | None => None
            end
        | [] => None
        end
      else None
  end.

(** Resolves a local reference [#/...] against the root schema. *)
Definition resolve (root : schema) (r : string) : option schema :=
  match split_slash "" r with
  | hash :: segs => if String.eqb hash "#" then navigate segs root else None
  | [] => None
  end.

(** [$ref] with at most [depth] references followed in a row. *)
Fixpoint validate_refs (depth : nat) (root : schema)
  : string -> string -> json -> list error_object :=
  match depth with
  | O => fun r path _ =>
      [violation path ("reference depth exceeded at " ++ r)]
  | S n => fun r path d =>
      match resolve root r with
      | Some s => validate (validate_refs n root) s path d
      | None => [violation path ("can't resolve reference " ++ r)]
      end
  end.

(** Number of [$ref] keywords in a schema: a chain of references that
    visits no keyword twice is no longer than this. *)
Fixpoint count_refs (s : schema) : nat :=
  match s with
  | Schema _ _ props _ _ itm _ _ rf =>
      (if is_some rf then 1 else 0)
      + match props with
        | Some ps => list_sum (map (fun ks => count_refs (snd ks)) ps)
        | None => 0
        end
      + match itm with
        | Some si => count_refs si
        | None => 0
        end
  end.

(** The result of calling a validating function: its boolean result and
    its [errors] property afterwards. *)
Record outcome : Type := {
  valid : bool;
  errors : list error_object
}.

Definition validator : Type := json -> outcome.

Definition errors_of (root : schema) (d : json) : list error_object :=
  validate (validate_refs (count_refs root) root) root "" d.

(** [new Ajv({ allErrors: true }).compile(schema)]. *)
Definition compile (root : schema) : validator :=
  fun d =>
    let errs := errors_of root d in
    {| valid := is_nil errs; errors := errs |}.

End Ajv.

(* ================================================================== *)
(** ** The backlog schema *)

Import Ajv.

(** The schema of one user story: the object under [mvp.items]. *)
Definition storySchema : schema :=
  type "object"
    (required ["id"; "title"; "description"; "acceptance_criteria";
               "tasks"; "priority"]
    (properties
       [("id", type "string" (pattern "^US\d{3}$" any));
        ("title", type "string" any);
        ("description", type "string" any);
        ("acceptance_criteria",
          type "array" (minItems 2 (items (type "string" any) any)));
        ("tasks",
          type "array" (minItems 2 (items (type "string" any) any)));
        ("priority", enum [JStr "HIGH"; JStr "MEDIUM"; JStr "LOW"] any)]
     any)).

Definition createBacklogSchema : schema :=
  type "object"
    (required ["epic"; "mvp"; "iterations"]
    (properties
       [("epic",
          type "object"
            (required ["title"; "description"]
            (properties
               [("title", type "string" any);
                ("description", type "string" any)]
             any)));
        ("mvp",
          type "array" (minItems 3 (maxItems 5 (items storySchema any))));
        ("iterations",
          type "array"
            (minItems 2
            (maxItems 3
            (items
               (type "object"
                 (required ["name"; "goal"; "stories"]
                 (properties
                    [("name", type "string" any);
                     ("goal", type "string" any);
                     ("stories",
                       type "array"
                         (minItems 1
                         (items (ref "#/properties/mvp/items" any) any)))]
                  any)))
             any))))]
     any)).

(* ================================================================== *)
(** ** The chat-completion client and the values passed around *)

Record function_call : Type := {
  fc_name : string;
  fc_arguments : string
}.

(** One turn of the conversation; [content = None] is [null], and
    [msg_function_call = None] a turn without that key. *)
Record chat_message : Type := {
  role : string;
  content : option string;
  msg_function_call : option function_call
}.

(** The part of a completion the generator reads:
    [completion.choices[0].message.function_call]. *)
Record response_message : Type := {
  rm_function_call : option function_call
}.

Record choice : Type := {
  ch_message : option response_message
}.

Record completion : Type := {
  choices : option (list choice)
}.

(** A thrown value: [undefined], [null], or a value whose [message]
    property is read ([None] when it has none). [new Error(m)] is
    [ThrownValue (Some m)]. *)
Inductive thrown : Type :=
| ThrownUndefined
| ThrownNull
| ThrownValue (msg : option string).

Definition Error (m : string) : thrown := ThrownValue (Some m).

(** The request object given to [client.chat.completions.create]. *)
Record request : Type := {
  rq_model : string;
  rq_messages : list chat_message;
  rq_temperature : QArith_base.Q;
  rq_functions : list (string * string * schema);
  rq_function_call : string;
  rq_max_tokens : Z
}.

(** An argument of [generateBacklog] in the position of the description
    or of the client. An object is a client, with the [baseURL] it was
    built with. *)
Record client_object : Type := {
  baseURL : option string
}.

Inductive js_arg : Type :=
| ArgUndefined
| ArgNull
| ArgString (s : string)
| ArgObject (c : client_object).

Definition arg_truthy (a : js_arg) : bool :=
  match a with
  | ArgUndefined | ArgNull => false
  | ArgString s => negb (String.eqb s "")
  | ArgObject _ => true
  end.

Definition typeof (a : js_arg) : string :=
  match a with
  | ArgUndefined => "undefined"
  | ArgNull => "object"
  | ArgString _ => "string"
  | ArgObject _ => "object"
  end.

(** The text of an argument inside a template literal. *)
Definition to_text (a : js_arg) : string :=
  match a with
  | ArgUndefined => "undefined"
  | ArgNull => "null"
  | ArgString s => s
  | ArgObject _ => "[object Object]"
  end.

(** [e?.message || fallback]. *)
Definition message_or (e : thrown) (fallback : string) : string :=
  match e with
  | ThrownValue (Some m) => if String.eqb m "" then fallback else m
  | _ => fallback
  end.

(** What [callApiForBacklog] returns. *)
Inductive api_result : Type :=
| ApiInvalid (err : string)
| ApiValid (data : json) (functionCall : function_call).

(** What [validateBacklog] returns. *)
Inductive validation_result : Type :=
| ValidationOk
| ValidationFailed (errs : list error_object) (errorMsg : string).

(** What [attemptBacklogGeneration] returns; the failure object has no
    [result] key. *)
Record generation_result : Type := {
  gr_success : bool;
  gr_result : option json;
  gr_lastValidationErrors : option (list error_object)
}.

(** The result envelope of [generateBacklog]. *)
Record error_info : Type := {
  err_message : string
}.

Record envelope : Type := {
  success : bool;
  result : option json;
  error : option error_info
}.

Definition failure (m : string) : envelope :=
  {| success := false; result := None;
     error := Some {| err_message := m |} |}.

(** How the promise returned by [generateBacklog] settles. *)
Inductive promise : Type :=
| Resolved (e : envelope)
| Rejected (t : thrown).

(** [Array.prototype.join]. *)
Fixpoint join (sep : string) (l : list string) : string :=
  match l with
  | [] => ""
  | [x] => x
  | x :: l' => x ++ sep ++ join sep l'
  end.

(** [s.includes(sub)]. *)
Definition includes (sub s : string) : bool :=
  match index 0 sub s with
  | Some _ => true
  | None => false
  end.

(* ================================================================== *)
(** ** The backlog generator *)

Section Generator.

(** The client: its internal state and what
    [client.chat.completions.create] does in a state, a completion or a
    thrown value, and the next state. *)
Variable ClientState : Type.
Variable chat_completions_create :
  ClientState -> request -> (completion + thrown) * ClientState.

(** [JSON.parse]: the parsed value, or the message of the SyntaxError. *)
Variable JSON_parse : string -> json + string.

(** One call of the adapter as an observer sees it: the message sequence
    it was given, at the time of the call, and what it returned or threw. *)
Record call_record : Type := {
  cr_messages : list chat_message;
  cr_outcome : api_result + thrown
}.

(** The world a generation runs in: the state of the client and the trace
    of the adapter calls made so far. The trace is ghost state: nothing
    reads it. *)
Record world : Type := {
  client_state : ClientState;
  calls : list call_record
}.

(** Computations that read and change the world and return or throw. *)
Definition M (A : Type) : Type := world -> (A + thrown) * world.

Definition ret {A : Type} (a : A) : M A := fun w => (inl a, w).

Definition throw {A : Type} (t : thrown) : M A := fun w => (inr t, w).

Definition bind {A B : Type} (m : M A) (k : A -> M B) : M B :=
  fun w =>
    match m w with
    | (inl a, w') => k a w'
    | (inr t, w') => (inr t, w')
    end.

Definition try_catch {A : Type} (m : M A) (handler : thrown -> M A) : M A :=
  fun w =>
    match m w with
    | (inl a, w') => (inl a, w')
    | (inr t, w') => handler t w'
    end.

Notation "x <- m ;; k" := (bind m (fun x => k))
  (at level 61, m at next level, right associativity).

(** [client.chat.completions.create(request)]: on a client object the
    client's own behaviour; on a string the read of [chat.completions]
    fails. *)
Definition create (client : js_arg) (rq : request) : M completion :=
  fun w =>
    match client with
    | ArgObject _ =>
        let (r, st) := chat_completions_create (client_state w) rq in
        (r, {| client_state := st; calls := calls w |})
    | ArgString _ =>
        (inr (Error
           "Cannot read properties of undefined (reading 'completions')"), w)
    | ArgUndefined =>
        (inr (Error
           "Cannot read properties of undefined (reading 'chat')"), w)
    | ArgNull =>
        (inr (Error "Cannot read properties of null (reading 'chat')"), w)
    end.

(** Ghost: appends a call to the trace. *)
Definition record_call (msgs : list chat_message) (o : api_result + thrown)
  : M unit :=
  fun w =>
    (inl tt,
     {| client_state := client_state w;
        calls := calls w ++ [{| cr_messages := msgs; cr_outcome := o |}] |}).

Definition determineModel (client : js_arg) : string :=
  match client with
  | ArgObject c =>
      match baseURL c with
      | None => "gpt-4.1"
      | Some url =>
          if includes "openai.com" url then "gpt-4.1" else "llama3-70b-8192"
      end
  | _ => "gpt-4.1"
  end.

Definition newline : string := String (ascii_of_nat 10) "".

Definition createApiMessages (project : string) : list chat_message :=
  [ {| role := "system";
       content := Some "You are an expert agile product owner. Generate a detailed agile backlog as a valid JSON object strictly following the given JSON schema and structure. Include all required fields and respect all constraints.";
       msg_function_call := None |};
    {| role := "user";
       content := Some ("Project description: " ++ project);
       msg_function_call := None |};
    {| role := "system";
       content := Some
         ("Le backlog doit comporter :" ++ newline
          ++ "- Un objet 'epic' (titre, description)" ++ newline
          ++ "- Un tableau 'mvp' (3 à 5 user stories complètes avec id, title, description, acceptance_criteria, tasks, priority)" ++ newline
          ++ "- Un tableau 'iterations' (2 à 3 itérations, chaque itération a un nom, un goal, et des stories conformes au schéma user story)." ++ newline
          ++ "Respecte strictement ce format. N'invente pas de champs en plus." ++ newline
          ++ "Produce a valid JSON that I can use directly.");
       msg_function_call := None |} ].

Definition no_choice : string := "Réponse API invalide: aucun choix retourné".

(** The request [callApiForBacklog] sends. *)
Definition backlog_request (model : string) (messages : list chat_message)
    (backlogSchema : schema) : request :=
  {| rq_model := model;
     rq_messages := messages;
     rq_temperature := QArith_base.Qmake 7 10;
     rq_functions :=
       [("deliver_backlog", "Renvoie un backlog agile structuré en JSON",
         backlogSchema)];
     rq_function_call := "deliver_backlog";
     rq_max_tokens := 8192%Z |}.

(** The body of the [try] of [callApiForBacklog]. *)
Definition callApi_try (client : js_arg) (model : string)
    (messages : list chat_message) (backlogSchema : schema) : M api_result :=
  completion <- create client (backlog_request model messages backlogSchema) ;;
  match choices completion with
  | None | Some [] => throw (Error no_choice)
  | Some (c :: _) =>
      match ch_message c with
      | None =>
          throw (Error
            "Cannot read properties of undefined (reading 'function_call')")
      | Some m =>
          match rm_function_call m with
          | None =>
              ret (ApiInvalid "Aucun appel de fonction retourné par l'API")
          | Some functionCall =>
              match JSON_parse (fc_arguments functionCall) with
              | inr parseError =>
                  ret (ApiInvalid ("Erreur de parsing JSON: " ++ parseError))
              | inl parsed => ret (ApiValid parsed functionCall)
              end
          end
      end
  end.

(** The [catch] of [callApiForBacklog]: reading [error.message] of
    [undefined] or [null] throws in turn. *)
Definition callApi_catch (error : thrown) : M api_result :=
  match error with
  | ThrownUndefined =>
      throw (Error
        "Cannot read properties of undefined (reading 'message')")
  | ThrownNull =>
      throw (Error "Cannot read properties of null (reading 'message')")
  | ThrownValue m =>
      match m with
      | Some m' =>
          if String.eqb m' no_choice then ret (ApiInvalid m')
          else throw error
      | None => throw error
      end
  end.

(** The adapter; each call is appended to the trace with its outcome. *)
Definition callApiForBacklog (client : js_arg) (model : string)
    (messages : list chat_message) (backlogSchema : schema) : M api_result :=
  fun w =>
    match try_catch (callApi_try client model messages backlogSchema)
                    callApi_catch w with
    | (o, w') =>
        match record_call messages o w' with
        | (_, w'') => (o, w'')
        end
    end.

(** The text of [instancePath] inside a template literal. *)
Definition path_text (e : error_object) : string :=
  match instancePath e with
  | Some p => p
  | None => "undefined"
  end.

Definition validateBacklog (backlog : json) (validate : validator)
  : validation_result :=
  let o := validate backlog in
  if negb (valid o) then
    let errorMsg :=
      join "; " (map (fun e => path_text e ++ " " ++ message e) (errors o)) in
    ValidationFailed (errors o) errorMsg
  else ValidationOk.

(** The result of [processBacklogParams]. *)
Inductive params_result : Type :=
| ParamsInvalid (err : error_info)
| ParamsValid (project : string) (client : js_arg).

Definition processBacklogParams (projectName : string)
    (projectDescription client : js_arg) : params_result :=
  let legacy :=
    String.eqb (typeof projectDescription) "object"
    && negb (arg_truthy client) in
  let client' := if legacy then projectDescription else client in
  let projectDescription' :=
    if legacy then ArgString "" else projectDescription in
  if negb (arg_truthy client') then
    ParamsInvalid {| err_message := "Client API non défini" |}
  else
    ParamsValid (projectName ++ ": " ++ to_text projectDescription') client'.

Definition maxTries : nat := 3.

(** The two turns pushed after a schema failure. *)
Definition assistant_turn (functionCall : function_call) : chat_message :=
  {| role := "assistant"; content := None;
     msg_function_call := Some functionCall |}.

Definition corrective_turn (errorMsg : string) : chat_message :=
  {| role := "system";
     content := Some ("La réponse JSON n'est pas valide : " ++ errorMsg
       ++ ". Merci de ne renvoyer que le JSON conforme via deliver_backlog.");
     msg_function_call := None |}.

(** How one iteration of the loop ends: with a [return], or with the
    message array and [lastValidationErrors] the next iteration starts
    from. *)
Inductive loop_control : Type :=
| Return (r : generation_result)
| Continue (messages : list chat_message)
           (lastValidationErrors : option (list error_object)).

(** The body of the [for] loop. *)
Definition attempt_body (client : js_arg) (model : string)
    (messages : list chat_message) (backlogSchema : schema)
    (validate : validator) : M loop_control :=
  apiResult <- callApiForBacklog client model messages backlogSchema ;;
  match apiResult with
  | ApiInvalid err =>
      ret (Continue messages
             (Some [{| instancePath := None; message := err |}]))
  | ApiValid data functionCall =>
      match validateBacklog data validate with
      | ValidationOk =>
          ret (Return {| gr_success := true;
                         gr_result := Some data;
                         gr_lastValidationErrors := None |})
      | ValidationFailed errs errorMsg =>
          ret (Continue
                 (messages
                  ++ [assistant_turn functionCall; corrective_turn errorMsg])
                 (Some errs))
      end
  end.

(** The loop with [remaining] iterations left, [attempt] running from
    [maxTries - remaining + 1] to [maxTries]. *)
Fixpoint attempt_loop (remaining : nat) (client : js_arg) (model : string)
    (messages : list chat_message)
    (lastValidationErrors : option (list error_object))
    (backlogSchema : schema) (validate : validator) : M generation_result :=
  match remaining with
  | O =>
      ret {| gr_success := false;
             gr_result := None;
             gr_lastValidationErrors := lastValidationErrors |}
  | S n =>
      c <- attempt_body client model messages backlogSchema validate ;;
      match c with
      | Return r => ret r
      | Continue messages' last' =>
          attempt_loop n client model messages' last' backlogSchema validate
      end
  end.

Definition attemptBacklogGeneration (client : js_arg) (model : string)
    (messages : list chat_message) (backlogSchema : schema)
    (validate : validator) : M generation_result :=
  attempt_loop maxTries client model messages None backlogSchema validate.

(** [lastValidationErrors?.[0]?.message || fallback]. *)
Definition first_message_or (l : option (list error_object))
    (fallback : string) : string :=
  match l with
  | Some (e :: _) =>
      if String.eqb (message e) "" then fallback else message e
  | _ => fallback
  end.

(** The body of the [try] of [processBacklog]; its value is the envelope
    the promise is resolved with. *)
Definition processBacklog_try (projectName : string)
    (projectDescription client : js_arg) : M envelope :=
  match processBacklogParams projectName projectDescription client with
  | ParamsInvalid err => ret (failure (err_message err))
  | ParamsValid project client' =>
      let backlogSchema := createBacklogSchema in
      let validate := Ajv.compile backlogSchema in
      let messages := createApiMessages project in
      let model := determineModel client' in
      generationResult <-
        attemptBacklogGeneration client' model messages backlogSchema
          validate ;;
      if gr_success generationResult then
        ret {| success := true;
               result := gr_result generationResult;
               error := None |}
      else
        ret (failure
               (first_message_or (gr_lastValidationErrors generationResult)
                  "Validation du backlog échouée"))
  end.

Definition processBacklog (projectName : string)
    (projectDescription client : js_arg) : M envelope :=
  try_catch (processBacklog_try projectName projectDescription client)
    (fun error =>
       ret (failure
              (message_or error
                 "Une erreur est survenue lors de la génération du backlog"))).

(** [generateBacklog]: the promise settles as [processBacklog] resolves
    it, or through the final [.catch] if [processBacklog] rejects. The
    [provider] parameter is never read, and the console output is left
    out. *)
Definition generateBacklog (projectName : string)
    (projectDescription client : js_arg) (w : world) : promise * world :=
  match processBacklog projectName projectDescription client w with
  | (inl e, w') => (Resolved e, w')
  | (inr err, w') =>
      (Resolved
         (failure
            (message_or err
               "Erreur interne pendant la génération du backlog")),
       w')
  end.

End Generator.

Arguments calls {ClientState} w.
Arguments client_state {ClientState} w.
Arguments Build_world {ClientState} client_state calls.

(* ================================================================== *)
(** ** The epic step of the markdown generator *)

Module MarkdownGenerator.

(** [d.k] on a parsed value. *)
Definition get (d : json) (k : string) : option json :=
  match d with
  | JObj fs => lookup k fs
  | _ => None
  end.

(** [d[0]]. *)
Definition index0 (d : json) : option json :=
  match d with
  | JArr l => hd_error l
  | JObj fs => lookup "0" fs
  | JStr (String c _) => Some (JStr (String c ""))
  | _ => None
  end.

Definition truthy_opt (o : option json) : bool :=
  match o with
  | Some d => truthy d
  | None => false
  end.

(** [backlog.epic || (backlog.epics && backlog.epics[0])]. *)
Definition select_epic (backlog : json) : option json :=
  let epic := get backlog "epic" in
  if truthy_opt epic then epic
  else
    let epics := get backlog "epics" in
    if truthy_opt epics then
      match epics with
      | Some e => index0 e
      | None => None
      end
    else epics.

(** The epic step of [generateMarkdownFilesFromResult] on the backlog of
    a successful result: the epic the files are generated from, or the
    failure returned. *)
Definition epic_of_backlog (backlog : json) : json + error_info :=
  match select_epic backlog with
  | Some epic =>
      if truthy epic then inl epic
      else inr {| err_message := "Backlog does not contain an epic" |}
  | None => inr {| err_message := "Backlog does not contain an epic" |}
  end.

End MarkdownGenerator.

(* ================================================================== *)
(** ** Reading a trace of adapter calls *)

(** The text [validateBacklog] builds from a list of violations. *)
Definition violations_text (errs : list error_object) : string :=
  join "; " (map (fun e => path_text e ++ " " ++ message e) errs).

(** The attempt of a call failed: the adapter returned [valid: false], or
    data the validator rejects. *)
Definition attempt_failed (validate : validator) (c : call_record) : bool :=
  match cr_outcome c with
  | inl (ApiInvalid _) => true
  | inl (ApiValid data _) => negb (valid (validate data))
  | inr _ => false
  end.

(** What a failed attempt leaves in [lastValidationErrors]. *)
Definition failure_of (validate : validator) (c : call_record)
  : option (list error_object) :=
  match cr_outcome c with
  | inl (ApiInvalid err) => Some [{| instancePath := None; message := err |}]
  | inl (ApiValid data _) => Some (errors (validate data))
  | inr _ => None
  end.

Definition last_known_failure (validate : validator)
    (tr : list call_record) (init : option (list error_object))
  : option (list error_object) :=
  fold_left (fun _ c => failure_of validate c) tr init.

(** The traces of the loop: [loop_trace validate n messages last tr res]
    when the loop, entered with [n] iterations left, the message array
    [messages] and [lastValidationErrors = last], makes the adapter calls
    [tr] and ends with [res]. *)
Inductive loop_trace (validate : validator)
  : nat -> list chat_message -> option (list error_object)
    -> list call_record -> generation_result + thrown -> Prop :=
| trace_exhausted : forall msgs last,
    loop_trace validate 0 msgs last []
      (inl {| gr_success := false; gr_result := None;
              gr_lastValidationErrors := last |})
| trace_thrown : forall n msgs last t,
    loop_trace validate (S n) msgs last
      [{| cr_messages := msgs; cr_outcome := inr t |}] (inr t)
| trace_invalid : forall n msgs last err tr res,
    loop_trace validate n msgs
      (Some [{| instancePath := None; message := err |}]) tr res ->
    loop_trace validate (S n) msgs last
      ({| cr_messages := msgs; cr_outcome := inl (ApiInvalid err) |} :: tr)
      res
| trace_valid : forall n msgs last data fc,
    valid (validate data) = true ->
    loop_trace validate (S n) msgs last
      [{| cr_messages := msgs; cr_outcome := inl (ApiValid data fc) |}]
      (inl {| gr_success := true; gr_result := Some data;
              gr_lastValidationErrors := None |})
| trace_rejected : forall n msgs last data fc tr res,
    valid (validate data) = false ->
    loop_trace validate n
      (msgs ++ [assistant_turn fc;
                corrective_turn (violations_text (errors (validate data)))])
      (Some (errors (validate data))) tr res ->
    loop_trace validate (S n) msgs last
      ({| cr_messages := msgs; cr_outcome := inl (ApiValid data fc) |} :: tr)
      res.

(** The envelope is filled on one side only. *)
Definition envelope_wf (e : envelope) : Prop :=
  if success e then result e <> None /\ error e = None
  else (exists m, error e = Some {| err_message := m |}) /\ result e = None.

(* ================================================================== *)
(** ** Schemas that constrain no field they do not require *)

Definition is_atom (d : json) : bool :=
  match d with
  | JArr _ | JObj _ => false
  | _ => true
  end.

(** [closedb s]: in [s] and in every schema under it, each name under
    [properties] is also under [required], and [enum] lists atoms only. *)
Fixpoint closedb (s : schema) : bool :=
  match s with
  | Schema _ req props _ _ itm _ enu _ =>
      match props with
      | Some ps =>
          forallb
            (fun ks : string * schema =>
               existsb (String.eqb (fst ks))
                 (match req with Some ks' => ks' | None => [] end)
               && closedb (snd ks))
            ps
      | None => true
      end
      && match itm with
         | Some si => closedb si
         | None => true
         end
      && match enu with
         | Some vs => forallb is_atom vs
         | None => true
         end
  end.

(** A story is accepted under the schema a pointer of the backlog schema
    leads to. *)
Definition accepted_at (ptr : string) (d : json) : bool :=
  match resolve createBacklogSchema ptr with
  | Some s =>
      is_nil
        (validate
           (validate_refs (count_refs createBacklogSchema)
              createBacklogSchema)
           s "" d)
  | None => false
  end.

(* ================================================================== *)
(** ** Stub clients and sample backlogs *)

Module Scenario.

(** A client that plays a script: one scripted response per call. *)
Definition scripted_create (st : list (completion + thrown)) (rq : request)
  : (completion + thrown) * list (completion + thrown) :=
  match st with
  | r :: st' => (r, st')
  | [] => (inr (Error "no scripted response left"), [])
  end.

(** A completion whose first choice calls [deliver_backlog] with the
    given argument text. *)
Definition delivers (args : string) : completion + thrown :=
  inl {| choices :=
           Some [{| ch_message :=
                      Some {| rm_function_call :=
                                Some {| fc_name := "deliver_backlog";
                                        fc_arguments := args |} |} |}] |}.

Definition no_function_call : completion + thrown :=
  inl {| choices := Some [{| ch_message :=
                               Some {| rm_function_call := None |} |}] |}.

Definition story (id : string) : json :=
  JObj [("id", JStr id);
        ("title", JStr "Sign up");
        ("description", JStr "As a user, I want to sign up");
        ("acceptance_criteria", JArr [JStr "form shown"; JStr "account made"]);
        ("tasks", JArr [JStr "model"; JStr "form"]);
        ("priority", JStr "HIGH")].

Definition iteration (name : string) (stories : list json) : json :=
  JObj [("name", JStr name); ("goal", JStr "goal"); ("stories", JArr stories)].

Definition the_epic : json :=
  JObj [("title", JStr "Library"); ("description", JStr "Manage books")].

Definition backlog_with (epic_field : string * json) (mvp : list json)
  : json :=
  JObj [epic_field;
        ("mvp", JArr mvp);
        ("iterations",
          JArr [iteration "Iteration 1" [story "US004"];
                iteration "Iteration 2" [story "US005"]])].

(** A conformant backlog, [mvp] of length 3 and [iterations] of length 2. *)
Definition conformant : json :=
  backlog_with ("epic", the_epic)
    [story "US001"; story "US002"; story "US003"].

(** The same backlog in the legacy shape: [epics] instead of [epic]. *)
Definition legacy : json :=
  backlog_with ("epics", JArr [the_epic])
    [story "US001"; story "US002"; story "US003"].

(** A backlog whose [mvp] has one story. *)
Definition short_mvp : json :=
  backlog_with ("epic", the_epic) [story "US001"].

(** The conformant backlog with one more field at the root, in the epic,
    in a story and in an iteration. *)
Definition with_extra_fields : json :=
  JObj [("epic",
          JObj [("title", JStr "Library");
                ("description", JStr "Manage books");
                ("owner", JStr "me")]);
        ("mvp",
          JArr [JObj [("id", JStr "US001");
                      ("title", JStr "Sign up");
                      ("description", JStr "As a user, I want to sign up");
                      ("acceptance_criteria",
                        JArr [JStr "form shown"; JStr "account made"]);
                      ("tasks", JArr [JStr "model"; JStr "form"]);
                      ("priority", JStr "HIGH");
                      ("dependencies", JArr [JNum 7])];
                story "US002"; story "US003"]);
        ("iterations",
          JArr [JObj [("name", JStr "Iteration 1");
                      ("goal", JStr "goal");
                      ("stories", JArr [story "US004"]);
                      ("id", JStr "ITER-001")];
                iteration "Iteration 2" [story "US005"]]);
        ("projectName", JStr "Library")].

(** A backlog with four violations, at the root and below: a story whose
    [title] is a number, a story without [tasks], a single iteration,
    and in it a story whose [priority] is none of the three. *)
Definition several_flaws : json :=
  JObj [("epic", the_epic);
        ("mvp",
          JArr [JObj [("id", JStr "US001");
                      ("title", JNum 7);
                      ("description", JStr "As a user, I want to sign up");
                      ("acceptance_criteria",
                        JArr [JStr "form shown"; JStr "account made"]);
                      ("tasks", JArr [JStr "model"; JStr "form"]);
                      ("priority", JStr "HIGH")];
                JObj [("id", JStr "US002");
                      ("title", JStr "Sign up");
                      ("description", JStr "As a user, I want to sign up");
                      ("acceptance_criteria",
                        JArr [JStr "form shown"; JStr "account made"]);
                      ("priority", JStr "HIGH")];
                story "US003"]);
        ("iterations",
          JArr [iteration "Iteration 1"
                  [JObj [("id", JStr "US004");
                         ("title", JStr "Sign up");
                         ("description",
                           JStr "As a user, I want to sign up");
                         ("acceptance_criteria",
                           JArr [JStr "form shown"; JStr "account made"]);
                         ("tasks", JArr [JStr "model"; JStr "form"]);
                         ("priority", JStr "URGENT")]]])].

(** A stand-in for [JSON.parse] on the argument texts the stubs send. *)
Definition parse (s : string) : json + string :=
  if String.eqb s "conformant" then inl conformant
  else if String.eqb s "legacy" then inl legacy
  else if String.eqb s "short_mvp" then inl short_mvp
  else if String.eqb s "several_flaws" then inl several_flaws
  else inr "Unexpected token".

Definition start (script : list (completion + thrown))
  : world (list (completion + thrown)) :=
  {| client_state := script; calls := [] |}.

Definition a_client : js_arg := ArgObject {| baseURL := None |}.

Definition messages0 : list chat_message :=
  createApiMessages "Library: books".

(** A run of the loop against a script, with the compiled validator. *)
Definition run_loop (script : list (completion + thrown))
  : (generation_result + thrown) * world (list (completion + thrown)) :=
  attemptBacklogGeneration _ scripted_create parse a_client "gpt-4.1"
    messages0 createBacklogSchema (Ajv.compile createBacklogSchema)
    (start script).

(** A call of [generateBacklog] against a script. *)
Definition run_generate (description client : js_arg)
    (script : list (completion + thrown))
  : promise * world (list (completion + thrown)) :=
  generateBacklog _ scripted_create parse "Library" description client
    (start script).

(** First a backlog with a short [mvp], then conformant ones. *)
Definition retry_script : list (completion + thrown) :=
  [delivers "short_mvp"; delivers "conformant"; delivers "conformant"].

(** A backlog with several violations first, then a conformant one. *)
Definition flawed_script : list (completion + thrown) :=
  [delivers "several_flaws"; delivers "conformant"].

(** A schema failure, a completion without function call, a text that
    does not parse; more responses would follow. *)
Definition failing_script : list (completion + thrown) :=
  [delivers "short_mvp"; no_function_call; delivers "{"; delivers "{"].

(** A call record that is in no trace. *)
Definition no_call : call_record :=
  {| cr_messages := []; cr_outcome := inr ThrownNull |}.

Definition deliver_call (args : string) : function_call :=
  {| fc_name := "deliver_backlog"; fc_arguments := args |}.

End Scenario.

(* ================================================================== *)
(** ** The backlogs the schema describes *)

(** What [createBacklogSchema] asks of a value, read off its keywords as
    a test on the value alone. *)
Module Shape.

Definition is_string (d : json) : bool :=
  match d with
  | JStr _ => true
  | _ => false
  end.

Definition is_digit (c : ascii) : bool :=
  ((48 <=? nat_of_ascii c)%nat && (nat_of_ascii c <=? 57)%nat)%bool.

(** [US] followed by three decimal digits, and nothing more. *)
Definition story_id_ok (s : string) : bool :=
  match s with
  | String u (String s' (String a (String b (String c EmptyString)))) =>
      Ascii.eqb u "U" && Ascii.eqb s' "S"
      && is_digit a && is_digit b && is_digit c
  | _ => false
  end.

(** An array of at least [min] strings. *)
Definition strings_ok (min : nat) (d : json) : bool :=
  match d with
  | JArr l => (min <=? length l)%nat && forallb is_string l
  | _ => false
  end.

Definition priority_ok (d : json) : bool :=
  match d with
  | JStr s =>
      String.eqb s "HIGH" || String.eqb s "MEDIUM" || String.eqb s "LOW"
  | _ => false
  end.

(** The object has the field and its value passes the test. *)
Definition field_ok (fs : list (string * json)) (k : string)
    (ok : json -> bool) : bool :=
  match lookup k fs with
  | Some v => ok v
  | None => false
  end.

Definition story_ok (d : json) : bool :=
  match d with
  | JObj fs =>
      field_ok fs "id"
        (fun v => match v with JStr s => story_id_ok s | _ => false end)
      && field_ok fs "title" is_string
      && field_ok fs "description" is_string
      && field_ok fs "acceptance_criteria" (strings_ok 2)
      && field_ok fs "tasks" (strings_ok 2)
      && field_ok fs "priority" priority_ok
  | _ => false
  end.

Definition epic_ok (d : json) : bool :=
  match d with
  | JObj fs =>
      field_ok fs "title" is_string && field_ok fs "description" is_string
  | _ => false
  end.

(** An array of stories, at least [min] and, with [max], at most [max]. *)
Definition stories_ok (min : nat) (max : option nat) (d : json) : bool :=
  match d with
  | JArr l =>
      (min <=? length l)%nat
      && match max with
         | Some m => (length l <=? m)%nat
         | None => true
         end
      && forallb story_ok l
  | _ => false
  end.

Definition iteration_ok (d : json) : bool :=
  match d with
  | JObj fs =>
      field_ok fs "name" is_string
      && field_ok fs "goal" is_string
      && field_ok fs "stories" (stories_ok 1 None)
  | _ => false
  end.

Definition iterations_ok (d : json) : bool :=
  match d with
  | JArr l =>
      (2 <=? length l)%nat && (length l <=? 3)%nat && forallb iteration_ok l
  | _ => false
  end.

Definition backlog_ok (d : json) : bool :=
  match d with
  | JObj fs =>
      field_ok fs "epic" epic_ok
      && field_ok fs "mvp" (stories_ok 3 (Some 5))
      && field_ok fs "iterations" iterations_ok
  | _ => false
  end.

End Shape.

(* ================================================================== *)
(** ** Reading a run: corrections and client calls *)

(** The turns an attempt adds to the conversation of the attempts after
    it: two after data the validator rejects, none otherwise. *)
Definition corrections (validate : validator) (c : call_record)
  : list chat_message :=
  match cr_outcome c with
  | inl (ApiValid data fc) =>
      if valid (validate data) then []
      else [assistant_turn fc;
            corrective_turn (violations_text (errors (validate data)))]
  | _ => []
  end.

(** A client that counts the calls of [create] beside its own state. *)
Definition counted {S : Type}
    (create : S -> request -> (completion + thrown) * S)
    (st : S * nat) (rq : request) : (completion + thrown) * (S * nat) :=
  let (r, s') := create (fst st) rq in (r, (s', Datatypes.S (snd st))).

(* ================================================================== *)
(** ** The client and the model *)

(** The options [initializeClient] gives to [new OpenAI(...)]. *)
Record client_options : Type := {
  opt_apiKey : string;
  opt_baseURL : option string
}.

(** Truthiness of a key read from the environment: a string or
    [undefined]. *)
Definition key_truthy (k : option string) : bool :=
  match k with
  | Some s => negb (String.eqb s "")
  | None => false
  end.

Section Client.

(** [new OpenAI(options)]: the client the SDK builds. *)
Variable OpenAI : client_options -> client_object.

Definition initializeClient (openaiKey groqKey : option string)
  : client_object + thrown :=
  match openaiKey, groqKey with
  | Some k, _ =>
      if negb (String.eqb k "") then
        inl (OpenAI {| opt_apiKey := k; opt_baseURL := None |})
      else
        match groqKey with
        | Some g =>
            if negb (String.eqb g "") then
              inl (OpenAI {| opt_apiKey := g;
                             opt_baseURL :=
                               Some "https://api.groq.com/openai/v1" |})
            else inr (Error "No API key provided for OpenAI or GROQ")
        | None => inr (Error "No API key provided for OpenAI or GROQ")
        end
  | None, Some g =>
      if negb (String.eqb g "") then
        inl (OpenAI {| opt_apiKey := g;
                       opt_baseURL :=
                         Some "https://api.groq.com/openai/v1" |})
      else inr (Error "No API key provided for OpenAI or GROQ")
  | None, None => inr (Error "No API key provided for OpenAI or GROQ")
  end.

End Client.

(* ================================================================== *)
(** ** The markdown generator *)

Module Renderer.

Import MarkdownGenerator.

Definition unlines (l : list string) : string := join newline l.

Definition aiAutomationInstructions : string :=
  unlines
    [ "";
      "## 🤖 Instructions for AI";
      "";
      "As an AI assistant, follow these guidelines when analyzing this document:";
      "- Process the tasks below in the sequential order indicated";
      "- Once a task is accomplished, mark it as completed by checking its box ([ ] → [x])";
      "- Wait for user confirmation before moving to the next task";
      "- Respect dependencies between tasks when mentioned";
      "- Provide relevant suggestions based on acceptance criteria";
      "";
      "---";
      "";
      "" ].

Definition epicFileInstructions : string :=
  unlines
    [ "";
      "## 🤖 Epic Processing Instructions for AI";
      "";
      "This file defines the main Epic of the project. When working with this file:";
      "- Understand the overall vision and scope of the project from the Epic description";
      "- Use this Epic as the strategic direction for all implementation work";
      "- When implementing User Stories, always verify alignment with this Epic";
      "- Suggest refinements to the Epic only if substantial project changes occur";
      "";
      "---";
      "";
      "" ].

Definition mvpFileInstructions : string :=
  unlines
    [ "";
      "## 🤖 MVP User Stories Instructions for AI";
      "";
      "This file contains the Minimum Viable Product (MVP) User Stories that must be implemented first:";
      "- Each User Story follows the format: " ++ quote
        ++ "As a [role], I want [feature], so that [benefit]"
        ++ quote;
      "- Acceptance Criteria define the expected behavior and requirements";
      "- Technical Tasks outline implementation steps (2-8 hour chunks of work)";
      "- Priority indicates implementation order (HIGH → MEDIUM → LOW)";
      "- Complete all HIGH priority stories before moving to MEDIUM priority ones";
      "";
      "When implementing:";
      "1. Start with one User Story at a time, in priority order";
      "2. Implement all Technical Tasks for that User Story";
      "3. Verify implementation against Acceptance Criteria";
      "4. Mark User Story as complete only when all Acceptance Criteria are satisfied";
      "";
      "---";
      "";
      "" ].

Definition iterationFileInstructions : string :=
  unlines
    [ "";
      "## 🤖 Iteration Planning Instructions for AI";
      "";
      "This file contains User Stories for a specific iteration (development cycle):";
      "- The Iteration has a specific goal and thematic focus";
      "- User Stories in this iteration contribute to that specific goal";
      "- Dependencies indicate User Stories that must be completed first";
      "- Only move to Iteration stories after completing the MVP User Stories";
      "";
      "When planning work:";
      "1. Check that all dependencies are completed first";
      "2. Focus on delivering the cohesive goal of this iteration";
      "3. Implement in priority order within the iteration";
      "4. Report progress against the iteration goal";
      "";
      "---";
      "";
      "" ].

(** What V8 says when a property of [undefined] or [null] is read, and
    when a value that is no function is called. *)
Definition cannot_read (what prop : string) : thrown :=
  Error ("Cannot read properties of " ++ what ++ " (reading '" ++ prop
         ++ "')").

Definition not_a_function (callee : string) : thrown :=
  Error (callee ++ " is not a function").

(** What V8 says when an object has no usable [toString] or [valueOf]. *)
Definition cannot_convert : thrown :=
  Error "Cannot convert object to primitive value".

(** What [path.join] of Node says of an argument that is no string;
    [received] is how Node names the argument, as in [null] or
    [type number (5)]. *)
Definition invalid_path (received : string) : thrown :=
  Error ("The " ++ quote ++ "path" ++ quote
         ++ " argument must be of type string. Received " ++ received).

(** The [outputDir] argument of the generator: none, a string, or
    another value under the name Node gives it. *)
Inductive dir_arg : Type :=
| DirUndefined
| DirString (s : string)
| DirOther (received : string).

(** Sequencing of steps that return or throw. *)
Definition rbind {A B : Type} (r : A + thrown) (k : A -> B + thrown)
  : B + thrown :=
  match r with
  | inl a => k a
  | inr t => inr t
  end.

(** The values of a list of steps, in order; what the first failing one
    throws otherwise. *)
Fixpoint all_values {A : Type} (l : list (A + thrown)) : list A + thrown :=
  match l with
  | [] => inl []
  | r :: rest =>
      rbind r (fun a => rbind (all_values rest) (fun l' => inl (a :: l')))
  end.

(** A value is printable when no object in it, reached through arrays,
    has a field [toString]: a parsed value holds no function, so the
    field hides the method of the prototype. *)
Fixpoint printable (d : json) : bool :=
  match d with
  | JArr l => forallb printable l
  | JObj fs =>
      match lookup "toString" fs with
      | Some _ => false
      | None => true
      end
  | _ => true
  end.

(** The characters a slug keeps. *)
Definition is_alnum (c : ascii) : bool :=
  let n := nat_of_ascii c in
  ((97 <=? n)%nat && (n <=? 122)%nat || (48 <=? n)%nat && (n <=? 57)%nat)%bool.

(** [s.replace(/([^a-z0-9])+/g, '-')]: every maximal run of other
    characters becomes one hyphen. [in_run] tells that the character
    before was replaced. *)
Fixpoint replace_runs (in_run : bool) (s : string) : string :=
  match s with
  | "" => ""
  | String c rest =>
      if is_alnum c then String c (replace_runs false rest)
      else if in_run then replace_runs true rest
      else String "-" (replace_runs true rest)
  end.

Definition is_ascii (s : string) : bool :=
  forallb (fun c => (nat_of_ascii c <? 128)%nat) (list_ascii_of_string s).

Definition lower_ascii (c : ascii) : ascii :=
  let n := nat_of_ascii c in
  if ((65 <=? n)%nat && (n <=? 90)%nat)%bool then ascii_of_nat (n + 32)
  else c.

Fixpoint map_string (g : ascii -> ascii) (s : string) : string :=
  match s with
  | "" => ""
  | String c rest => String (g c) (map_string g rest)
  end.

(** An operation of the generator on the outside world. *)
Inductive fs_op : Type :=
| EnsureDir (path : string)
| WriteFile (path content : string)
| Stderr (text : string).

(** What the generator returns. *)
Record render_error : Type := {
  re_message : option string;
  re_stack : option string
}.

Record render_result : Type := {
  rr_success : bool;
  rr_files : option string;
  rr_error : option render_error
}.

(** The number of files written among operations. *)
Fixpoint writes (l : list fs_op) : nat :=
  match l with
  | [] => 0
  | WriteFile _ _ :: l' => Datatypes.S (writes l')
  | _ :: l' => writes l'
  end.

(** The elements of a value that is an array, none otherwise. *)
Definition elements (o : option json) : list json :=
  match o with
  | Some (JArr l) => l
  | _ => []
  end.

Section Files.

(** The file system: its state, and what [fs.ensureDir] and
    [fs.writeFile] do in a state. *)
Variable FsState : Type.
Variable fs_ensureDir : FsState -> string -> (unit + thrown) * FsState.
Variable fs_writeFile :
  FsState -> string -> string -> (unit + thrown) * FsState.

(** [path.join] of two segments. *)
Variable path_join : string -> string -> string.

(** [JSON.stringify(value, null, 2)]. *)
Variable JSON_stringify : json -> string.

(** The text of a number in a template literal. *)
Variable number_to_string : Z -> string.

(** [String.prototype.toLowerCase] on a text with characters outside
    ASCII. *)
Variable lower_unicode : string -> string.

(** [Number(s) > 0] for a string [s]. *)
Variable to_number_positive : string -> bool.

(** [error.stack]. *)
Variable stack_of : thrown -> option string.

(** [process.cwd()]. *)
Variable cwd : string.

(** The world of the generator: the state of the file system, and the
    operations attempted so far, in order. The list is ghost state. *)
Record fs_world : Type := {
  fs_state : FsState;
  ops : list fs_op
}.

Definition F (A : Type) : Type := fs_world -> (A + thrown) * fs_world.

Definition fret {A : Type} (a : A) : F A := fun w => (inl a, w).

Definition fthrow {A : Type} (t : thrown) : F A := fun w => (inr t, w).

Definition fbind {A B : Type} (m : F A) (k : A -> F B) : F B :=
  fun w =>
    match m w with
    | (inl a, w') => k a w'
    | (inr t, w') => (inr t, w')
    end.

Definition ftry {A : Type} (m : F A) (handler : thrown -> F A) : F A :=
  fun w =>
    match m w with
    | (inl a, w') => (inl a, w')
    | (inr t, w') => handler t w'
    end.

Definition lift {A : Type} (r : A + thrown) : F A := fun w => (r, w).

Notation "x <-- m ;; k" := (fbind m (fun x => k))
  (at level 61, m at next level, right associativity).
Notation "m ;;; k" := (fbind m (fun _ => k))
  (at level 61, right associativity).

Definition ensureDir (path : string) : F unit :=
  fun w =>
    let (r, st) := fs_ensureDir (fs_state w) path in
    (r, {| fs_state := st; ops := ops w ++ [EnsureDir path] |}).

Definition writeFile (path content : string) : F unit :=
  fun w =>
    let (r, st) := fs_writeFile (fs_state w) path content in
    (r, {| fs_state := st; ops := ops w ++ [WriteFile path content] |}).

Definition stderr_write (text : string) : F unit :=
  fun w =>
    (inl tt, {| fs_state := fs_state w; ops := ops w ++ [Stderr text] |}).

Definition toLowerCase (s : string) : string :=
  if is_ascii s then map_string lower_ascii s else lower_unicode s.

(** The text of a value, as a template literal and [join] make it
    (ToString): an array is the texts of its elements joined by commas,
    [null] among them giving the empty text; an object is
    [[object Object]], unless it has a field [toString], which is no
    function: then the conversion throws. *)
Fixpoint to_string (d : json) : string + thrown :=
  match d with
  | JNull => inl "null"
  | JBool true => inl "true"
  | JBool false => inl "false"
  | JNum n => inl (number_to_string n)
  | JStr s => inl s
  | JArr l =>
      rbind
        (all_values
           (map (fun x => match x with JNull => inl "" | _ => to_string x end)
                l))
        (fun texts => inl (join "," texts))
  | JObj fs =>
      match lookup "toString" fs with
      | Some _ => inr cannot_convert
      | None => inl "[object Object]"
      end
  end.

Definition text (o : option json) : string + thrown :=
  match o with
  | Some d => to_string d
  | None => inl "undefined"
  end.

(** [l.join(sep)]. *)
Definition array_join (sep : string) (l : list json) : string + thrown :=
  rbind
    (all_values
       (map (fun x => match x with JNull => inl "" | _ => to_string x end) l))
    (fun texts => inl (join sep texts)).

(** [a || b]. *)
Definition js_or (a b : option json) : option json :=
  if truthy_opt a then a else b.

(** [v > 0]: an array or an object is first made a text. *)
Definition positive (v : json) : bool + thrown :=
  match v with
  | JNull => inl false
  | JBool b => inl b
  | JNum n => inl (0 <? n)%Z
  | JStr s => inl (to_number_positive s)
  | JArr _ | JObj _ =>
      rbind (to_string v) (fun s => inl (to_number_positive s))
  end.

(** [d.length > 0] for a truthy [d]. *)
Definition length_positive (d : json) : bool + thrown :=
  match d with
  | JArr l => inl (0 <? length l)%nat
  | JStr s => inl (0 <? String.length s)%nat
  | JObj fs =>
      match lookup "length" fs with
      | Some v => positive v
      | None => inl false
      end
  | _ => inl false
  end.

Definition createSlug (text : option json) : string + thrown :=
  match js_or text (Some (JStr "item")) with
  | Some (JStr s) => inl (replace_runs false (toLowerCase s))
  | _ =>
      inr (not_a_function
             ("(text || " ++ quote ++ "item" ++ quote ++ ").toLowerCase"))
  end.

(** [items.forEach(item => content += `- [ ] ${item}\n`)], on the value
    of the field [name] of the story. *)
Definition checklist (name : string) (items : option json)
  : string + thrown :=
  match items with
  | None => inr (cannot_read "undefined" "forEach")
  | Some JNull => inr (cannot_read "null" "forEach")
  | Some (JArr l) =>
      rbind (all_values (map to_string l))
        (fun texts =>
           inl (String.concat ""
                  (map (fun item => "- [ ] " ++ item ++ newline) texts)))
  | Some _ => inr (not_a_function ("story." ++ name ++ ".forEach"))
  end.

(** The [if] of [formatUserStory] on the dependencies: the text it adds
    to the content. *)
Definition dependencies_text (dependencies : option json)
  : string + thrown :=
  match dependencies with
  | Some d =>
      if truthy d then
        rbind (length_positive d)
          (fun some =>
             if some then
               match d with
               | JArr l =>
                   rbind (array_join ", " l)
                     (fun joined =>
                        inl ("**Dependencies:** " ++ joined
                             ++ newline ++ newline))
               | _ => inr (not_a_function "story.dependencies.join")
               end
             else inl "")
      else inl ""
  | None => inl ""
  end.

Definition formatUserStory (story : json) : string + thrown :=
  match story with
  | JNull => inr (cannot_read "null" "id")
  | _ =>
      rbind (text (get story "id")) (fun id =>
      rbind (text (get story "title")) (fun title =>
      rbind (text (get story "description")) (fun description =>
      let content :=
        "## " ++ id ++ ": " ++ title ++ newline ++ newline
        ++ "- [ ] " ++ description ++ newline ++ newline in
      rbind
        (if truthy_opt (get story "priority") then
           rbind (text (get story "priority"))
             (fun priority =>
                inl (content ++ "**Priority:** " ++ priority
                     ++ newline ++ newline))
         else inl content) (fun content =>
      rbind (dependencies_text (get story "dependencies")) (fun deps =>
      rbind (checklist "acceptance_criteria"
               (get story "acceptance_criteria")) (fun criteria =>
      rbind (checklist "tasks" (get story "tasks")) (fun tasks =>
      inl (content ++ deps
           ++ "### Acceptance Criteria" ++ newline ++ criteria
           ++ newline ++ "### Technical Tasks" ++ newline
           ++ tasks
           ++ newline ++ "---" ++ newline ++ newline))))))))
  end.

(** The loop over the tasks of a story, from index [idx]. *)
Fixpoint write_tasks (tasksDir : string) (tasks : list json) (idx : nat)
  : F unit :=
  match tasks with
  | [] => fret tt
  | task :: rest =>
      let taskPath :=
        path_join tasksDir ("task-" ++ string_of_nat (idx + 1) ++ ".md") in
      printed <-- lift (to_string task) ;;
      writeFile taskPath
        ("# Task" ++ newline ++ newline ++ printed ++ newline) ;;;
      write_tasks tasksDir rest (idx + 1)
  end.

(** [generateUserStoryFiles]. After [formatUserStory] has returned,
    [tasks] is an array: the last case of the match on it is not
    reached. *)
Definition generateUserStoryFiles (userStory : json) (parentDir : string)
  : F unit :=
  match userStory with
  | JNull => fthrow (cannot_read "null" "id")
  | _ =>
      usSlug <-- lift (createSlug
                         (js_or (get userStory "id")
                                (get userStory "title"))) ;;
      let usPath := path_join parentDir (usSlug ++ ".md") in
      formatted <-- lift (formatUserStory userStory) ;;
      writeFile usPath formatted ;;;
      match get userStory "tasks" with
      | Some (JArr tasks) =>
          if (0 <? length tasks)%nat then
            let tasksDir := path_join parentDir (usSlug ++ "-tasks") in
            ensureDir tasksDir ;;;
            write_tasks tasksDir tasks 0
          else fret tt
      | _ => fret tt
      end
  end.

(** [for (const userStory of stories) await generateUserStoryFiles(...)]. *)
Fixpoint each_story (stories : list json) (usDir : string) : F unit :=
  match stories with
  | [] => fret tt
  | userStory :: rest =>
      generateUserStoryFiles userStory usDir ;;;
      each_story rest usDir
  end.

Definition generateEpicFiles (epic : json) (outputDir : string)
  : F string :=
  let epicsDir := path_join outputDir "epics" in
  ensureDir epicsDir ;;;
  let epicPath := path_join epicsDir "epic.md" in
  title <-- lift (text (get epic "title")) ;;
  description <-- lift (text (js_or (get epic "description")
                                    (Some (JStr "No description provided.")))) ;;
  let epicContent :=
    aiAutomationInstructions ++ epicFileInstructions
    ++ "# Epic: " ++ title ++ newline ++ newline
    ++ description ++ newline in
  writeFile epicPath epicContent ;;;
  fret epicsDir.

Definition generateMvpFiles (mvpStories : list json) (outputDir : string)
  : F unit :=
  let mvpDir := path_join outputDir "mvp" in
  ensureDir mvpDir ;;;
  let mvpPath := path_join mvpDir "user-stories.md" in
  let mvpContent :=
    aiAutomationInstructions ++ mvpFileInstructions
    ++ "# MVP - User Stories" ++ newline ++ newline
    ++ "This file contains all user stories for the Minimum Viable Product (MVP)."
    ++ newline ++ newline in
  writeFile mvpPath mvpContent ;;;
  if (0 <? length mvpStories)%nat then
    let usDir := path_join mvpDir "user-stories" in
    ensureDir usDir ;;;
    each_story mvpStories usDir
  else fret tt.

(** The body of the loop over the iterations. *)
Definition generateIteration (iteration : json) (iterationsDir : string)
  : F unit :=
  match iteration with
  | JNull => fthrow (cannot_read "null" "name")
  | _ =>
      iterationSlug <-- lift (createSlug (get iteration "name")) ;;
      let iterationDir := path_join iterationsDir iterationSlug in
      ensureDir iterationDir ;;;
      let iterationPath := path_join iterationDir "iteration.md" in
      name <-- lift (text (js_or (get iteration "name")
                                 (Some (JStr "Iteration")))) ;;
      let iterationContent :=
        aiAutomationInstructions ++ iterationFileInstructions
        ++ "# " ++ name ++ newline in
      iterationContent <--
        (if truthy_opt (get iteration "goal") then
           goal <-- lift (text (get iteration "goal")) ;;
           fret (iterationContent ++ newline ++ "## Goal: " ++ goal)
         else fret iterationContent) ;;
      writeFile iterationPath iterationContent ;;;
      match get iteration "stories" with
      | Some (JArr stories) =>
          if (0 <? length stories)%nat then
            let usDir := path_join iterationDir "user-stories" in
            ensureDir usDir ;;;
            each_story stories usDir
          else fret tt
      | _ => fret tt
      end
  end.

Fixpoint each_iteration (iterations : list json) (iterationsDir : string)
  : F unit :=
  match iterations with
  | [] => fret tt
  | iteration :: rest =>
      generateIteration iteration iterationsDir ;;;
      each_iteration rest iterationsDir
  end.

Definition generateIterationFiles (iterations : option json)
    (outputDir : string) : F unit :=
  match iterations with
  | Some (JArr l) =>
      if (0 <? length l)%nat then
        let iterationsDir := path_join outputDir "iterations" in
        ensureDir iterationsDir ;;;
        each_iteration l iterationsDir
      else fret tt
  | _ => fret tt
  end.

(** [error.message] read in a [catch]: of [undefined] or [null] the read
    throws. *)
Definition message_of (error : thrown) : option string + thrown :=
  match error with
  | ThrownUndefined => inr (cannot_read "undefined" "message")
  | ThrownNull => inr (cannot_read "null" "message")
  | ThrownValue m => inl m
  end.

Definition text_of_message (m : option string) : string :=
  match m with
  | Some s => s
  | None => "undefined"
  end.

Definition saveRawBacklog (backlog : json) (outputDir : string) : F string :=
  let jsonPath := path_join outputDir "backlog.json" in
  ftry
    (writeFile jsonPath (JSON_stringify backlog) ;;;
     stderr_write ("✓ Raw JSON file saved" ++ newline) ;;;
     fret jsonPath)
    (fun error =>
       m <-- lift (message_of error) ;;
       stderr_write ("[DEBUG] Error saving raw JSON file: "
                     ++ text_of_message m ++ newline) ;;;
       fthrow error).

(** The result of [validateBacklogResult]: valid, or invalid with the
    error it returns ([None] for an [undefined] error). The argument is
    [None] when it is missing or no object. *)
Definition validateBacklogResult (backlogResult : option envelope)
  : option (option error_info) :=
  match backlogResult with
  | None =>
      Some (Some {| err_message :=
                      "Argument backlogResult manquant ou invalide" |})
  | Some r => if negb (success r) then Some (error r) else None
  end.

Definition readme : string :=
  "# Agile Backlog" ++ newline ++ newline
  ++ "- [Epic](./epics/epic.md)" ++ newline
  ++ "- [MVP](./mvp/user-stories.md)" ++ newline
  ++ "- [Iterations](./iterations/)" ++ newline
  ++ "- [Raw Backlog](./backlog.json)" ++ newline.

(** The body of the [try] of [generateMarkdownFilesFromResult], on the
    [result] of the envelope. *)
Definition generate_try (backlog : option json) (outputDir : string)
  : F render_result :=
  ensureDir outputDir ;;;
  writeFile (path_join outputDir "README.md") readme ;;;
  match backlog with
  | None => fthrow (cannot_read "undefined" "epic")
  | Some JNull => fthrow (cannot_read "null" "epic")
  | Some backlog =>
      match epic_of_backlog backlog with
      | inr err =>
          fret {| rr_success := false;
                  rr_files := None;
                  rr_error := Some {| re_message := Some (err_message err);
                                      re_stack := None |} |}
      | inl epic =>
          epicsDir <-- generateEpicFiles epic outputDir ;;
          match get backlog "mvp" with
          | Some (JArr mvp) => generateMvpFiles mvp outputDir
          | _ => fret tt
          end ;;;
          generateIterationFiles (get backlog "iterations") outputDir ;;;
          saveRawBacklog backlog outputDir ;;;
          stderr_write
            ("✓ Markdown files generated avec structure organisée"
             ++ newline) ;;;
          fret {| rr_success := true;
                  rr_files := Some epicsDir;
                  rr_error := None |}
      end
  end.

(** [path.join(outputDir, segment)] on the argument of the generator,
    [process.cwd()] standing for a missing one. *)
Definition join_argument (outputDir : dir_arg) (segment : string)
  : string + thrown :=
  match outputDir with
  | DirUndefined => inl (path_join cwd segment)
  | DirString s => inl (path_join s segment)
  | DirOther received => inr (invalid_path received)
  end.

Definition generateMarkdownFilesFromResult
    (backlogResult : option envelope) (outputDir : dir_arg)
  : F render_result :=
  outputDir <-- lift (join_argument outputDir ".agile-planner-backlog") ;;
  match validateBacklogResult backlogResult with
  | Some None => fthrow (cannot_read "undefined" "message")
  | Some (Some err) =>
      stderr_write ("[ERROR] (markdown-generator) " ++ err_message err
                    ++ newline) ;;;
      fret {| rr_success := false;
              rr_files := None;
              rr_error := Some {| re_message := Some (err_message err);
                                  re_stack := None |} |}
  | None =>
      let backlog :=
        match backlogResult with
        | Some r => result r
        | None => None
        end in
      ftry (generate_try backlog outputDir)
        (fun error =>
           m <-- lift (message_of error) ;;
           stderr_write ("[DEBUG] Error generating Markdown files: "
                         ++ text_of_message m ++ newline) ;;;
           fret {| rr_success := false;
                   rr_files := None;
                   rr_error := Some {| re_message := m;
                                       re_stack := stack_of error |} |})
  end.

(** [saveRawBacklog] of the backlog generator: it makes the directory
    first. *)
Definition saveRawBacklog_generator (result : json) (outputDir : string)
  : F string :=
  ftry
    (ensureDir outputDir ;;;
     let jsonPath := path_join outputDir "backlog.json" in
     writeFile jsonPath (JSON_stringify result) ;;;
     fret jsonPath)
    (fun error => fthrow error).

(** The [dependencies] of a story do not stop [formatUserStory]: there
    are none; or they are an array of printable values, which [join]
    prints; or another value that is falsy or whose [length] is not
    above zero, which is skipped. *)
Definition dependencies_ok (story : json) : bool :=
  match get story "dependencies" with
  | Some (JArr l) => forallb printable l
  | Some (JStr s) => String.eqb s ""
  | Some (JObj fs) =>
      match lookup "length" fs with
      | Some v =>
          match positive v with
          | inl false => true
          | _ => false
          end
      | None => true
      end
  | _ => true
  end.

(** The [dependencies] of a story have a [length] above zero and no
    [join]: a string that is not empty, or an object with such a
    [length]. *)
Definition dependencies_lack_join (story : json) : bool :=
  match get story "dependencies" with
  | Some (JStr s) => negb (String.eqb s "")
  | Some (JObj fs) =>
      match lookup "length" fs with
      | Some v =>
          match positive v with
          | inl true => true
          | _ => false
          end
      | None => false
      end
  | _ => false
  end.

(** A run of [m] returns a value, whatever the world, and the
    operations it adds satisfy [Q]. *)
Definition returns {A : Type} (m : F A) (Q : A -> list fs_op -> Prop)
  : Prop :=
  forall w, exists a w' new,
    m w = (inl a, w') /\ ops w' = (ops w ++ new)%list /\ Q a new.

(** A run of [m] returns a value that satisfies [P] and writes [n]
    files, whatever the world. *)
Definition writes_exactly {A : Type} (m : F A) (P : A -> Prop) (n : nat)
  : Prop :=
  returns m (fun a new => P a /\ writes new = n).

(** No story of the backlog, in [mvp] or in an iteration, has
    [dependencies] that stop [formatUserStory]. *)
Definition backlog_renders (backlog : json) : bool :=
  forallb dependencies_ok (elements (get backlog "mvp"))
  && forallb
       (fun iteration =>
          forallb dependencies_ok (elements (get iteration "stories")))
       (elements (get backlog "iterations")).

(** A step throws nothing but errors with a message. *)
Definition throws_errors {A : Type} (r : A + thrown) : Prop :=
  forall t, r = inr t -> exists m, t = Error m.

(** A run of [m] throws [t], whatever the world. *)
Definition throws {A : Type} (m : F A) (t : thrown) : Prop :=
  forall w, exists w', m w = (inr t, w').

(** A run of [m] throws nothing but values with a readable [message]. *)
Definition throws_values {A : Type} (m : F A) : Prop :=
  forall w t w', m w = (inr t, w') -> exists msg, t = ThrownValue msg.

End Files.

Arguments fs_state {FsState} f.
Arguments ops {FsState} f.

(** A slug: letters [a-z], digits and single hyphens. [after_hyphen]
    tells that the character before was a hyphen. *)
Fixpoint slug_text (after_hyphen : bool) (s : string) : bool :=
  match s with
  | "" => true
  | String c rest =>
      if is_alnum c then slug_text false rest
      else Ascii.eqb c "-" && negb after_hyphen && slug_text true rest
  end.

(** The files of a story: its own and one for each task. *)
Definition story_files (story : json) : nat :=
  match get story "tasks" with
  | Some (JArr tasks) => 1 + length tasks
  | _ => 1
  end.

Definition stories_files (stories : option json) : nat :=
  match stories with
  | Some (JArr l) => list_sum (map story_files l)
  | _ => 0
  end.

(** The files of an iteration: its own and those of its stories. *)
Definition iteration_files (iteration : json) : nat :=
  1 + stories_files (get iteration "stories").

(** The files of a backlog: the README, the epic, the index of the MVP
    and the raw backlog, and those of the stories and iterations. *)
Definition backlog_files (backlog : json) : nat :=
  4 + stories_files (get backlog "mvp")
  + match get backlog "iterations" with
    | Some (JArr l) => list_sum (map iteration_files l)
    | _ => 0
    end.

(** A file system in memory that never fails: the files written, last
    first. *)
Module Disk.

Definition ensureDir (st : list (string * string)) (path : string)
  : (unit + thrown) * list (string * string) :=
  (inl tt, st).

Definition writeFile (st : list (string * string)) (path content : string)
  : (unit + thrown) * list (string * string) :=
  (inl tt, (path, content) :: st).

(** A file system whose every operation fails. *)
Definition failing_ensureDir (st : list (string * string)) (path : string)
  : (unit + thrown) * list (string * string) :=
  (inr (Error ("EACCES: permission denied, mkdir '" ++ path ++ "'")), st).

Definition failing_writeFile (st : list (string * string))
    (path content : string) : (unit + thrown) * list (string * string) :=
  (inr (Error ("EACCES: permission denied, open '" ++ path ++ "'")), st).

Definition join (a b : string) : string := a ++ "/" ++ b.

(** Stand-ins for the serializer and the conversions, for the runs
    below. *)
Definition stringify (d : json) : string := "{}".

Definition number (n : Z) : string :=
  NilZero.string_of_int (Z.to_int n).

Definition lower (s : string) : string := s.

(** No text of the runs below is a number. *)
Definition positive (s : string) : bool := false.

Definition stack (t : thrown) : option string := None.

Definition cwd : string := "/home/user/project".

Definition empty : fs_world (list (string * string)) :=
  {| fs_state := []; ops := [] |}.

Definition render (r : option envelope) (outputDir : dir_arg)
  : (render_result + thrown) * fs_world (list (string * string)) :=
  generateMarkdownFilesFromResult _ ensureDir writeFile join stringify
    number lower positive stack cwd r outputDir empty.

End Disk.

End Renderer.

(* ================================================================== *)
(** ** Sample runs of the generator and of the renderer *)

Module Samples.

(** The client throws at the first call; a conformant backlog would
    follow. *)
Definition hang_up_script : list (completion + thrown) :=
  [inr (Error "socket hang up"); Scenario.delivers "conformant"].

(** A schema failure first; then the client rejects with [undefined]; a
    conformant backlog would follow. *)
Definition undefined_script : list (completion + thrown) :=
  [Scenario.delivers "short_mvp"; inr ThrownUndefined;
   Scenario.delivers "conformant"].

(** A world for a counting client. *)
Definition counting (script : list (completion + thrown))
  : world (list (completion + thrown) * nat) :=
  {| client_state := (script, 0); calls := [] |}.

Definition run_counting (script : list (completion + thrown))
  : (generation_result + thrown)
    * world (list (completion + thrown) * nat) :=
  attemptBacklogGeneration _ (counted Scenario.scripted_create)
    Scenario.parse Scenario.a_client "gpt-4.1" Scenario.messages0
    createBacklogSchema (Ajv.compile createBacklogSchema)
    (counting script).

Definition succeeded (backlog : json) : envelope :=
  {| success := true; result := Some backlog; error := None |}.

Definition failed (m : string) : envelope :=
  {| success := false; result := None;
     error := Some {| err_message := m |} |}.

(** A story of the schema with [dependencies]. *)
Definition story_with (id : string) (dependencies : json) : json :=
  JObj [("id", JStr id);
        ("title", JStr "Sign in");
        ("description", JStr "As a user, I want to sign in");
        ("acceptance_criteria", JArr [JStr "form shown"; JStr "session made"]);
        ("tasks", JArr [JStr "session"; JStr "form"]);
        ("priority", JStr "LOW");
        ("dependencies", dependencies)].

(** A story of the schema whose [dependencies] are a string. *)
Definition story_depending_on (id dependencies : string) : json :=
  story_with id (JStr dependencies).

(** Dependencies that [join] cannot print: an array holding an object
    with a field [toString]. *)
Definition unprintable_dependencies : json :=
  JArr [JStr "US000"; JObj [("toString", JNum 1)]].

(** The fields of a backlog with a first story of the MVP. *)
Definition fields_with (first : json) : list (string * json) :=
  [("epic", Scenario.the_epic);
   ("mvp", JArr [first; Scenario.story "US002"; Scenario.story "US003"]);
   ("iterations",
     JArr [Scenario.iteration "Iteration 1" [Scenario.story "US004"];
           Scenario.iteration "Iteration 2" [Scenario.story "US005"]])].

Definition with_string_dependencies : json :=
  JObj (fields_with (story_depending_on "US001" "US000")).

Definition with_unprintable_dependencies : json :=
  JObj (fields_with (story_with "US001" unprintable_dependencies)).

(** A conformant backlog whose stories have dependencies that print. *)
Definition with_dependencies : json :=
  JObj (fields_with
          (story_with "US001" (JArr [JStr "US002"; JNull; JArr [JNum 3]]))).

(** A backlog without epic. *)
Definition without_epic : json := JObj [("mvp", JArr [])].

(** The renderer on a file system whose every operation fails. *)
Definition render_on_failing_disk (r : option envelope)
    (outputDir : Renderer.dir_arg)
  : (Renderer.render_result + thrown)
    * Renderer.fs_world (list (string * string)) :=
  Renderer.generateMarkdownFilesFromResult _ Renderer.Disk.failing_ensureDir
    Renderer.Disk.failing_writeFile Renderer.Disk.join
    Renderer.Disk.stringify Renderer.Disk.number Renderer.Disk.lower
    Renderer.Disk.positive Renderer.Disk.stack Renderer.Disk.cwd
    r outputDir Renderer.Disk.empty.

End Samples.

(* ================================================================== *)
(** ** Facts on lists and traces *)

Lemma cons_eq_app_cons {A : Type} (x c : A) (tr before rest : list A) :
  x :: tr = (before ++ c :: rest)%list ->
  (before = [] /\ c = x /\ rest = tr)
  \/ (exists before', before = x :: before' /\ tr = (before' ++ c :: rest)%list).
Proof.
  destruct before as [|b before']; simpl; intros Heq; inversion Heq; subst.
  - left. repeat split.
  - right. exists before'. split; reflexivity.
Qed.

Lemma nil_neq_app_cons {A : Type} (c : A) (before rest : list A) :
  [] <> (before ++ c :: rest)%list.
Proof. destruct before; discriminate. Qed.

Section LoopFacts.

Context {ClientState : Type}.
Variable chat_completions_create :
  ClientState -> request -> (completion + thrown) * ClientState.
Variable JSON_parse : string -> json + string.

Local Abbreviation callApi :=
  (callApiForBacklog ClientState chat_completions_create JSON_parse).
Local Abbreviation body :=
  (attempt_body ClientState chat_completions_create JSON_parse).
Local Abbreviation loop :=
  (attempt_loop ClientState chat_completions_create JSON_parse).
Local Abbreviation attempt :=
  (attemptBacklogGeneration ClientState chat_completions_create JSON_parse).

(** A call of the adapter appends exactly one record to the trace: the
    messages it was given and its outcome. *)
Lemma callApi_calls client model msgs sch (w : world ClientState) o w' :
  callApi client model msgs sch w = (o, w') ->
  calls w' = (calls w ++ [{| cr_messages := msgs; cr_outcome := o |}])%list.
Proof.
  unfold callApiForBacklog, record_call.
  destruct (try_catch _ _ _ w) as [o1 w1] eqn:Hrun.
  assert (Hsame : calls w1 = calls w).
  { unfold try_catch, callApi_try, bind, create in Hrun.
    destruct client as [| |s|c].
    - simpl in Hrun. inversion Hrun; reflexivity.
    - simpl in Hrun. inversion Hrun; reflexivity.
    - simpl in Hrun. inversion Hrun; reflexivity.
    - destruct (chat_completions_create (client_state w) _) as [r st].
      destruct r as [cmp|t].
      + destruct (choices cmp) as [[|ch chs]|];
          try (simpl in Hrun; unfold throw, ret in Hrun; simpl in Hrun;
               inversion Hrun; reflexivity).
        destruct (ch_message ch) as [m|];
          try (simpl in Hrun; unfold throw, ret in Hrun; simpl in Hrun;
               inversion Hrun; reflexivity).
        destruct (rm_function_call m) as [fc|];
          try (unfold ret in Hrun; inversion Hrun; reflexivity).
        destruct (JSON_parse (fc_arguments fc));
          unfold ret in Hrun; inversion Hrun; reflexivity.
      + destruct t as [| |[m|]]; simpl in Hrun; unfold throw, ret in Hrun;
          try (inversion Hrun; reflexivity).
        destruct (String.eqb m no_choice); inversion Hrun; reflexivity. }
  intros Heq. inversion Heq; subst. simpl. rewrite Hsame. reflexivity.
Qed.

(** The loop follows one of its traces. *)
Lemma attempt_loop_trace validate client model sch :
  forall n msgs last (w : world ClientState) res w',
    loop n client model msgs last sch validate w = (res, w') ->
    exists tr, calls w' = (calls w ++ tr)%list
               /\ loop_trace validate n msgs last tr res.
Proof.
  induction n as [|n IH]; intros msgs last w res w' Hrun.
  - simpl in Hrun. unfold ret in Hrun. inversion Hrun; subst.
    exists []. rewrite app_nil_r. split; [reflexivity | constructor].
  - simpl in Hrun. unfold bind, attempt_body in Hrun. unfold bind in Hrun.
    destruct (callApi client model msgs sch w) as [o w1] eqn:Hcall.
    pose proof (callApi_calls _ _ _ _ _ _ _ Hcall) as Hcalls.
    destruct o as [[err|data fc]|t].
    + unfold ret in Hrun.
      destruct (IH _ _ _ _ _ Hrun) as [tr [Htr Hloop]].
      exists ({| cr_messages := msgs; cr_outcome := inl (ApiInvalid err) |}
              :: tr).
      split.
      * rewrite Htr, Hcalls, <- app_assoc. reflexivity.
      * apply trace_invalid. exact Hloop.
    + unfold validateBacklog in Hrun.
      destruct (valid (validate data)) eqn:Hvalid; simpl in Hrun;
        unfold ret in Hrun.
      * inversion Hrun; subst.
        exists [{| cr_messages := msgs;
                   cr_outcome := inl (ApiValid data fc) |}].
        split; [exact Hcalls | apply trace_valid; exact Hvalid].
      * destruct (IH _ _ _ _ _ Hrun) as [tr [Htr Hloop]].
        exists ({| cr_messages := msgs;
                   cr_outcome := inl (ApiValid data fc) |} :: tr).
        split.
        -- rewrite Htr, Hcalls, <- app_assoc. reflexivity.
        -- apply trace_rejected; assumption.
    + inversion Hrun; subst.
      exists [{| cr_messages := msgs; cr_outcome := inr t |}].
      split; [exact Hcalls | apply trace_thrown].
Qed.

Lemma trace_head validate n msgs last c tr res :
  loop_trace validate n msgs last (c :: tr) res -> cr_messages c = msgs.
Proof. intros H. inversion H; subst; reflexivity. Qed.

Lemma trace_valid_is_last validate n msgs last tr res :
  loop_trace validate n msgs last tr res ->
  forall before c rest data fc,
    tr = (before ++ c :: rest)%list ->
    cr_outcome c = inl (ApiValid data fc) ->
    valid (validate data) = true ->
    rest = []
    /\ res = inl {| gr_success := true; gr_result := Some data;
                    gr_lastValidationErrors := None |}.
Proof.
  induction 1 as [msgs last | n msgs last t | n msgs last err tr res Hl IH
                 | n msgs last d f Hv | n msgs last d f tr res Hv Hl IH];
    intros before c rest data fc Heq Hout Hvalid.
  - exfalso. exact (nil_neq_app_cons _ _ _ Heq).
  - apply cons_eq_app_cons in Heq.
    destruct Heq as [[_ [Hc _]] | [b' [_ Hnil]]].
    + subst c. discriminate Hout.
    + exfalso. exact (nil_neq_app_cons _ _ _ Hnil).
  - apply cons_eq_app_cons in Heq.
    destruct Heq as [[_ [Hc _]] | [b' [_ Htr]]].
    + subst c. discriminate Hout.
    + exact (IH _ _ _ _ _ Htr Hout Hvalid).
  - apply cons_eq_app_cons in Heq.
    destruct Heq as [[_ [Hc Hrest]] | [b' [_ Hnil]]].
    + subst c. simpl in Hout. inversion Hout; subst. split; reflexivity.
    + exfalso. exact (nil_neq_app_cons _ _ _ Hnil).
  - apply cons_eq_app_cons in Heq.
    destruct Heq as [[_ [Hc _]] | [b' [_ Htr]]].
    + subst c. simpl in Hout. inversion Hout; subst. congruence.
    + exact (IH _ _ _ _ _ Htr Hout Hvalid).
Qed.

Lemma trace_bounded validate n msgs last tr res :
  loop_trace validate n msgs last tr res ->
  length tr <= n
  /\ (forallb (attempt_failed validate) tr = true ->
      length tr = n
      /\ res = inl {| gr_success := false; gr_result := None;
                      gr_lastValidationErrors :=
                        last_known_failure validate tr last |}).
Proof.
  induction 1 as [msgs last | n msgs last t | n msgs last err tr res Hl IH
                 | n msgs last d f Hv | n msgs last d f tr res Hv Hl IH].
  - split; [apply le_n | intros _; split; reflexivity].
  - split; [simpl; lia | simpl; discriminate].
  - destruct IH as [Hlen Hall]. split; [simpl; lia |].
    simpl. intros Hf. destruct (Hall Hf) as [Hn Hres].
    split; [lia | exact Hres].
  - split; [simpl; lia |].
    unfold attempt_failed. simpl. rewrite Hv. discriminate.
  - destruct IH as [Hlen Hall]. split; [simpl; lia |].
    unfold attempt_failed at 1. simpl. rewrite Hv. simpl.
    intros Hf. destruct (Hall Hf) as [Hn Hres].
    split; [lia | exact Hres].
Qed.

Lemma trace_after_rejected validate n msgs last tr res :
  loop_trace validate n msgs last tr res ->
  forall before c1 c2 rest data fc,
    tr = (before ++ c1 :: c2 :: rest)%list ->
    cr_outcome c1 = inl (ApiValid data fc) ->
    valid (validate data) = false ->
    cr_messages c2
    = (cr_messages c1
       ++ [assistant_turn fc;
           corrective_turn (violations_text (errors (validate data)))])%list.
Proof.
  induction 1 as [msgs last | n msgs last t | n msgs last err tr res Hl IH
                 | n msgs last d f Hv | n msgs last d f tr res Hv Hl IH];
    intros before c1 c2 rest data fc Heq Hout Hvalid.
  - exfalso. exact (nil_neq_app_cons _ _ _ Heq).
  - apply cons_eq_app_cons in Heq.
    destruct Heq as [[_ [_ Hrest]] | [b' [_ Hnil]]].
    + discriminate Hrest.
    + exfalso. exact (nil_neq_app_cons _ _ _ Hnil).
  - apply cons_eq_app_cons in Heq.
    destruct Heq as [[_ [Hc _]] | [b' [_ Htr]]].
    + subst c1. discriminate Hout.
    + exact (IH _ _ _ _ _ _ Htr Hout Hvalid).
  - apply cons_eq_app_cons in Heq.
    destruct Heq as [[_ [_ Hrest]] | [b' [_ Hnil]]].
    + discriminate Hrest.
    + exfalso. exact (nil_neq_app_cons _ _ _ Hnil).
  - apply cons_eq_app_cons in Heq.
    destruct Heq as [[_ [Hc Hrest]] | [b' [_ Htr]]].
    + subst c1 tr. simpl in Hout. inversion Hout; subst.
      apply (trace_head _ _ _ _ _ _ _ Hl).
    + exact (IH _ _ _ _ _ _ Htr Hout Hvalid).
Qed.

Lemma trace_after_invalid validate n msgs last tr res :
  loop_trace validate n msgs last tr res ->
  forall before c rest err,
    tr = (before ++ c :: rest)%list ->
    cr_outcome c = inl (ApiInvalid err) ->
    match rest with
    | c2 :: _ => cr_messages c2 = cr_messages c
    | [] =>
        res = inl {| gr_success := false; gr_result := None;
                     gr_lastValidationErrors :=
                       Some [{| instancePath := None; message := err |}] |}
    end.
Proof.
  induction 1 as [msgs last | n msgs last t | n msgs last e tr res Hl IH
                 | n msgs last d f Hv | n msgs last d f tr res Hv Hl IH];
    intros before c rest err Heq Hout.
  - exfalso. exact (nil_neq_app_cons _ _ _ Heq).
  - apply cons_eq_app_cons in Heq.
    destruct Heq as [[_ [Hc _]] | [b' [_ Hnil]]].
    + subst c. discriminate Hout.
    + exfalso. exact (nil_neq_app_cons _ _ _ Hnil).
  - apply cons_eq_app_cons in Heq.
    destruct Heq as [[_ [Hc Hrest]] | [b' [_ Htr]]].
    + subst c rest. simpl in Hout. inversion Hout; subst.
      destruct tr as [|c2 tr'].
      * inversion Hl; subst. reflexivity.
      * apply (trace_head _ _ _ _ _ _ _ Hl).
    + exact (IH _ _ _ _ Htr Hout).
  - apply cons_eq_app_cons in Heq.
    destruct Heq as [[_ [Hc _]] | [b' [_ Hnil]]].
    + subst c. discriminate Hout.
    + exfalso. exact (nil_neq_app_cons _ _ _ Hnil).
  - apply cons_eq_app_cons in Heq.
    destruct Heq as [[_ [Hc _]] | [b' [_ Htr]]].
    + subst c. discriminate Hout.
    + exact (IH _ _ _ _ Htr Hout).
Qed.

Lemma trace_success_has_result validate n msgs last tr res :
  loop_trace validate n msgs last tr res ->
  forall r, res = inl r ->
    if gr_success r then exists data, gr_result r = Some data
                                      /\ valid (validate data) = true
    else gr_result r = None.
Proof.
  induction 1 as [msgs last | n msgs last t | n msgs last err tr res Hl IH
                 | n msgs last d f Hv | n msgs last d f tr res Hv Hl IH];
    intros r Hr.
  - inversion Hr; subst. reflexivity.
  - discriminate Hr.
  - exact (IH r Hr).
  - inversion Hr; subst. simpl. exists d. split; [reflexivity | exact Hv].
  - exact (IH r Hr).
Qed.

(** C1. Whenever an attempt of [attemptBacklogGeneration] gets a valid
    adapter result whose data passes the validator, that call is the last
    adapter call of the run and the loop returns success with that data
    and [lastValidationErrors: null]. *)
Theorem first_valid_attempt_stops_loop :
  forall validate client model msgs sch (w : world ClientState) res w'
         before c rest data fc,
    attempt client model msgs sch validate w = (res, w') ->
    calls w' = (calls w ++ before ++ c :: rest)%list ->
    cr_outcome c = inl (ApiValid data fc) ->
    valid (validate data) = true ->
    rest = []
    /\ res = inl {| gr_success := true; gr_result := Some data;
                    gr_lastValidationErrors := None |}.
Proof.
  intros validate client model msgs sch w res w' before c rest data fc
         Hrun Hcalls Hout Hvalid.
  destruct (attempt_loop_trace _ _ _ _ _ _ _ _ _ _ Hrun) as [tr [Htr Hl]].
  rewrite Htr in Hcalls. apply app_inv_head in Hcalls.
  exact (trace_valid_is_last _ _ _ _ _ _ Hl _ _ _ _ _ Hcalls Hout Hvalid).
Qed.

(** C2. A run of [attemptBacklogGeneration] calls the adapter at most 3
    times; when every attempt made failed (the adapter returned
    [valid: false] or the data was rejected by the validator) it calls it
    exactly 3 times and returns [success: false] with the failure of the
    last attempt. *)
Theorem at_most_three_attempts :
  forall validate client model msgs sch (w : world ClientState) res w',
    attempt client model msgs sch validate w = (res, w') ->
    exists tr,
      calls w' = (calls w ++ tr)%list
      /\ length tr <= 3
      /\ (forallb (attempt_failed validate) tr = true ->
          length tr = 3
          /\ res = inl {| gr_success := false; gr_result := None;
                          gr_lastValidationErrors :=
                            last_known_failure validate tr None |}).
Proof.
  intros validate client model msgs sch w res w' Hrun.
  destruct (attempt_loop_trace _ _ _ _ _ _ _ _ _ _ Hrun) as [tr [Htr Hl]].
  exists tr. split; [exact Htr |].
  exact (trace_bounded _ _ _ _ _ _ Hl).
Qed.

(** [Array.prototype.join] as the model has it is the concatenation
    with a separator. *)
Lemma join_concat sep l : join sep l = String.concat sep l.
Proof.
  induction l as [|x l IH]; [reflexivity |].
  destruct l as [|y l]; [reflexivity |].
  change (join sep (x :: y :: l)) with (x ++ sep ++ join sep (y :: l)).
  rewrite IH. reflexivity.
Qed.

(** The text [validateBacklog] builds, spelled out: each violation as
    its instance path, a space and its message, the violations separated
    by a semicolon and a space. *)
Lemma violations_text_spelled_out errs :
  violations_text errs
  = String.concat "; "
      (map (fun e =>
              match instancePath e with
              | Some p => p
              | None => "undefined"
              end ++ " " ++ message e) errs).
Proof. unfold violations_text. rewrite join_concat. reflexivity. Qed.

(** C3. When an attempt's adapter result parses but the validator rejects
    the data, the message sequence given to the next adapter call is the
    sequence of that attempt followed by exactly two turns: the assistant
    turn echoing the function call, and the system turn whose text embeds
    the violations, each as its instance path, a space and its message,
    separated by a semicolon and a space. A violation without instance
    path, which the validator never produces, would print [undefined]
    for it. *)
Theorem schema_failure_appends_two_turns :
  forall validate client model msgs sch (w : world ClientState) res w'
         before c1 c2 rest data fc,
    attempt client model msgs sch validate w = (res, w') ->
    calls w' = (calls w ++ before ++ c1 :: c2 :: rest)%list ->
    cr_outcome c1 = inl (ApiValid data fc) ->
    valid (validate data) = false ->
    cr_messages c2
    = (cr_messages c1
       ++ [ {| role := "assistant"; content := None;
               msg_function_call := Some fc |};
            {| role := "system";
               content := Some
                 ("La réponse JSON n'est pas valide : "
                  ++ String.concat "; "
                       (map (fun e =>
                               match instancePath e with
                               | Some p => p
                               | None => "undefined"
                               end ++ " " ++ message e)
                            (errors (validate data)))
                  ++ ". Merci de ne renvoyer que le JSON conforme via deliver_backlog.")%string;
               msg_function_call := None |} ])%list.
Proof.
  intros validate client model msgs sch w res w' before c1 c2 rest data fc
         Hrun Hcalls Hout Hvalid.
  destruct (attempt_loop_trace _ _ _ _ _ _ _ _ _ _ Hrun) as [tr [Htr Hl]].
  rewrite Htr in Hcalls. apply app_inv_head in Hcalls.
  rewrite (trace_after_rejected _ _ _ _ _ _ Hl _ _ _ _ _ _
             Hcalls Hout Hvalid).
  unfold assistant_turn, corrective_turn.
  rewrite violations_text_spelled_out. reflexivity.
Qed.

(** C4. When the adapter returns [valid: false], the iteration leaves the
    message array as it was and sets [lastValidationErrors] to the one
    error object carrying the adapter's error; in a run, the next adapter
    call gets the same message sequence, and when there is no next call
    the loop returns that error as its last-known failure. *)
Theorem transport_failure_keeps_messages :
  forall validate client model sch,
    (forall msgs (w : world ClientState) err w1,
        callApi client model msgs sch w = (inl (ApiInvalid err), w1) ->
        body client model msgs sch validate w
        = (inl (Continue msgs
                  (Some [{| instancePath := None; message := err |}])), w1))
    /\ (forall msgs (w : world ClientState) res w' before c rest err,
           attempt client model msgs sch validate w = (res, w') ->
           calls w' = (calls w ++ before ++ c :: rest)%list ->
           cr_outcome c = inl (ApiInvalid err) ->
           match rest with
           | c2 :: _ => cr_messages c2 = cr_messages c
           | [] =>
               res = inl {| gr_success := false; gr_result := None;
                            gr_lastValidationErrors :=
                              Some [{| instancePath := None;
                                       message := err |}] |}
           end).
Proof.
  intros validate client model sch. split.
  - intros msgs w err w1 Hcall.
    unfold attempt_body, bind. rewrite Hcall. reflexivity.
  - intros msgs w res w' before c rest err Hrun Hcalls Hout.
    destruct (attempt_loop_trace _ _ _ _ _ _ _ _ _ _ Hrun) as [tr [Htr Hl]].
    rewrite Htr in Hcalls. apply app_inv_head in Hcalls.
    exact (trace_after_invalid _ _ _ _ _ _ Hl _ _ _ _ Hcalls Hout).
Qed.

End LoopFacts.

(* ================================================================== *)
(** ** The result envelope *)

Section EnvelopeFacts.

Context {ClientState : Type}.
Variable chat_completions_create :
  ClientState -> request -> (completion + thrown) * ClientState.
Variable JSON_parse : string -> json + string.

Local Abbreviation attempt :=
  (attemptBacklogGeneration ClientState chat_completions_create JSON_parse).
Local Abbreviation process_try :=
  (processBacklog_try ClientState chat_completions_create JSON_parse).
Local Abbreviation generate :=
  (generateBacklog ClientState chat_completions_create JSON_parse).

Lemma failure_wf m : envelope_wf (failure m).
Proof. unfold envelope_wf, failure; simpl. split; [eauto | reflexivity]. Qed.

(** The try block of [processBacklog] returns well-formed envelopes. *)
Lemma process_try_wf name desc client (w : world ClientState) e w' :
  process_try name desc client w = (inl e, w') -> envelope_wf e.
Proof.
  unfold processBacklog_try.
  destruct (processBacklogParams name desc client) as [err|project client'].
  - unfold ret. intros H; inversion H; subst. apply failure_wf.
  - unfold bind.
    destruct (attempt client' _ _ _ _ w) as [[r|t] w1] eqn:Hrun;
      [|discriminate].
    unfold attemptBacklogGeneration in Hrun.
    destruct (attempt_loop_trace _ _ _ _ _ _ _ _ _ _ _ _ Hrun)
      as [tr [_ Hl]].
    pose proof (trace_success_has_result _ _ _ _ _ _ Hl r eq_refl) as Hres.
    destruct (gr_success r); unfold ret; intros H; inversion H; subst.
    + destruct Hres as [data [Hdata _]].
      unfold envelope_wf; simpl. rewrite Hdata.
      split; [discriminate | reflexivity].
    + apply failure_wf.
Qed.

(** C8. Every call of [generateBacklog] resolves with an envelope filled
    on one side only: with [success] true, [result] is present and
    [error] absent; with [success] false, [error] is present with its
    message and [result] absent. *)
Theorem envelope_never_partially_filled :
  forall name desc client (w : world ClientState),
    match fst (generate name desc client w) with
    | Resolved e =>
        if success e then result e <> None /\ error e = None
        else (exists m, error e = Some {| err_message := m |})
             /\ result e = None
    | Rejected _ => False
    end.
Proof.
  intros name desc client w.
  unfold generateBacklog, processBacklog, try_catch.
  destruct (process_try name desc client w) as [[e|t] w1] eqn:Htry.
  - simpl. exact (process_try_wf _ _ _ _ _ _ Htry).
  - unfold ret. simpl. split; [eauto | reflexivity].
Qed.

End EnvelopeFacts.

(* ================================================================== *)
(** ** The backlog schema: what the validator accepts *)


(** Induction on schemas, through [properties] and [items]. *)
Lemma schema_ind' (P : schema -> Prop)
  (H : forall ty req props minI maxI itm pat enu rf,
      match props with
      | Some ps => Forall (fun ks : string * schema => P (snd ks)) ps
      | None => True
      end ->
      match itm with
      | Some si => P si
      | None => True
      end ->
      P (Schema ty req props minI maxI itm pat enu rf)) :
  forall s, P s.
Proof.
  exact
    (fix go (s : schema) : P s :=
       match s with
       | Schema ty req props minI maxI itm pat enu rf =>
           H ty req props minI maxI itm pat enu rf
             (match props as o
                    return match o with
                           | Some ps =>
                               Forall
                                 (fun ks : string * schema => P (snd ks)) ps
                           | None => True
                           end
              with
              | Some ps =>
                  (fix all (ps : list (string * schema))
                     : Forall (fun ks : string * schema => P (snd ks)) ps :=
                     match ps with
                     | [] => Forall_nil _
                     | (k, sk) :: ps' =>
                         Forall_cons (k, sk) (go sk) (all ps')
                     end) ps
              | None => I
              end)
             (match itm as o
                    return match o with Some si => P si | None => True end
              with
              | Some si => go si
              | None => I
              end)
       end).
Qed.

Lemma extendsb_obj_cons k v fa fb :
  extendsb (JObj ((k, v) :: fa)) (JObj fb)
  = (match lookup k fb with
     | Some v' => extendsb v v'
     | None => false
     end && extendsb (JObj fa) (JObj fb))%bool.
Proof. reflexivity. Qed.

Lemma extendsb_arr_cons x la y lb :
  extendsb (JArr (x :: la)) (JArr (y :: lb))
  = (extendsb x y && extendsb (JArr la) (JArr lb))%bool.
Proof. reflexivity. Qed.

Lemma extendsb_lookup fa fb k v :
  extendsb (JObj fa) (JObj fb) = true ->
  lookup k fa = Some v ->
  exists v', lookup k fb = Some v' /\ extendsb v v' = true.
Proof.
  induction fa as [|[k0 v0] fa IH]; intros Hext Hk; [discriminate Hk|].
  rewrite extendsb_obj_cons in Hext. apply andb_prop in Hext.
  destruct Hext as [H0 Hrest]. simpl in Hk.
  destruct (String.eqb k k0) eqn:Hkk.
  - apply String.eqb_eq in Hkk. subst k0. inversion Hk; subst.
    destruct (lookup k fb) as [v'|]; [|discriminate H0]. eauto.
  - exact (IH Hrest Hk).
Qed.

Lemma extendsb_atom d d' :
  extendsb d d' = true -> is_atom d = true -> d' = d.
Proof.
  destruct d, d'; simpl; try discriminate; intros H _.
  - reflexivity.
  - apply Bool.eqb_prop in H. congruence.
  - apply Z.eqb_eq in H. congruence.
  - apply String.eqb_eq in H. congruence.
Qed.

Lemma extendsb_has_type t d d' :
  extendsb d d' = true -> has_type t d' = has_type t d.
Proof. destruct d, d'; simpl; try discriminate; reflexivity. Qed.

Lemma json_equal_atom d v :
  json_equal d v = true -> is_atom v = true -> is_atom d = true.
Proof. destruct d, v; simpl; try discriminate; reflexivity. Qed.

Lemma enum_extends d d' vs :
  extendsb d d' = true ->
  forallb is_atom vs = true ->
  existsb (json_equal d) vs = true ->
  existsb (json_equal d') vs = true.
Proof.
  intros Hext Hatoms Hex.
  apply existsb_exists in Hex. destruct Hex as [v [Hin Heq]].
  rewrite forallb_forall in Hatoms.
  pose proof (json_equal_atom _ _ Heq (Hatoms v Hin)) as Hd.
  rewrite (extendsb_atom _ _ Hext Hd).
  apply existsb_exists. eauto.
Qed.

Lemma items_extend (h : nat -> json -> list error_object) :
  forall la lb i,
    extendsb (JArr la) (JArr lb) = true ->
    (forall j d d', extendsb d d' = true -> h j d = [] -> h j d' = []) ->
    flat_map (fun ie : nat * json => h (fst ie) (snd ie))
      (combine (seq i (length la)) la) = [] ->
    length lb = length la
    /\ flat_map (fun ie : nat * json => h (fst ie) (snd ie))
         (combine (seq i (length lb)) lb) = [].
Proof.
  induction la as [|x la IH]; intros lb i Hext Hh Hnil.
  - destruct lb; [split; reflexivity | discriminate Hext].
  - destruct lb as [|y lb]; [discriminate Hext|].
    rewrite extendsb_arr_cons in Hext. apply andb_prop in Hext.
    destruct Hext as [Hxy Hrest].
    simpl in Hnil. apply app_eq_nil in Hnil. destruct Hnil as [Hx Hl].
    destruct (IH lb (S i) Hrest Hh Hl) as [Hlen Hflat].
    split; [simpl; congruence|].
    simpl. rewrite (Hh _ _ _ Hxy Hx). exact Hflat.
Qed.

Lemma extendsb_length la lb :
  extendsb (JArr la) (JArr lb) = true -> length lb = length la.
Proof.
  revert lb. induction la as [|x la IH]; intros [|y lb] H;
    try discriminate H; [reflexivity|].
  rewrite extendsb_arr_cons in H. apply andb_prop in H.
  simpl. f_equal. apply IH. tauto.
Qed.

Lemma flat_map_nil_iff {A B : Type} (g : A -> list B) (l : list A) :
  flat_map g l = [] <-> forall x, In x l -> g x = [].
Proof.
  induction l as [|a l IH]; simpl.
  - split; [intros _ x [] | reflexivity].
  - split.
    + intros H. apply app_eq_nil in H. destruct H as [Ha Hl].
      intros x [Hx|Hx]; [subst; exact Ha | apply IH; assumption].
    + intros H. rewrite (H a (or_introl eq_refl)).
      apply IH. intros x Hx. apply H. right. exact Hx.
Qed.

Lemma app_nil_both {A : Type} (a b : list A) :
  a = [] /\ b = [] -> (a ++ b)%list = [].
Proof. intros [-> ->]. reflexivity. Qed.

(** Validation against a closed schema survives added fields. *)
Lemma validate_extends (f : string -> string -> json -> list error_object) :
  (forall r p d d', extendsb d d' = true -> f r p d = [] -> f r p d' = []) ->
  forall s, closedb s = true ->
    forall p d d', extendsb d d' = true ->
      validate f s p d = [] -> validate f s p d' = [].
Proof.
  intros Hf.
  induction s as [ty req props minI maxI itm pat enu rf IHprops IHitm]
    using schema_ind'.
  intros Hclosed p d d' Hext Hnil.
  cbn [closedb] in Hclosed.
  apply andb_prop in Hclosed. destruct Hclosed as [Hclosed Henum].
  apply andb_prop in Hclosed. destruct Hclosed as [Hprops Hitm].
  cbn [validate] in Hnil |- *.
  apply app_eq_nil in Hnil. destruct Hnil as [Hup Hnil].
  apply app_eq_nil in Hnil. destruct Hnil as [Href Hnil].
  apply app_eq_nil in Hnil. destruct Hnil as [Hen Hnil].
  apply app_eq_nil in Hnil. destruct Hnil as [Hstr Hnil].
  apply app_eq_nil in Hnil. destruct Hnil as [Harr Hobj].
  repeat (apply app_nil_both; split).
  - destruct ty as [t|]; [|reflexivity].
    rewrite (extendsb_has_type _ _ _ Hext). exact Hup.
  - destruct rf as [r|]; [exact (Hf _ _ _ _ Hext Href) | reflexivity].
  - destruct enu as [vs|]; [|reflexivity].
    destruct (existsb (json_equal d) vs) eqn:E; [|discriminate Hen].
    rewrite (enum_extends _ _ _ Hext Henum E). reflexivity.
  - destruct (is_some pat); [|reflexivity].
    destruct d, d'; try discriminate Hext; try exact Hstr.
    simpl in Hext. apply String.eqb_eq in Hext. subst. exact Hstr.
  - destruct (is_some minI || is_some maxI || is_some itm)%bool;
      [|reflexivity].
    destruct d as [| | | |l|], d' as [| | | |l'|];
      try discriminate Hext; try exact Harr.
    apply app_eq_nil in Harr. destruct Harr as [Hmax Harr].
    apply app_eq_nil in Harr. destruct Harr as [Hmin Hitems].
    rewrite (extendsb_length _ _ Hext).
    repeat (apply app_nil_both; split); [exact Hmax | exact Hmin |].
    destruct itm as [si|]; [|reflexivity].
    rewrite <- (extendsb_length _ _ Hext).
    apply (items_extend
             (fun j e => validate f si (p ++ "/" ++ string_of_nat j) e)
             l l' 0 Hext).
    + intros j e e' He Hv. exact (IHitm Hitm _ _ _ He Hv).
    + exact Hitems.
  - destruct (is_some req || is_some props)%bool; [|reflexivity].
    destruct d as [| | | | |fs], d' as [| | | | |fs'];
      try discriminate Hext; try exact Hobj.
    apply app_eq_nil in Hobj. destruct Hobj as [Hreq Hps].
    assert (Hrequired :
              forall k, In k (match req with Some ks => ks | None => [] end) ->
                        exists v, lookup k fs = Some v).
    { intros k Hk. destruct req as [ks|]; [|destruct Hk].
      rewrite flat_map_nil_iff in Hreq. specialize (Hreq k Hk).
      destruct (lookup k fs) as [v|]; [eauto | discriminate Hreq]. }
    apply app_nil_both; split.
    + destruct req as [ks|]; [|reflexivity].
      apply flat_map_nil_iff. intros k Hk.
      destruct (Hrequired k Hk) as [v Hv].
      destruct (extendsb_lookup _ _ _ _ Hext Hv) as [v' [Hv' _]].
      rewrite Hv'. reflexivity.
    + destruct props as [ps|]; [|reflexivity].
      apply flat_map_nil_iff. intros [k sk] Hin. cbn [fst snd].
      rewrite forallb_forall in Hprops. specialize (Hprops _ Hin).
      cbn [fst snd] in Hprops. apply andb_prop in Hprops.
      destruct Hprops as [Hk Hsk].
      apply existsb_exists in Hk. destruct Hk as [k' [Hk' Heq]].
      apply String.eqb_eq in Heq. subst k'.
      destruct (Hrequired k Hk') as [v Hv].
      destruct (extendsb_lookup _ _ _ _ Hext Hv) as [v' [Hv' Hvv']].
      rewrite Hv'.
      rewrite flat_map_nil_iff in Hps. specialize (Hps _ Hin).
      cbn [fst snd] in Hps. rewrite Hv in Hps.
      rewrite Forall_forall in IHprops.
      exact (IHprops _ Hin Hsk _ _ _ Hvv' Hps).
Qed.

(** Whether a value has violations does not depend on the path it is
    reported at. *)
Lemma validate_nil_any_path
    (f : string -> string -> json -> list error_object) :
  (forall r p p' d, f r p d = [] -> f r p' d = []) ->
  forall s p p' d, validate f s p d = [] -> validate f s p' d = [].
Proof.
  intros Hf.
  induction s as [ty req props minI maxI itm pat enu rf IHprops IHitm]
    using schema_ind'.
  intros p p' d Hnil.
  cbn [validate] in Hnil |- *.
  apply app_eq_nil in Hnil. destruct Hnil as [Hup Hnil].
  apply app_eq_nil in Hnil. destruct Hnil as [Href Hnil].
  apply app_eq_nil in Hnil. destruct Hnil as [Hen Hnil].
  apply app_eq_nil in Hnil. destruct Hnil as [Hstr Hnil].
  apply app_eq_nil in Hnil. destruct Hnil as [Harr Hobj].
  repeat (apply app_nil_both; split).
  - destruct ty as [t|]; [|reflexivity].
    destruct (negb _ && negb _)%bool; [discriminate Hup | reflexivity].
  - destruct rf as [r|]; [exact (Hf _ _ _ _ Href) | reflexivity].
  - destruct enu as [vs|]; [|reflexivity].
    destruct (existsb (json_equal d) vs); [reflexivity | discriminate Hen].
  - destruct (is_some pat); [|reflexivity].
    destruct d; destruct ty as [t|]; try reflexivity;
      try (destruct (String.eqb t "string");
           [discriminate Hstr | reflexivity]);
      destruct pat as [pt|]; try reflexivity;
      (destruct (RegExp.compile pt) as [r|]; [|discriminate Hstr]);
      (destruct (RegExp.test r s); [reflexivity | discriminate Hstr]).
  - destruct (is_some minI || is_some maxI || is_some itm)%bool;
      [|reflexivity].
    destruct d as [| | | |l|]; destruct ty as [t|]; try reflexivity;
      try (destruct (String.eqb t "array");
           [discriminate Harr | reflexivity]);
      (apply app_eq_nil in Harr; destruct Harr as [Hmax Harr];
       apply app_eq_nil in Harr; destruct Harr as [Hmin Hitems];
       repeat (apply app_nil_both; split);
       [ destruct maxI as [n|]; [|reflexivity];
         destruct (n <? length l)%nat; [discriminate Hmax | reflexivity]
       | destruct minI as [n|]; [|reflexivity];
         destruct (length l <? n)%nat; [discriminate Hmin | reflexivity]
       | destruct itm as [si|]; [|reflexivity];
         rewrite flat_map_nil_iff in Hitems |- *;
         intros ie Hin; exact (IHitm _ _ _ (Hitems ie Hin)) ]).
  - destruct (is_some req || is_some props)%bool; [|reflexivity].
    destruct d as [| | | | |fs]; destruct ty as [t|]; try reflexivity;
      try (destruct (String.eqb t "object");
           [discriminate Hobj | reflexivity]);
      (apply app_eq_nil in Hobj; destruct Hobj as [Hreq Hps];
       apply app_nil_both; split;
       [ destruct req as [ks|]; [|reflexivity];
         rewrite flat_map_nil_iff in Hreq |- *;
         intros k Hk; specialize (Hreq k Hk);
         destruct (lookup k fs); [reflexivity | discriminate Hreq]
       | destruct props as [ps|]; [|reflexivity];
         rewrite flat_map_nil_iff in Hps |- *;
         intros ks Hin; specialize (Hps ks Hin);
         rewrite Forall_forall in IHprops;
         destruct (lookup (fst ks) fs) as [v|]; [|reflexivity];
         exact (IHprops ks Hin _ _ _ Hps) ]).
Qed.

Lemma validate_refs_nil_any_path root :
  forall n r p p' d,
    validate_refs n root r p d = [] -> validate_refs n root r p' d = [].
Proof.
  induction n as [|n IH]; intros r p p' d Hnil.
  - discriminate Hnil.
  - simpl in Hnil |- *.
    destruct (resolve root r) as [s|]; [|discriminate Hnil].
    exact (validate_nil_any_path _ IH s _ _ _ Hnil).
Qed.

Lemma closedb_items s si :
  closedb s = true -> s_items s = Some si -> closedb si = true.
Proof.
  destruct s as [ty req props minI maxI itm pat enu rf]. cbn [closedb s_items].
  intros H Hitm. subst itm.
  apply andb_prop in H. destruct H as [H _].
  apply andb_prop in H. tauto.
Qed.

Lemma closedb_property s ps k sk :
  closedb s = true -> s_properties s = Some ps ->
  find_property k ps = Some sk -> closedb sk = true.
Proof.
  destruct s as [ty req props minI maxI itm pat enu rf].
  cbn [closedb s_properties]. intros H Hps Hfind. subst props.
  apply andb_prop in H. destruct H as [H _].
  apply andb_prop in H. destruct H as [H _].
  rewrite forallb_forall in H.
  assert (Hin : In (k, sk) ps).
  { clear H. induction ps as [|[k0 s0] ps IH]; [discriminate Hfind|].
    simpl in Hfind. destruct (String.eqb k k0) eqn:Hk.
    - apply String.eqb_eq in Hk. inversion Hfind; subst. left. reflexivity.
    - right. exact (IH Hfind). }
  specialize (H _ Hin). apply andb_prop in H. tauto.
Qed.

Lemma navigate_closed :
  forall n segs s s',
    length segs <= n -> closedb s = true ->
    navigate segs s = Some s' -> closedb s' = true.
Proof.
  induction n as [|n IH]; intros segs s s' Hlen Hs Hnav.
  - destruct segs; [|simpl in Hlen; lia].
    simpl in Hnav. inversion Hnav; subst. exact Hs.
  - destruct segs as [|seg rest].
    + simpl in Hnav. inversion Hnav; subst. exact Hs.
    + simpl in Hnav, Hlen.
      destruct (String.eqb seg "items").
      * destruct (s_items s) as [si|] eqn:Hsi; [|discriminate Hnav].
        apply (IH rest si s'); [lia | | exact Hnav].
        exact (closedb_items _ _ Hs Hsi).
      * destruct (String.eqb seg "properties"); [|discriminate Hnav].
        destruct rest as [|k rest']; [discriminate Hnav|].
        destruct (s_properties s) as [ps|] eqn:Hps; [|discriminate Hnav].
        destruct (find_property k ps) as [sk|] eqn:Hk; [|discriminate Hnav].
        apply (IH rest' sk s'); [simpl in Hlen; lia | | exact Hnav].
        exact (closedb_property _ _ _ _ Hs Hps Hk).
Qed.

Lemma resolve_closed root r s :
  closedb root = true -> resolve root r = Some s -> closedb s = true.
Proof.
  unfold resolve. intros Hroot Hres.
  destruct (split_slash "" r) as [|hash segs]; [discriminate Hres|].
  destruct (String.eqb hash "#"); [|discriminate Hres].
  exact (navigate_closed (length segs) segs root s (le_n _) Hroot Hres).
Qed.

Lemma validate_refs_extends root :
  closedb root = true ->
  forall n r p d d',
    extendsb d d' = true ->
    validate_refs n root r p d = [] -> validate_refs n root r p d' = [].
Proof.
  intros Hroot. induction n as [|n IH]; intros r p d d' Hext Hnil.
  - discriminate Hnil.
  - simpl in Hnil |- *.
    destruct (resolve root r) as [s|] eqn:Hres; [|discriminate Hnil].
    exact (validate_extends _ IH s (resolve_closed _ _ _ Hroot Hres)
             _ _ _ Hext Hnil).
Qed.

Lemma is_nil_true {A : Type} (l : list A) : is_nil l = true <-> l = [].
Proof. destruct l; simpl; split; intros H; congruence. Qed.

(** C10. The backlog schema restricts no additional property: a backlog
    accepted by the compiled validator is still accepted after fields are
    added to it, at its root, in its epic, in any story, in any iteration
    or in any other object nested in it. *)
Theorem extra_fields_are_accepted :
  forall b b',
    extendsb b b' = true ->
    valid (Ajv.compile createBacklogSchema b) = true ->
    valid (Ajv.compile createBacklogSchema b') = true.
Proof.
  intros b b' Hext Hvalid.
  unfold Ajv.compile, errors_of in *. cbn [valid] in *.
  apply is_nil_true in Hvalid. apply is_nil_true.
  assert (Hclosed : closedb createBacklogSchema = true) by reflexivity.
  exact (validate_extends _
           (validate_refs_extends _ Hclosed _)
           _ Hclosed _ _ _ Hext Hvalid).
Qed.

Lemma extra_fields_are_accepted_witness :
  extendsb Scenario.conformant Scenario.with_extra_fields = true
  /\ valid (Ajv.compile createBacklogSchema Scenario.conformant) = true
  /\ valid (Ajv.compile createBacklogSchema Scenario.with_extra_fields) = true.
Proof.
  split; [reflexivity | split; [reflexivity |]].
  apply (extra_fields_are_accepted Scenario.conformant
           Scenario.with_extra_fields); reflexivity.
Defined.

Lemma story_errors_ignore_refs f g path d :
  validate f storySchema path d = validate g storySchema path d.
Proof. destruct d; reflexivity. Qed.

(** C9. The schema of the items of [mvp] and the schema of the items of
    an iteration's [stories] are both found in the backlog schema, the
    second as a reference to the first, and they report the same
    violations on every value at every path; so a story is accepted as an
    element of [mvp] exactly when it is accepted as an element of an
    iteration's [stories]. *)
Theorem story_schema_shared_by_reference :
  exists s_mvp s_iter,
    resolve createBacklogSchema "#/properties/mvp/items" = Some s_mvp
    /\ resolve createBacklogSchema
         "#/properties/iterations/items/properties/stories/items"
       = Some s_iter
    /\ s_ref s_iter = Some "#/properties/mvp/items"
    /\ (forall story path,
           validate
             (validate_refs (count_refs createBacklogSchema)
                createBacklogSchema) s_mvp path story
           = validate
               (validate_refs (count_refs createBacklogSchema)
                  createBacklogSchema) s_iter path story)
    /\ (forall story p1 p2,
           is_nil
             (validate
                (validate_refs (count_refs createBacklogSchema)
                   createBacklogSchema) s_mvp p1 story)
           = is_nil
               (validate
                  (validate_refs (count_refs createBacklogSchema)
                     createBacklogSchema) s_iter p2 story))
    /\ (forall story,
           accepted_at "#/properties/mvp/items" story
           = accepted_at
               "#/properties/iterations/items/properties/stories/items"
               story).
Proof.
  exists storySchema, (ref "#/properties/mvp/items" any).
  assert (Hsame : forall story path,
             validate (validate_refs 1 createBacklogSchema)
               storySchema path story
             = validate (validate_refs 1 createBacklogSchema)
                 (ref "#/properties/mvp/items" any) path story).
  { intros story path.
    cbn [validate ref any s_type s_required s_properties s_minItems
         s_maxItems s_items s_pattern s_enum s_ref is_some orb andb negb app].
    rewrite app_nil_r.
    change (validate_refs 1 createBacklogSchema "#/properties/mvp/items"
              path story)
      with (validate (validate_refs 0 createBacklogSchema) storySchema
              path story).
    apply story_errors_ignore_refs. }
  split; [reflexivity | split; [reflexivity | split; [reflexivity |]]].
  split; [exact Hsame | split].
  - intros story p1 p2.
    change (count_refs createBacklogSchema) with 1.
    rewrite <- Hsame.
    destruct (validate (validate_refs 1 createBacklogSchema) storySchema
                p1 story) as [|e1 l1] eqn:H1.
    + rewrite (validate_nil_any_path _
                 (validate_refs_nil_any_path createBacklogSchema 1)
                 _ _ p2 _ H1).
      reflexivity.
    + destruct (validate (validate_refs 1 createBacklogSchema) storySchema
                  p2 story) as [|e2 l2] eqn:H2; [|reflexivity].
      rewrite (validate_nil_any_path _
                 (validate_refs_nil_any_path createBacklogSchema 1)
                 _ _ p1 _ H2) in H1.
      discriminate H1.
  - intros story. unfold accepted_at.
    change (resolve createBacklogSchema "#/properties/mvp/items")
      with (Some storySchema).
    change (resolve createBacklogSchema
              "#/properties/iterations/items/properties/stories/items")
      with (Some (ref "#/properties/mvp/items" any)).
    change (count_refs createBacklogSchema) with 1.
    cbv beta iota. rewrite Hsame. reflexivity.
Qed.

(** A value accepted by a schema of type [object] that has keywords for
    objects is an object. *)
Lemma validate_object f s p d :
  validate f s p d = [] ->
  s_type s = Some "object" ->
  (is_some (s_required s) || is_some (s_properties s))%bool = true ->
  exists fs, d = JObj fs.
Proof.
  destruct s as [ty req props minI maxI itm pat enu rf].
  cbn [s_type s_required s_properties]. intros Hnil Hty Hrules. subst ty.
  cbn [validate] in Hnil. rewrite Hrules in Hnil.
  repeat (apply app_eq_nil in Hnil; destruct Hnil as [_ Hnil]).
  destruct d; try discriminate Hnil. eauto.
Qed.

(** An accepted object has every required property. *)
Lemma validate_required f s p fs ks k :
  validate f s p (JObj fs) = [] ->
  s_required s = Some ks -> In k ks ->
  exists v, lookup k fs = Some v.
Proof.
  destruct s as [ty req props minI maxI itm pat enu rf].
  cbn [s_required]. intros Hnil Hreq Hin. subst req.
  cbn [validate is_some orb] in Hnil.
  do 5 (apply app_eq_nil in Hnil; destruct Hnil as [_ Hnil]).
  apply app_eq_nil in Hnil. destruct Hnil as [Hreq _].
  rewrite flat_map_nil_iff in Hreq. specialize (Hreq k Hin).
  destruct (lookup k fs) as [v|]; [eauto | discriminate Hreq].
Qed.

(** A missing required property is reported. *)
Lemma validate_required_missing f s p fs ks k :
  s_required s = Some ks -> In k ks -> lookup k fs = None ->
  In (violation p ("must have required property '" ++ k ++ "'"))
     (validate f s p (JObj fs)).
Proof.
  destruct s as [ty req props minI maxI itm pat enu rf].
  cbn [s_required]. intros Hreq Hin Hk. subst req.
  cbn [validate is_some orb].
  do 5 (apply in_or_app; right). apply in_or_app; left.
  apply in_flat_map. exists k. split; [exact Hin |].
  rewrite Hk. left. reflexivity.
Qed.

(** The value of a declared property of an accepted object is accepted
    by the property's schema. *)
Lemma validate_property f s p fs ps k sk v :
  validate f s p (JObj fs) = [] ->
  s_properties s = Some ps -> In (k, sk) ps -> lookup k fs = Some v ->
  validate f sk (p ++ "/" ++ k) v = [].
Proof.
  destruct s as [ty req props minI maxI itm pat enu rf].
  cbn [s_properties]. intros Hnil Hps Hin Hk. subst props.
  cbn [validate is_some orb] in Hnil.
  rewrite orb_true_r in Hnil.
  do 6 (apply app_eq_nil in Hnil; destruct Hnil as [_ Hnil]).
  rewrite flat_map_nil_iff in Hnil. specialize (Hnil _ Hin).
  cbn [fst snd] in Hnil. rewrite Hk in Hnil. exact Hnil.
Qed.

(** The conformant backlog is accepted; the same backlog with [epics], a
    sequence holding the same epic, in the place of [epic] is rejected. *)
Lemma legacy_shape_is_rejected :
  valid (Ajv.compile createBacklogSchema Scenario.conformant) = true
  /\ valid (Ajv.compile createBacklogSchema Scenario.legacy) = false
  /\ errors (Ajv.compile createBacklogSchema Scenario.legacy)
     = [{| instancePath := Some "";
           message := "must have required property 'epic'" |}].
Proof. split; [reflexivity | split; reflexivity]. Qed.

(* ================================================================== *)
(** ** Runs against stub clients *)

Lemma first_valid_attempt_stops_loop_witness :
  skipn 2 (calls (snd (Scenario.run_loop Scenario.retry_script))) = []
  /\ fst (Scenario.run_loop Scenario.retry_script)
     = inl {| gr_success := true;
              gr_result := Some Scenario.conformant;
              gr_lastValidationErrors := None |}.
Proof.
  apply (first_valid_attempt_stops_loop
           Scenario.scripted_create Scenario.parse
           (Ajv.compile createBacklogSchema) Scenario.a_client "gpt-4.1"
           Scenario.messages0 createBacklogSchema
           (Scenario.start Scenario.retry_script)
           (fst (Scenario.run_loop Scenario.retry_script))
           (snd (Scenario.run_loop Scenario.retry_script))
           (firstn 1 (calls (snd (Scenario.run_loop Scenario.retry_script))))
           (nth 1 (calls (snd (Scenario.run_loop Scenario.retry_script)))
                Scenario.no_call)
           (skipn 2 (calls (snd (Scenario.run_loop Scenario.retry_script))))
           Scenario.conformant (Scenario.deliver_call "conformant")).
  - apply surjective_pairing.
  - vm_compute. reflexivity.
  - vm_compute. reflexivity.
  - vm_compute. reflexivity.
Defined.

Lemma at_most_three_attempts_witness :
  exists tr,
    calls (snd (Scenario.run_loop Scenario.failing_script)) = tr
    /\ length tr <= 3
    /\ (forallb (attempt_failed (Ajv.compile createBacklogSchema)) tr = true ->
        length tr = 3
        /\ fst (Scenario.run_loop Scenario.failing_script)
           = inl {| gr_success := false; gr_result := None;
                    gr_lastValidationErrors :=
                      last_known_failure (Ajv.compile createBacklogSchema)
                        tr None |}).
Proof.
  apply (at_most_three_attempts
           Scenario.scripted_create Scenario.parse
           (Ajv.compile createBacklogSchema) Scenario.a_client "gpt-4.1"
           Scenario.messages0 createBacklogSchema
           (Scenario.start Scenario.failing_script)).
  apply surjective_pairing.
Defined.

(** Against a client that always fails, the adapter is called three
    times and the loop returns the failure of the third attempt. *)
Lemma all_failing_run :
  length (calls (snd (Scenario.run_loop Scenario.failing_script))) = 3
  /\ forallb (attempt_failed (Ajv.compile createBacklogSchema))
       (calls (snd (Scenario.run_loop Scenario.failing_script))) = true
  /\ fst (Scenario.run_loop Scenario.failing_script)
     = inl {| gr_success := false; gr_result := None;
              gr_lastValidationErrors :=
                Some [{| instancePath := None;
                         message :=
                           "Erreur de parsing JSON: Unexpected token" |}] |}.
Proof. vm_compute. repeat split; reflexivity. Qed.

(** After a backlog with four violations, at the root and three levels
    down, the next call carries the two turns, the second with the four
    violations in the validator's order. *)
Lemma schema_failure_appends_two_turns_witness :
  cr_messages
    (nth 1 (calls (snd (Scenario.run_loop Scenario.flawed_script)))
         Scenario.no_call)
  = (cr_messages
       (nth 0 (calls (snd (Scenario.run_loop Scenario.flawed_script)))
            Scenario.no_call)
     ++ [ {| role := "assistant"; content := None;
             msg_function_call :=
               Some (Scenario.deliver_call "several_flaws") |};
          {| role := "system";
             content := Some "La réponse JSON n'est pas valide : /mvp/0/title must be string; /mvp/1 must have required property 'tasks'; /iterations must NOT have fewer than 2 items; /iterations/0/stories/0/priority must be equal to one of the allowed values. Merci de ne renvoyer que le JSON conforme via deliver_backlog.";
             msg_function_call := None |} ])%list.
Proof.
  assert (H := schema_failure_appends_two_turns
           Scenario.scripted_create Scenario.parse
           (Ajv.compile createBacklogSchema) Scenario.a_client "gpt-4.1"
           Scenario.messages0 createBacklogSchema
           (Scenario.start Scenario.flawed_script)
           (fst (Scenario.run_loop Scenario.flawed_script))
           (snd (Scenario.run_loop Scenario.flawed_script))
           []
           (nth 0 (calls (snd (Scenario.run_loop Scenario.flawed_script)))
                Scenario.no_call)
           (nth 1 (calls (snd (Scenario.run_loop Scenario.flawed_script)))
                Scenario.no_call)
           []
           Scenario.several_flaws (Scenario.deliver_call "several_flaws")).
  vm_compute in H |- *. apply H; reflexivity.
Defined.

(** The corrective turn of the retry run, in full. *)
Lemma corrective_turn_of_retry_run :
  nth_error
    (cr_messages
       (nth 1 (calls (snd (Scenario.run_loop Scenario.retry_script)))
            Scenario.no_call)) 4
  = Some {| role := "system";
            content := Some "La réponse JSON n'est pas valide : /mvp must NOT have fewer than 3 items. Merci de ne renvoyer que le JSON conforme via deliver_backlog.";
            msg_function_call := None |}.
Proof. vm_compute. reflexivity. Qed.

Lemma transport_failure_keeps_messages_witness :
  cr_messages
    (nth 2 (calls (snd (Scenario.run_loop Scenario.failing_script)))
         Scenario.no_call)
  = cr_messages
      (nth 1 (calls (snd (Scenario.run_loop Scenario.failing_script)))
           Scenario.no_call).
Proof.
  apply (proj2 (transport_failure_keeps_messages
                  Scenario.scripted_create Scenario.parse
                  (Ajv.compile createBacklogSchema) Scenario.a_client
                  "gpt-4.1" createBacklogSchema)
           Scenario.messages0
           (Scenario.start Scenario.failing_script)
           (fst (Scenario.run_loop Scenario.failing_script))
           (snd (Scenario.run_loop Scenario.failing_script))
           (firstn 1
              (calls (snd (Scenario.run_loop Scenario.failing_script))))
           (nth 1 (calls (snd (Scenario.run_loop Scenario.failing_script)))
                Scenario.no_call)
           (skipn 2
              (calls (snd (Scenario.run_loop Scenario.failing_script))))
           "Aucun appel de fonction retourné par l'API").
  - apply surjective_pairing.
  - vm_compute. reflexivity.
  - vm_compute. reflexivity.
Defined.

(** The "no choices" error does not reach the boundary: the adapter
    turns it into a failed attempt and the loop goes on. *)
Lemma no_choice_exception_is_retried :
  Scenario.run_generate (ArgString "books") Scenario.a_client
    [inr (Error no_choice); Scenario.delivers "conformant"]
  = (Resolved {| success := true;
                 result := Some Scenario.conformant;
                 error := None |},
     {| client_state := [];
        calls :=
          [{| cr_messages := Scenario.messages0;
              cr_outcome := inl (ApiInvalid no_choice) |};
           {| cr_messages := Scenario.messages0;
              cr_outcome :=
                inl (ApiValid Scenario.conformant
                       (Scenario.deliver_call "conformant")) |}] |}).
Proof. vm_compute. reflexivity. Qed.

(** The client throws [new Error()], whose message is empty: the
    exception leaves the try block with its empty message, and the
    envelope carries the fallback text, not the exception's message. *)
Lemma empty_exception_message_is_replaced :
  fst (processBacklog_try _ Scenario.scripted_create Scenario.parse
         "Library" (ArgString "books") Scenario.a_client
         (Scenario.start [inr (Error "")]))
  = inr (ThrownValue (Some ""))
  /\ fst (Scenario.run_generate (ArgString "books") Scenario.a_client
            [inr (Error "")])
     = Resolved
         {| success := false;
            result := None;
            error := Some {| err_message :=
              "Une erreur est survenue lors de la génération du backlog" |}
         |}
  /\ fst (Scenario.run_generate (ArgString "books") Scenario.a_client
            [inr (Error "")])
     <> Resolved {| success := false;
                    result := None;
                    error := Some {| err_message := "" |} |}.
Proof.
  split; [vm_compute; reflexivity | split; [vm_compute; reflexivity |]].
  vm_compute. intros H. discriminate H.
Qed.


(** Scenario A: a conformant backlog at the first call. *)
Lemma scenario_first_call_conformant :
  fst (Scenario.run_generate (ArgString "books") Scenario.a_client
         [Scenario.delivers "conformant"; Scenario.delivers "short_mvp"])
  = Resolved {| success := true;
                result := Some Scenario.conformant;
                error := None |}
  /\ length (calls (snd (Scenario.run_generate (ArgString "books")
                           Scenario.a_client
                           [Scenario.delivers "conformant";
                            Scenario.delivers "short_mvp"]))) = 1.
Proof. vm_compute. split; reflexivity. Qed.

(** Scenario B: a short [mvp] first, a conformant backlog second. *)
Lemma scenario_second_call_conformant :
  fst (Scenario.run_generate (ArgString "books") Scenario.a_client
         Scenario.retry_script)
  = Resolved {| success := true;
                result := Some Scenario.conformant;
                error := None |}
  /\ length (calls (snd (Scenario.run_generate (ArgString "books")
                           Scenario.a_client Scenario.retry_script))) = 2.
Proof. vm_compute. split; reflexivity. Qed.

(** Scenario C: a short [mvp] at every call. *)
Lemma scenario_always_short_mvp :
  fst (Scenario.run_generate (ArgString "books") Scenario.a_client
         [Scenario.delivers "short_mvp"; Scenario.delivers "short_mvp";
          Scenario.delivers "short_mvp"; Scenario.delivers "short_mvp"])
  = Resolved {| success := false;
                result := None;
                error := Some {| err_message :=
                  "must NOT have fewer than 3 items" |} |}
  /\ length (calls (snd (Scenario.run_generate (ArgString "books")
                           Scenario.a_client
                           [Scenario.delivers "short_mvp";
                            Scenario.delivers "short_mvp";
                            Scenario.delivers "short_mvp";
                            Scenario.delivers "short_mvp"]))) = 3.
Proof. vm_compute. split; reflexivity. Qed.

(** An exception of the client ends the loop at once: one adapter call,
    and no retry. *)
Lemma exception_ends_the_loop :
  length (calls (snd (Scenario.run_loop
                        [inr (Error "socket hang up");
                         Scenario.delivers "conformant"]))) = 1
  /\ fst (Scenario.run_loop
            [inr (Error "socket hang up"); Scenario.delivers "conformant"])
     = inr (Error "socket hang up").
Proof. vm_compute. split; reflexivity. Qed.

(* ================================================================== *)
(** ** The validator accepts exactly the described backlogs *)

Lemma is_nil_app {A : Type} (a b : list A) :
  is_nil (a ++ b) = (is_nil a && is_nil b)%bool.
Proof. destruct a; reflexivity. Qed.

Lemma is_nil_flat_map {A B : Type} (g : A -> list B) (l : list A) :
  is_nil (flat_map g l) = forallb (fun x => is_nil (g x)) l.
Proof.
  induction l as [|a l IH]; [reflexivity |].
  simpl. rewrite is_nil_app, IH. reflexivity.
Qed.

Lemma forallb_same {A : Type} (g h : A -> bool) (l : list A) :
  (forall x, g x = h x) -> forallb g l = forallb h l.
Proof.
  intros Hgh. induction l as [|a l IH]; [reflexivity |].
  simpl. rewrite Hgh, IH. reflexivity.
Qed.

Lemma is_nil_any_path f s p p' d :
  (forall r p p' d, f r p d = [] -> f r p' d = []) ->
  is_nil (validate f s p d) = is_nil (validate f s p' d).
Proof.
  intros Hf.
  destruct (validate f s p d) as [|e l] eqn:H1.
  - rewrite (validate_nil_any_path f Hf s p p' d H1). reflexivity.
  - destruct (validate f s p' d) as [|e' l'] eqn:H2; [|reflexivity].
    rewrite (validate_nil_any_path f Hf s p' p d H2) in H1. discriminate H1.
Qed.

Lemma digit_value_is_digit c :
  match RegExp.digit_value c with Some _ => true | None => false end
  = Shape.is_digit c.
Proof.
  unfold RegExp.digit_value, Shape.is_digit.
  destruct ((48 <=? nat_of_ascii c)%nat && (nat_of_ascii c <=? 57)%nat)%bool;
    reflexivity.
Qed.

(** The pattern of the story id compiles, and matches exactly [US] and
    three digits. *)
Lemma regex_story_id :
  exists r, RegExp.compile "^US\d{3}$" = Some r
            /\ forall s, RegExp.test r s = Shape.story_id_ok s.
Proof.
  exists {| RegExp.anchored_start := true;
            RegExp.anchored_end := true;
            RegExp.atoms :=
              [RegExp.Lit "U"; RegExp.Lit "S"; RegExp.Digit; RegExp.Digit;
               RegExp.Digit] |}.
  split; [reflexivity |].
  intros s.
  unfold RegExp.test, RegExp.match_at.
  cbn [RegExp.anchored_start RegExp.anchored_end RegExp.atoms].
  destruct s as [|c1 [|c2 [|c3 [|c4 [|c5 s]]]]];
    cbn [RegExp.match_here RegExp.atom_matches Shape.story_id_ok];
    rewrite ?digit_value_is_digit;
    repeat match goal with
           | |- context [Ascii.eqb ?a ?b] => destruct (Ascii.eqb a b)
           | |- context [Shape.is_digit ?a] => destruct (Shape.is_digit a)
           end;
    try reflexivity; destruct s; reflexivity.
Qed.

(** The field is there, or both sides of the goal are [false]. *)
Tactic Notation "field_cases" constr(fs) constr(k) ident(v) :=
  destruct (lookup k fs) as [v|];
  [| cbn [is_some andb]; rewrite ?andb_false_r; reflexivity].

Section SchemaShape.

(** What [$ref] does: any function whose verdict does not depend on the
    path. *)
Variable f : string -> string -> json -> list error_object.
Hypothesis f_any_path : forall r p p' d, f r p d = [] -> f r p' d = [].

Lemma string_schema_ok p d :
  is_nil (validate f (type "string" any) p d) = Shape.is_string d.
Proof. destruct d; reflexivity. Qed.

Lemma story_id_schema_ok p d :
  is_nil (validate f (type "string" (pattern "^US\d{3}$" any)) p d)
  = match d with JStr s => Shape.story_id_ok s | _ => false end.
Proof.
  destruct d as [| | |s| |]; try reflexivity.
  destruct regex_story_id as [r [Hr Htest]].
  cbn [validate type pattern any s_type s_required s_properties s_minItems
       s_maxItems s_items s_pattern s_enum s_ref is_some orb andb negb app
       String.eqb Ascii.eqb Bool.eqb has_type].
  rewrite Hr. rewrite Htest. destruct (Shape.story_id_ok s); reflexivity.
Qed.

Lemma priority_schema_ok p d :
  is_nil (validate f (enum [JStr "HIGH"; JStr "MEDIUM"; JStr "LOW"] any) p d)
  = Shape.priority_ok d.
Proof.
  destruct d as [| | |s| |]; try reflexivity.
  cbn [validate enum any s_type s_required s_properties s_minItems
       s_maxItems s_items s_pattern s_enum s_ref is_some orb andb negb app
       existsb json_equal Shape.priority_ok].
  rewrite !orb_false_r, !app_nil_r.
  destruct (String.eqb s "HIGH"), (String.eqb s "MEDIUM"),
    (String.eqb s "LOW"); reflexivity.
Qed.

(** The items of an array, whatever their index. *)
Lemma items_ok si p (l : list json) :
  forall i,
    is_nil
      (flat_map
         (fun ie : nat * json =>
            validate f si (p ++ "/" ++ string_of_nat (fst ie)) (snd ie))
         (combine (seq i (length l)) l))
    = forallb (fun e => is_nil (validate f si "" e)) l.
Proof.
  induction l as [|e l IH]; intros i; [reflexivity |].
  simpl. rewrite is_nil_app, IH.
  rewrite (is_nil_any_path f si _ "" e f_any_path). reflexivity.
Qed.

Lemma array_schema_ok n si p d :
  is_nil (validate f (type "array" (minItems n (items si any))) p d)
  = match d with
    | JArr l =>
        ((n <=? length l)%nat
         && forallb (fun e => is_nil (validate f si "" e)) l)%bool
    | _ => false
    end.
Proof.
  destruct d as [| | | |l|]; try reflexivity.
  cbn [validate type minItems items any s_type s_required s_properties
       s_minItems s_maxItems s_items s_pattern s_enum s_ref is_some orb andb
       negb app String.eqb Ascii.eqb Bool.eqb has_type].
  rewrite !is_nil_app, items_ok. cbn [is_nil andb].
  rewrite Nat.ltb_antisym.
  destruct (n <=? length l)%nat; cbn [negb is_nil andb];
    rewrite ?andb_true_r; reflexivity.
Qed.

Lemma bounded_array_schema_ok n m si p d :
  is_nil
    (validate f (type "array" (minItems n (maxItems m (items si any)))) p d)
  = match d with
    | JArr l =>
        ((n <=? length l)%nat && (length l <=? m)%nat
         && forallb (fun e => is_nil (validate f si "" e)) l)%bool
    | _ => false
    end.
Proof.
  destruct d as [| | | |l|]; try reflexivity.
  cbn [validate type minItems maxItems items any s_type s_required
       s_properties s_minItems s_maxItems s_items s_pattern s_enum s_ref
       is_some orb andb negb app String.eqb Ascii.eqb Bool.eqb has_type].
  rewrite !is_nil_app, items_ok. cbn [is_nil andb].
  rewrite !Nat.ltb_antisym.
  destruct (n <=? length l)%nat, (length l <=? m)%nat;
    cbn [negb is_nil andb]; rewrite ?andb_true_r; reflexivity.
Qed.

Lemma object_schema_ok ks ps p d :
  is_nil (validate f (type "object" (required ks (properties ps any))) p d)
  = match d with
    | JObj fs =>
        (forallb (fun k => is_some (lookup k fs)) ks
         && forallb
              (fun ks0 : string * schema =>
                 match lookup (fst ks0) fs with
                 | Some v =>
                     is_nil (validate f (snd ks0) (p ++ "/" ++ fst ks0) v)
                 | None => true
                 end)
              ps)%bool
    | _ => false
    end.
Proof.
  destruct d as [| | | | |fs]; try reflexivity.
  cbn [validate type required properties any s_type s_required s_properties
       s_minItems s_maxItems s_items s_pattern s_enum s_ref is_some orb andb
       negb app String.eqb Ascii.eqb Bool.eqb has_type].
  rewrite !is_nil_app, !is_nil_flat_map. cbn [is_nil andb].
  f_equal.
  - apply forallb_same. intros k. destruct (lookup k fs); reflexivity.
  - apply forallb_same. intros [k sk]. cbn [fst snd].
    destruct (lookup k fs); reflexivity.
Qed.

Lemma strings_schema_ok n p d :
  is_nil
    (validate f (type "array" (minItems n (items (type "string" any) any)))
       p d)
  = Shape.strings_ok n d.
Proof.
  rewrite array_schema_ok. destruct d as [| | | |l|]; try reflexivity.
  unfold Shape.strings_ok. f_equal.
  apply forallb_same. intros e. apply string_schema_ok.
Qed.

Lemma story_schema_ok p d :
  is_nil (validate f storySchema p d) = Shape.story_ok d.
Proof.
  unfold storySchema. rewrite object_schema_ok.
  destruct d as [| | | | |fs]; try reflexivity.
  cbn [forallb fst snd].
  unfold Shape.story_ok, Shape.field_ok.
  field_cases fs "id" v_id. field_cases fs "title" v_title. field_cases fs "description" v_description.
  field_cases fs "acceptance_criteria" v_acceptance_criteria. field_cases fs "tasks" v_tasks.
  field_cases fs "priority" v_priority.
  rewrite story_id_schema_ok, !string_schema_ok, !strings_schema_ok,
    priority_schema_ok.
  cbn [is_some andb]. rewrite ?andb_true_r, ?andb_assoc. reflexivity.
Qed.

Lemma epic_schema_ok p d :
  is_nil
    (validate f
       (type "object"
          (required ["title"; "description"]
          (properties
             [("title", type "string" any);
              ("description", type "string" any)]
           any))) p d)
  = Shape.epic_ok d.
Proof.
  rewrite object_schema_ok.
  destruct d as [| | | | |fs]; try reflexivity.
  cbn [forallb fst snd].
  unfold Shape.epic_ok, Shape.field_ok.
  field_cases fs "title" v_title. field_cases fs "description" v_description.
  rewrite !string_schema_ok.
  cbn [is_some andb]. rewrite ?andb_true_r, ?andb_assoc. reflexivity.
Qed.

End SchemaShape.

Lemma ref_to_story_schema p e :
  validate (validate_refs 1 createBacklogSchema)
    (ref "#/properties/mvp/items" any) p e
  = validate (validate_refs 1 createBacklogSchema) storySchema p e.
Proof.
  cbn [validate ref any s_type s_required s_properties s_minItems
       s_maxItems s_items s_pattern s_enum s_ref is_some orb andb negb app].
  rewrite app_nil_r.
  change (validate_refs 1 createBacklogSchema "#/properties/mvp/items" p e)
    with (validate (validate_refs 0 createBacklogSchema) storySchema p e).
  apply story_errors_ignore_refs.
Qed.

Lemma iteration_schema_ok p d :
  is_nil
    (validate (validate_refs 1 createBacklogSchema)
       (type "object"
          (required ["name"; "goal"; "stories"]
          (properties
             [("name", type "string" any);
              ("goal", type "string" any);
              ("stories",
                type "array"
                  (minItems 1
                  (items (ref "#/properties/mvp/items" any) any)))]
           any))) p d)
  = Shape.iteration_ok d.
Proof.
  rewrite object_schema_ok.
  destruct d as [| | | | |fs]; try reflexivity.
  cbn [forallb fst snd].
  unfold Shape.iteration_ok, Shape.field_ok.
  field_cases fs "name" v_name. field_cases fs "goal" v_goal. field_cases fs "stories" v_stories.
  rewrite !string_schema_ok.
  rewrite (array_schema_ok _
             (validate_refs_nil_any_path createBacklogSchema 1)).
  cbn [is_some andb]. rewrite ?andb_true_r, ?andb_assoc.
  do 2 f_equal.
  destruct v_stories as [| | | |l|]; try reflexivity.
  unfold Shape.stories_ok. rewrite andb_true_r. f_equal.
  apply forallb_same. intros e.
  rewrite ref_to_story_schema. apply story_schema_ok.
  apply validate_refs_nil_any_path.
Qed.

Lemma backlog_schema_ok b :
  valid (Ajv.compile createBacklogSchema b) = Shape.backlog_ok b.
Proof.
  unfold Ajv.compile, errors_of. cbn [valid].
  change (count_refs createBacklogSchema) with 1.
  unfold createBacklogSchema at 2. rewrite object_schema_ok.
  destruct b as [| | | | |fs]; try reflexivity.
  cbn [forallb fst snd].
  unfold Shape.backlog_ok, Shape.field_ok.
  field_cases fs "epic" v_epic. field_cases fs "mvp" v_mvp. field_cases fs "iterations" v_iterations.
  rewrite epic_schema_ok.
  rewrite !(bounded_array_schema_ok _
              (validate_refs_nil_any_path createBacklogSchema 1)).
  cbn [is_some andb]. rewrite ?andb_true_r, ?andb_assoc.
  f_equal; [f_equal |].
  - destruct v_mvp as [| | | |l|]; try reflexivity.
    unfold Shape.stories_ok. f_equal.
    apply forallb_same. intros e. apply story_schema_ok.
    apply validate_refs_nil_any_path.
  - destruct v_iterations as [| | | |l|]; try reflexivity.
    unfold Shape.iterations_ok. f_equal.
    apply forallb_same. intros e. apply iteration_schema_ok.
Qed.

(** C5, as amended. The validator accepts the shape with [epic] only.
    An otherwise conformant backlog, whose [mvp] and [iterations] are as
    the schema describes, is accepted exactly when it carries an [epic]
    object with a string [title] and a string [description], whatever
    [epics] it carries. So every accepted backlog has an [epic] object,
    and an object without [epic] is rejected with the violation of the
    required property. The markdown generator takes both shapes: the
    truthy [epic] of the backlog, or else the first element of its
    [epics]. *)
Theorem validation_requires_epic_renderer_takes_both :
  (forall fs,
      Shape.field_ok fs "mvp" (Shape.stories_ok 3 (Some 5)) = true ->
      Shape.field_ok fs "iterations" Shape.iterations_ok = true ->
      valid (Ajv.compile createBacklogSchema (JObj fs))
      = Shape.field_ok fs "epic" Shape.epic_ok)
  /\ (forall b,
         valid (Ajv.compile createBacklogSchema b) = true ->
         exists fs efs, b = JObj fs /\ lookup "epic" fs = Some (JObj efs))
  /\ (forall fs,
         lookup "epic" fs = None ->
         valid (Ajv.compile createBacklogSchema (JObj fs)) = false
         /\ In {| instancePath := Some "";
                  message := "must have required property 'epic'" |}
               (errors (Ajv.compile createBacklogSchema (JObj fs))))
  /\ (forall fs e,
         lookup "epic" fs = Some e -> truthy e = true ->
         MarkdownGenerator.epic_of_backlog (JObj fs) = inl e)
  /\ (forall fs e rest,
         lookup "epic" fs = None ->
         lookup "epics" fs = Some (JArr (e :: rest)) -> truthy e = true ->
         MarkdownGenerator.epic_of_backlog (JObj fs) = inl e).
Proof.
  split; [|split; [|split; [|split]]].
  - intros fs Hmvp Hiterations.
    rewrite backlog_schema_ok. unfold Shape.backlog_ok.
    rewrite Hmvp, Hiterations, !andb_true_r. reflexivity.
  - intros b Hvalid.
    unfold Ajv.compile, errors_of in Hvalid. cbn [valid] in Hvalid.
    apply is_nil_true in Hvalid.
    destruct (validate_object _ _ _ _ Hvalid eq_refl eq_refl) as [fs Hb].
    subst b.
    destruct (validate_required _ _ _ _ _ "epic" Hvalid eq_refl
                (or_introl eq_refl)) as [v Hv].
    pose proof (validate_property _ _ _ _ _ "epic" _ v Hvalid eq_refl
                  (or_introl eq_refl) Hv) as Hepic.
    destruct (validate_object _ _ _ _ Hepic eq_refl eq_refl) as [efs He].
    subst v. exists fs, efs. split; [reflexivity | exact Hv].
  - intros fs Hk.
    assert (Hin : In (violation "" "must have required property 'epic'")
                     (errors_of createBacklogSchema (JObj fs))).
    { exact (validate_required_missing _ createBacklogSchema "" fs _ "epic"
               eq_refl (or_introl eq_refl) Hk). }
    unfold Ajv.compile. cbn [valid errors]. split; [|exact Hin].
    destruct (errors_of createBacklogSchema (JObj fs));
      [destruct Hin | reflexivity].
  - intros fs e Hk He.
    unfold MarkdownGenerator.epic_of_backlog, MarkdownGenerator.select_epic.
    cbn [MarkdownGenerator.get]. rewrite Hk.
    cbn [MarkdownGenerator.truthy_opt]. rewrite He. rewrite He. reflexivity.
  - intros fs e rest Hk Hks He.
    unfold MarkdownGenerator.epic_of_backlog, MarkdownGenerator.select_epic.
    cbn [MarkdownGenerator.get]. rewrite Hk, Hks.
    cbn [MarkdownGenerator.truthy_opt truthy MarkdownGenerator.index0
         hd_error].
    rewrite He. reflexivity.
Qed.

(** X1. The compiled validator accepts exactly the backlogs of the
    described shape: an object with an [epic] object of string [title]
    and [description], an [mvp] array of 3 to 5 stories and an
    [iterations] array of 2 or 3 iterations, each with string [name] and
    [goal] and at least one story; a story having an [id] made of [US]
    and three digits, string [title] and [description], at least two
    strings under [acceptance_criteria] and under [tasks], and a
    [priority] among HIGH, MEDIUM and LOW. *)
Theorem validator_accepts_described_backlogs :
  forall b,
    valid (Ajv.compile createBacklogSchema b) = Shape.backlog_ok b.
Proof. exact backlog_schema_ok. Qed.


(** X2. A backlog object that lacks one of [epic], [mvp] and [iterations]
    is rejected, and the violations name the missing property at the
    root; a value that is no object gets the single violation
    "must be object". *)
Theorem missing_field_is_reported :
  (forall fs k,
      In k ["epic"; "mvp"; "iterations"] ->
      lookup k fs = None ->
      valid (Ajv.compile createBacklogSchema (JObj fs)) = false
      /\ In {| instancePath := Some "";
               message := "must have required property '" ++ k ++ "'" |}
            (errors (Ajv.compile createBacklogSchema (JObj fs))))
  /\ (forall d,
         (forall fs, d <> JObj fs) ->
         errors (Ajv.compile createBacklogSchema d)
         = [{| instancePath := Some ""; message := "must be object" |}]).
Proof.
  split.
  - intros fs k Hk Hnone.
    assert (Hin : In (violation "" ("must have required property '"
                                    ++ k ++ "'"))
                     (errors_of createBacklogSchema (JObj fs))).
    { exact (validate_required_missing _ createBacklogSchema "" fs _ k
               eq_refl Hk Hnone). }
    unfold Ajv.compile. cbn [valid errors]. split; [|exact Hin].
    destruct (errors_of createBacklogSchema (JObj fs));
      [destruct Hin | reflexivity].
  - intros d Hd. destruct d as [| | | | |fs]; try reflexivity.
    exfalso. exact (Hd fs eq_refl).
Qed.

Lemma missing_field_is_reported_witness :
  In {| instancePath := Some "";
        message := "must have required property 'mvp'" |}
     (errors (Ajv.compile createBacklogSchema
                (JObj [("epic", Scenario.the_epic)])))
  /\ errors (Ajv.compile createBacklogSchema (JArr []))
     = [{| instancePath := Some ""; message := "must be object" |}].
Proof.
  split.
  - apply (proj1 missing_field_is_reported
             [("epic", Scenario.the_epic)] "mvp").
    + right. left. reflexivity.
    + reflexivity.
  - apply (proj2 missing_field_is_reported (JArr [])).
    intros fs H. discriminate H.
Defined.

(* ================================================================== *)
(** ** More on the runs of the loop *)

Section RunFacts.

Context {ClientState : Type}.
Variable chat_completions_create :
  ClientState -> request -> (completion + thrown) * ClientState.
Variable JSON_parse : string -> json + string.

Local Abbreviation attempt :=
  (attemptBacklogGeneration ClientState chat_completions_create JSON_parse).
Local Abbreviation process_try :=
  (processBacklog_try ClientState chat_completions_create JSON_parse).
Local Abbreviation generate :=
  (generateBacklog ClientState chat_completions_create JSON_parse).
Local Abbreviation callApi :=
  (callApiForBacklog ClientState chat_completions_create JSON_parse).
Local Abbreviation loop :=
  (attempt_loop ClientState chat_completions_create JSON_parse).

Lemma trace_thrown_is_last validate n msgs last tr res :
  loop_trace validate n msgs last tr res ->
  forall before c rest t,
    tr = (before ++ c :: rest)%list ->
    cr_outcome c = inr t ->
    rest = [] /\ res = inr t.
Proof.
  induction 1 as [msgs last | n msgs last t0 | n msgs last err tr res Hl IH
                 | n msgs last d f Hv | n msgs last d f tr res Hv Hl IH];
    intros before c rest t Heq Hout.
  - exfalso. exact (nil_neq_app_cons _ _ _ Heq).
  - apply cons_eq_app_cons in Heq.
    destruct Heq as [[_ [Hc Hrest]] | [b' [_ Hnil]]].
    + subst c. simpl in Hout. inversion Hout; subst. split; reflexivity.
    + exfalso. exact (nil_neq_app_cons _ _ _ Hnil).
  - apply cons_eq_app_cons in Heq.
    destruct Heq as [[_ [Hc _]] | [b' [_ Htr]]].
    + subst c. discriminate Hout.
    + exact (IH _ _ _ _ Htr Hout).
  - apply cons_eq_app_cons in Heq.
    destruct Heq as [[_ [Hc _]] | [b' [_ Hnil]]].
    + subst c. discriminate Hout.
    + exfalso. exact (nil_neq_app_cons _ _ _ Hnil).
  - apply cons_eq_app_cons in Heq.
    destruct Heq as [[_ [Hc _]] | [b' [_ Htr]]].
    + subst c. discriminate Hout.
    + exact (IH _ _ _ _ Htr Hout).
Qed.

(** X3. An exception that leaves the adapter ends the run: the call that
    threw is the last adapter call, whatever attempts remain, and
    [attemptBacklogGeneration] rejects with the thrown value. *)
Theorem thrown_attempt_is_last :
  forall validate client model msgs sch (w : world ClientState) res w'
         before c rest t,
    attempt client model msgs sch validate w = (res, w') ->
    calls w' = (calls w ++ before ++ c :: rest)%list ->
    cr_outcome c = inr t ->
    rest = [] /\ res = inr t.
Proof.
  intros validate client model msgs sch w res w' before c rest t
         Hrun Hcalls Hout.
  destruct (attempt_loop_trace _ _ _ _ _ _ _ _ _ _ _ _ Hrun)
    as [tr [Htr Hl]].
  rewrite Htr in Hcalls. apply app_inv_head in Hcalls.
  exact (trace_thrown_is_last _ _ _ _ _ _ Hl _ _ _ _ Hcalls Hout).
Qed.

Lemma trace_conversation validate n msgs last tr res :
  loop_trace validate n msgs last tr res ->
  forall before c rest,
    tr = (before ++ c :: rest)%list ->
    cr_messages c = (msgs ++ flat_map (corrections validate) before)%list.
Proof.
  induction 1 as [msgs last | n msgs last t0 | n msgs last err tr res Hl IH
                 | n msgs last d f Hv | n msgs last d f tr res Hv Hl IH];
    intros before c rest Heq.
  - exfalso. exact (nil_neq_app_cons _ _ _ Heq).
  - apply cons_eq_app_cons in Heq.
    destruct Heq as [[Hb [Hc _]] | [b' [_ Hnil]]].
    + subst. simpl. rewrite app_nil_r. reflexivity.
    + exfalso. exact (nil_neq_app_cons _ _ _ Hnil).
  - apply cons_eq_app_cons in Heq.
    destruct Heq as [[Hb [Hc _]] | [b' [Hb Htr]]].
    + subst. simpl. rewrite app_nil_r. reflexivity.
    + subst before. rewrite (IH _ _ _ Htr). reflexivity.
  - apply cons_eq_app_cons in Heq.
    destruct Heq as [[Hb [Hc _]] | [b' [_ Hnil]]].
    + subst. simpl. rewrite app_nil_r. reflexivity.
    + exfalso. exact (nil_neq_app_cons _ _ _ Hnil).
  - apply cons_eq_app_cons in Heq.
    destruct Heq as [[Hb [Hc _]] | [b' [Hb Htr]]].
    + subst. simpl. rewrite app_nil_r. reflexivity.
    + subst before. rewrite (IH _ _ _ Htr).
      cbn [flat_map]. unfold corrections at 2. cbn [cr_outcome].
      rewrite Hv. rewrite <- app_assoc. reflexivity.
Qed.

Lemma corrections_length validate c :
  length (corrections validate c) <= 2.
Proof.
  unfold corrections.
  destruct (cr_outcome c) as [[err|data fc]|t]; simpl; try lia.
  destruct (valid (validate data)); simpl; lia.
Qed.

Lemma flat_map_corrections_length validate l :
  length (flat_map (corrections validate) l) <= 2 * length l.
Proof.
  induction l as [|c l IH]; simpl; [lia |].
  rewrite length_app. pose proof (corrections_length validate c). lia.
Qed.

(** X4. The conversation of every adapter call of a run is the initial
    message sequence followed by the corrections of the attempts before
    it, in order, two turns for each schema failure and none for the
    other attempts: at most four turns more than at the start. *)
Theorem conversation_is_initial_plus_corrections :
  forall validate client model msgs sch (w : world ClientState) res w'
         before c rest,
    attempt client model msgs sch validate w = (res, w') ->
    calls w' = (calls w ++ before ++ c :: rest)%list ->
    cr_messages c = (msgs ++ flat_map (corrections validate) before)%list
    /\ length (cr_messages c) <= length msgs + 4.
Proof.
  intros validate client model msgs sch w res w' before c rest Hrun Hcalls.
  destruct (attempt_loop_trace _ _ _ _ _ _ _ _ _ _ _ _ Hrun)
    as [tr [Htr Hl]].
  rewrite Htr in Hcalls. apply app_inv_head in Hcalls.
  pose proof (trace_conversation _ _ _ _ _ _ Hl _ _ _ Hcalls) as Hconv.
  split; [exact Hconv |].
  rewrite Hconv, length_app.
  pose proof (flat_map_corrections_length validate before) as Hcorr.
  destruct (trace_bounded _ _ _ _ _ _ Hl) as [Hlen _].
  rewrite Hcalls, length_app in Hlen. simpl in Hlen.
  unfold maxTries in Hlen. lia.
Qed.

Lemma trace_success_last validate n msgs last tr res :
  loop_trace validate n msgs last tr res ->
  forall r, res = inl r -> gr_success r = true ->
    exists before msgs' data fc,
      tr = (before ++ [{| cr_messages := msgs';
                          cr_outcome := inl (ApiValid data fc) |}])%list
      /\ gr_result r = Some data
      /\ valid (validate data) = true.
Proof.
  induction 1 as [msgs last | n msgs last t0 | n msgs last err tr res Hl IH
                 | n msgs last d f Hv | n msgs last d f tr res Hv Hl IH];
    intros r Hr Hs.
  - inversion Hr; subst. discriminate Hs.
  - discriminate Hr.
  - destruct (IH r Hr Hs) as [before [msgs' [data [fc [Htr Hres]]]]].
    exists ({| cr_messages := msgs; cr_outcome := inl (ApiInvalid err) |}
            :: before), msgs', data, fc.
    subst tr. split; [reflexivity | exact Hres].
  - inversion Hr; subst.
    exists [], msgs, d, f. repeat split; assumption.
  - destruct (IH r Hr Hs) as [before [msgs' [data [fc [Htr Hres]]]]].
    exists ({| cr_messages := msgs; cr_outcome := inl (ApiValid d f) |}
            :: before), msgs', data, fc.
    subst tr. split; [reflexivity | exact Hres].
Qed.

(** How a call of [generateBacklog] ends: without a client, at once; with
    one, as the run of the loop on the initial messages tells. *)
Lemma generate_cases name desc client (w : world ClientState) p w' :
  generate name desc client w = (p, w') ->
  (w' = w /\ p = Resolved (failure "Client API non défini"))
  \/ (exists project client' tr res,
         processBacklogParams name desc client
         = ParamsValid project client'
         /\ loop_trace (Ajv.compile createBacklogSchema) 3
              (createApiMessages project) None tr res
         /\ calls w' = (calls w ++ tr)%list
         /\ p = Resolved
                  match res with
                  | inl r =>
                      if gr_success r then
                        {| success := true; result := gr_result r;
                           error := None |}
                      else
                        failure
                          (first_message_or (gr_lastValidationErrors r)
                             "Validation du backlog échouée")
                  | inr t =>
                      failure
                        (message_or t
                           "Une erreur est survenue lors de la génération du backlog")
                  end).
Proof.
  unfold generateBacklog, processBacklog, try_catch, processBacklog_try.
  destruct (processBacklogParams name desc client) as [err|project client']
    eqn:Hparams.
  - unfold ret. intros H. inversion H; subst. left. split; [reflexivity |].
    unfold processBacklogParams in Hparams.
    destruct (negb (arg_truthy _)); inversion Hparams; reflexivity.
  - unfold bind.
    destruct (attempt client' _ _ _ _ w) as [[r|t] w1] eqn:Hrun.
    + unfold attemptBacklogGeneration in Hrun.
      destruct (attempt_loop_trace _ _ _ _ _ _ _ _ _ _ _ _ Hrun)
        as [tr [Htr Hl]].
      intros H. right. exists project, client', tr, (inl r).
      split; [reflexivity | split; [exact Hl | ]].
      destruct (gr_success r); unfold ret in H; inversion H; subst;
        split; [exact Htr | reflexivity | exact Htr | reflexivity].
    + unfold attemptBacklogGeneration in Hrun.
      destruct (attempt_loop_trace _ _ _ _ _ _ _ _ _ _ _ _ Hrun)
        as [tr [Htr Hl]].
      unfold ret. intros H. inversion H; subst.
      right. exists project, client', tr, (inr t).
      split; [reflexivity | split; [exact Hl | split; [exact Htr |]]].
      reflexivity.
Qed.


(** What leaves the adapter when the call of the client throws: the
    thrown value itself, but for the "no choices" error, which becomes a
    failed attempt, and for [undefined] and [null], whose [message] the
    [catch] cannot read. *)
Lemma callApi_client_throws c model msgs sch (w : world ClientState) t st' :
  chat_completions_create (client_state w) (backlog_request model msgs sch)
  = (inr t, st') ->
  fst (callApi (ArgObject c) model msgs sch w)
  = match t with
    | ThrownUndefined =>
        inr (Error "Cannot read properties of undefined (reading 'message')")
    | ThrownNull =>
        inr (Error "Cannot read properties of null (reading 'message')")
    | ThrownValue (Some m) =>
        if String.eqb m "Réponse API invalide: aucun choix retourné"
        then inl (ApiInvalid m)
        else inr t
    | ThrownValue None => inr t
    end.
Proof.
  intros Hcreate.
  unfold callApiForBacklog, try_catch, callApi_try. unfold bind at 1.
  unfold create. rewrite Hcreate.
  destruct t as [| |[m|]]; try reflexivity.
  unfold callApi_catch. fold no_choice.
  destruct (String.eqb m no_choice); reflexivity.
Qed.

(** C6, as amended. The promise of [generateBacklog] never rejects: with
    a client whose calls settle, as every client here, it resolves. An
    exception that leaves the try block of [processBacklog] is turned
    into the failure envelope whose message is the exception's message
    when it has a non-empty one, and the fixed fallback text otherwise;
    the world is left as the exception found it. This is the fate of
    every exception that leaves the adapter, at any attempt: the call
    that threw is the last. What leaves the adapter when the client
    throws is the thrown value itself, with three exceptions: the "no
    choices" error becomes a failed attempt, and [undefined] and [null]
    make the [catch] of the adapter throw the error of reading their
    [message], which is then the message of the envelope. *)
Theorem exceptions_become_failure_envelopes :
  forall name desc client (w : world ClientState),
    exists e w',
      generate name desc client w = (Resolved e, w')
      /\ (forall t w1,
             process_try name desc client w = (inr t, w1) ->
             w' = w1
             /\ e = {| success := false;
                       result := None;
                       error := Some {| err_message :=
                         match t with
                         | ThrownValue (Some m) =>
                             if String.eqb m "" then
                               "Une erreur est survenue lors de la génération du backlog"
                             else m
                         | _ =>
                             "Une erreur est survenue lors de la génération du backlog"
                         end |} |})
      /\ (forall before c rest t,
             calls w' = (calls w ++ before ++ c :: rest)%list ->
             cr_outcome c = inr t ->
             rest = []
             /\ e = {| success := false;
                       result := None;
                       error := Some {| err_message :=
                         match t with
                         | ThrownValue (Some m) =>
                             if String.eqb m "" then
                               "Une erreur est survenue lors de la génération du backlog"
                             else m
                         | _ =>
                             "Une erreur est survenue lors de la génération du backlog"
                         end |} |})
      /\ (forall c model msgs sch (w0 : world ClientState) t st',
             chat_completions_create (client_state w0)
               (backlog_request model msgs sch)
             = (inr t, st') ->
             let outcome :=
               match t with
               | ThrownUndefined =>
                   inr (Error
                     "Cannot read properties of undefined (reading 'message')")
               | ThrownNull =>
                   inr (Error
                     "Cannot read properties of null (reading 'message')")
               | ThrownValue (Some m) =>
                   if String.eqb m
                        "Réponse API invalide: aucun choix retourné"
                   then inl (ApiInvalid m)
                   else inr t
               | ThrownValue None => inr t
               end in
             exists w1,
               callApi (ArgObject c) model msgs sch w0 = (outcome, w1)
               /\ calls w1
                  = (calls w0
                     ++ [{| cr_messages := msgs;
                            cr_outcome := outcome |}])%list).
Proof.
  intros name desc client w.
  assert (Hboundary :
            exists e w',
              generate name desc client w = (Resolved e, w')
              /\ (forall t w1,
                     process_try name desc client w = (inr t, w1) ->
                     w' = w1
                     /\ e = failure
                              (message_or t
                                 "Une erreur est survenue lors de la génération du backlog"))).
  { unfold generateBacklog, processBacklog, try_catch.
    destruct (process_try name desc client w) as [[e|t] w1] eqn:Htry.
    - exists e, w1. split; [reflexivity |]. intros t w2 H. discriminate H.
    - unfold ret. eexists. eexists. split; [reflexivity |].
      intros t' w2 H. inversion H; subst. split; reflexivity. }
  destruct Hboundary as [e [w' [Hgen Hexn]]].
  exists e, w'. split; [exact Hgen | split; [exact Hexn | split]].
  - intros before c rest t Hcalls Hout.
    destruct (generate_cases _ _ _ _ _ _ Hgen)
      as [[Hw _] | [project [client' [tr [res [_ [Hl [Htr Hp]]]]]]]].
    + subst w'. rewrite <- (app_nil_r (calls w)) in Hcalls at 1.
      apply app_inv_head in Hcalls.
      exfalso. exact (nil_neq_app_cons _ _ _ Hcalls).
    + rewrite Htr in Hcalls. apply app_inv_head in Hcalls.
      destruct (trace_thrown_is_last _ _ _ _ _ _ Hl _ _ _ _ Hcalls Hout)
        as [Hrest Hres].
      split; [exact Hrest |].
      subst res. inversion Hp. reflexivity.
  - intros c model msgs sch w0 t st' Hcreate outcome.
    pose proof (callApi_client_throws c model msgs sch w0 t st' Hcreate)
      as Hout.
    fold outcome in Hout.
    destruct (callApi (ArgObject c) model msgs sch w0) as [o w1] eqn:Hcall.
    cbn [fst] in Hout. subst o.
    exists w1. split; [reflexivity |].
    exact (callApi_calls _ _ _ _ _ _ _ _ _ Hcall).
Qed.


(** X5. A successful envelope carries a backlog of the described shape:
    the data of the last adapter call of the run, which the validator
    accepted, returned after at most three calls. *)
Theorem success_carries_a_described_backlog :
  forall name desc client (w : world ClientState) e w',
    generate name desc client w = (Resolved e, w') ->
    success e = true ->
    exists b before msgs fc,
      result e = Some b
      /\ Shape.backlog_ok b = true
      /\ calls w'
         = (calls w ++ before
            ++ [{| cr_messages := msgs;
                   cr_outcome := inl (ApiValid b fc) |}])%list
      /\ length before <= 2.
Proof.
  intros name desc client w e w' Hgen Hs.
  destruct (generate_cases _ _ _ _ _ _ Hgen)
    as [[_ Hp] | [project [client' [tr [res [_ [Hl [Hcalls Hp]]]]]]]].
  - inversion Hp; subst. discriminate Hs.
  - inversion Hp as [He]. clear Hp.
    destruct res as [r|t]; [|subst e; discriminate Hs].
    destruct (gr_success r) eqn:Hr; [|subst e; discriminate Hs].
    destruct (trace_success_last _ _ _ _ _ _ Hl r eq_refl Hr)
      as [before [msgs [b [fc [Htr [Hres Hvalid]]]]]].
    exists b, before, msgs, fc.
    subst e. cbn [result]. split; [exact Hres |].
    split; [rewrite <- backlog_schema_ok; exact Hvalid |].
    split; [rewrite Hcalls, Htr; reflexivity |].
    destruct (trace_bounded _ _ _ _ _ _ Hl) as [Hlen _].
    rewrite Htr, length_app in Hlen. simpl in Hlen. lia.
Qed.

(** The error texts of the adapter are not empty. *)
Lemma callApi_error_nonempty client model msgs sch (w : world ClientState)
    err w' :
  callApi client model msgs sch w = (inl (ApiInvalid err), w') ->
  err <> "".
Proof.
  unfold callApiForBacklog, record_call, try_catch, callApi_try, bind,
    create.
  destruct client as [| |s|c]; cbn [callApi_catch throw];
    try (intros H; inversion H; fail).
  destruct (chat_completions_create (client_state w) _) as [[cmp|t] st].
  - destruct (choices cmp) as [[|ch chs]|]; unfold throw, ret;
      cbn [callApi_catch String.eqb];
      try (change (String.eqb no_choice no_choice) with true; unfold ret;
           intros H; inversion H; discriminate).
    destruct (ch_message ch) as [m|]; unfold throw, ret;
      try (intros H; inversion H; fail).
    destruct (rm_function_call m) as [fc|];
      try (intros H; inversion H; discriminate).
    destruct (JSON_parse (fc_arguments fc)); intros H; inversion H;
      discriminate.
  - destruct t as [| |[m|]]; cbn [callApi_catch]; unfold throw, ret;
      try (intros H; inversion H; fail).
    destruct (String.eqb m no_choice) eqn:Heq; intros H; inversion H.
    apply String.eqb_eq in Heq. subst. discriminate.
Qed.

Lemma attempt_loop_errors validate client model sch :
  forall n msgs last (w : world ClientState) res w' tr,
    loop n client model msgs last sch validate w = (res, w') ->
    calls w' = (calls w ++ tr)%list ->
    Forall (fun c => forall err,
                cr_outcome c = inl (ApiInvalid err) -> err <> "") tr.
Proof.
  induction n as [|n IH]; intros msgs last w res w' tr Hrun Hcalls.
  - simpl in Hrun. unfold ret in Hrun. inversion Hrun; subst.
    rewrite <- (app_nil_r (calls w')) in Hcalls at 1.
    apply app_inv_head in Hcalls. subst tr. constructor.
  - simpl in Hrun. unfold bind, attempt_body in Hrun. unfold bind in Hrun.
    destruct (callApi client model msgs sch w) as [o w1] eqn:Hcall.
    pose proof (callApi_calls _ _ _ _ _ _ _ _ _ Hcall) as Hone.
    assert (Hhead : forall err, o = inl (ApiInvalid err) -> err <> "").
    { intros err Ho. subst o.
      exact (callApi_error_nonempty _ _ _ _ _ _ _ Hcall). }
    assert (Hstep : forall m l,
               loop n client model m l sch validate w1 = (res, w') ->
               Forall (fun c => forall err,
                           cr_outcome c = inl (ApiInvalid err) -> err <> "")
                      tr).
    { intros m l Hloop.
      destruct (attempt_loop_trace _ _ _ _ _ _ _ _ _ _ _ _ Hloop)
        as [tr1 [Htr1 _]].
      rewrite Htr1, Hone, <- app_assoc in Hcalls.
      apply app_inv_head in Hcalls. subst tr.
      constructor; [exact Hhead | exact (IH _ _ _ _ _ _ Hloop Htr1)]. }
    assert (Hstop : w' = w1 ->
               Forall (fun c => forall err,
                           cr_outcome c = inl (ApiInvalid err) -> err <> "")
                      tr).
    { intros Hw. subst w'. rewrite Hone in Hcalls.
      apply app_inv_head in Hcalls. subst tr.
      constructor; [exact Hhead | constructor]. }
    destruct o as [[err|data fc]|t].
    + exact (Hstep _ _ Hrun).
    + unfold validateBacklog in Hrun.
      destruct (valid (validate data)); simpl in Hrun.
      * unfold ret in Hrun. inversion Hrun; subst. apply Hstop. reflexivity.
      * exact (Hstep _ _ Hrun).
    + inversion Hrun; subst. apply Hstop. reflexivity.
Qed.

Lemma Forall_flat_map_intro {A B : Type} (P : B -> Prop) (g : A -> list B)
    (l : list A) :
  (forall x, In x l -> Forall P (g x)) -> Forall P (flat_map g l).
Proof.
  intros H. induction l as [|a l IH]; simpl; [constructor |].
  apply Forall_app. split.
  - apply H. left. reflexivity.
  - apply IH. intros x Hx. apply H. right. exact Hx.
Qed.

(** Every violation has a message. *)
Lemma validate_messages_nonempty
    (f : string -> string -> json -> list error_object) :
  (forall r p d, Forall (fun e => message e <> "") (f r p d)) ->
  forall s p d, Forall (fun e => message e <> "") (validate f s p d).
Proof.
  intros Hf.
  induction s as [ty req props minI maxI itm pat enu rf IHprops IHitm]
    using schema_ind'.
  intros p d. cbn [validate].
  assert (Hty : Forall (fun e => message e <> "")
                  match ty with
                  | Some t => [violation p ("must be " ++ t)]
                  | None => []
                  end).
  { destruct ty; repeat constructor. discriminate. }
  assert (Hwrong : forall t,
             Forall (fun e => message e <> "")
               match ty with
               | Some t' =>
                   if String.eqb t' t then
                     match ty with
                     | Some t0 => [violation p ("must be " ++ t0)]
                     | None => []
                     end
                   else []
               | None => []
               end).
  { intros t. destruct ty as [t'|]; [|constructor].
    destruct (String.eqb t' t); [exact Hty | constructor]. }
  repeat (apply Forall_app; split).
  - destruct ty as [t|]; [|constructor].
    destruct (negb _ && negb _)%bool; [exact Hty | constructor].
  - destruct rf; [apply Hf | constructor].
  - destruct enu as [vs|]; [|constructor].
    destruct (existsb (json_equal d) vs); repeat constructor. discriminate.
  - destruct (is_some pat); [|constructor].
    destruct d; try apply Hwrong.
    destruct pat as [pt|]; [|constructor].
    destruct (RegExp.compile pt) as [r|];
      [destruct (RegExp.test r s) |]; repeat constructor; discriminate.
  - destruct (is_some minI || is_some maxI || is_some itm)%bool;
      [|constructor].
    destruct d as [| | | |l|]; try apply Hwrong.
    repeat (apply Forall_app; split).
    + destruct maxI as [n|]; [|constructor].
      destruct (n <? length l)%nat; repeat constructor. discriminate.
    + destruct minI as [n|]; [|constructor].
      destruct (length l <? n)%nat; repeat constructor. discriminate.
    + destruct itm as [si|]; [|constructor].
      apply Forall_flat_map_intro. intros ie _. apply IHitm.
  - destruct (is_some req || is_some props)%bool; [|constructor].
    destruct d as [| | | | |fs]; try apply Hwrong.
    apply Forall_app; split.
    + destruct req as [ks|]; [|constructor].
      apply Forall_flat_map_intro. intros k _.
      destruct (lookup k fs); repeat constructor. discriminate.
    + destruct props as [ps|]; [|constructor].
      apply Forall_flat_map_intro. intros ks Hin.
      destruct (lookup (fst ks) fs); [|constructor].
      rewrite Forall_forall in IHprops. apply (IHprops ks Hin).
Qed.

Lemma validate_refs_messages_nonempty root n :
  forall r p d,
    Forall (fun e => message e <> "") (validate_refs n root r p d).
Proof.
  induction n as [|n IH]; intros r p d; simpl.
  - repeat constructor. discriminate.
  - destruct (resolve root r);
      [apply validate_messages_nonempty; exact IH |].
    repeat constructor. discriminate.
Qed.

(** A rejected value has a first violation, with a message. *)
Lemma rejected_has_first_message root d :
  valid (Ajv.compile root d) = false ->
  exists first others,
    errors (Ajv.compile root d) = first :: others /\ message first <> "".
Proof.
  unfold Ajv.compile. cbn [valid errors]. intros Hinvalid.
  pose proof (validate_messages_nonempty _
                (validate_refs_messages_nonempty root (count_refs root))
                root "" d) as Hall.
  fold (errors_of root d) in Hall.
  destruct (errors_of root d) as [|first others]; [discriminate Hinvalid |].
  exists first, others. split; [reflexivity |].
  inversion Hall; assumption.
Qed.

Lemma last_known_failure_last validate tr c init :
  last_known_failure validate (tr ++ [c]) init = failure_of validate c.
Proof.
  unfold last_known_failure. rewrite fold_left_app. reflexivity.
Qed.

Lemma generate_errors_nonempty name desc client (w : world ClientState)
    p w' tr :
  generate name desc client w = (p, w') ->
  calls w' = (calls w ++ tr)%list ->
  Forall (fun c => forall err,
              cr_outcome c = inl (ApiInvalid err) -> err <> "") tr.
Proof.
  unfold generateBacklog, processBacklog, try_catch, processBacklog_try.
  destruct (processBacklogParams name desc client) as [err|project client'].
  - unfold ret. intros H Hcalls. inversion H; subst.
    rewrite <- (app_nil_r (calls w')) in Hcalls at 1.
    apply app_inv_head in Hcalls. subst tr. constructor.
  - unfold bind.
    destruct (attempt client' _ _ _ _ w) as [[r|t] w1] eqn:Hrun;
      unfold attemptBacklogGeneration in Hrun; intros H Hcalls.
    + assert (w' = w1) by
        (destruct (gr_success r); unfold ret in H; inversion H;
         reflexivity).
      subst w1. exact (attempt_loop_errors _ _ _ _ _ _ _ _ _ _ _ Hrun Hcalls).
    + unfold ret in H. inversion H; subst.
      exact (attempt_loop_errors _ _ _ _ _ _ _ _ _ _ _ Hrun Hcalls).
Qed.

(** X6. When every adapter call of a [generateBacklog] run failed (and
    there was one), there were three, and the envelope carries the
    message of the first error of the last attempt, the adapter's error
    text or the first violation, which is never empty: the generic
    "Validation du backlog échouée" text is not what the caller gets. *)
Theorem exhausted_run_reports_last_failure :
  forall name desc client (w : world ClientState) e w' tr,
    generate name desc client w = (Resolved e, w') ->
    calls w' = (calls w ++ tr)%list ->
    tr <> [] ->
    forallb (attempt_failed (Ajv.compile createBacklogSchema)) tr = true ->
    length tr = 3
    /\ exists first others,
         last_known_failure (Ajv.compile createBacklogSchema) tr None
         = Some (first :: others)
         /\ message first <> ""
         /\ e = {| success := false; result := None;
                   error := Some {| err_message := message first |} |}.
Proof.
  intros name desc client w e w' tr Hgen Hcalls Hne Hfailed.
  pose proof (generate_errors_nonempty _ _ _ _ _ _ _ Hgen Hcalls) as Herrs.
  destruct (generate_cases _ _ _ _ _ _ Hgen)
    as [[Hw _] | [project [client' [tr' [res [_ [Hl [Hcalls' Hp]]]]]]]].
  - subst w'. rewrite <- (app_nil_r (calls w)) in Hcalls at 1.
    apply app_inv_head in Hcalls. subst tr. exfalso. apply Hne. reflexivity.
  - rewrite Hcalls' in Hcalls. apply app_inv_head in Hcalls. subst tr'.
    destruct (trace_bounded _ _ _ _ _ _ Hl) as [_ Hall].
    destruct (Hall Hfailed) as [Hlen Hres]. split; [exact Hlen |].
    subst res. cbn [gr_success gr_lastValidationErrors] in Hp.
    destruct (exists_last Hne) as [tr0 [c Htr]]. subst tr.
    rewrite last_known_failure_last in Hp |- *.
    rewrite forallb_app in Hfailed. apply andb_prop in Hfailed.
    destruct Hfailed as [_ Hc]. cbn [forallb] in Hc.
    rewrite andb_true_r in Hc.
    apply Forall_app in Herrs. destruct Herrs as [_ Herr].
    inversion Herr as [|c0 l0 Hcerr _]. subst c0 l0.
    unfold attempt_failed in Hc. unfold failure_of in Hp |- *.
    destruct (cr_outcome c) as [[err|data fc]|t]; [| |discriminate Hc].
    + exists {| instancePath := None; message := err |}, [].
      split; [reflexivity |]. cbn [message].
      split; [exact (Hcerr err eq_refl) |].
      inversion Hp as [He]. unfold first_message_or. cbn [message].
      destruct (String.eqb err "") eqn:Heq; [|reflexivity].
      apply String.eqb_eq in Heq. exfalso.
      exact (Hcerr err eq_refl Heq).
    + apply negb_true_iff in Hc.
      destruct (rejected_has_first_message _ _ Hc)
        as [first [others [Herrors Hmsg]]].
      exists first, others. rewrite Herrors in Hp |- *.
      split; [reflexivity | split; [exact Hmsg |]].
      inversion Hp as [He]. unfold first_message_or.
      destruct (String.eqb (message first) "") eqn:Heq; [|reflexivity].
      apply String.eqb_eq in Heq. exfalso. exact (Hmsg Heq).
Qed.

End RunFacts.

Section CallCount.

Context {S : Type}.
Variable client_create : S -> request -> (completion + thrown) * S.
Variable JSON_parse : string -> json + string.

Lemma callApi_counted c model msgs sch (w : world (S * nat)) o w1 :
  callApiForBacklog (S * nat) (counted client_create) JSON_parse
    (ArgObject c) model msgs sch w = (o, w1) ->
  snd (client_state w1) = Datatypes.S (snd (client_state w)).
Proof.
  unfold callApiForBacklog, record_call, try_catch, callApi_try, bind,
    create, counted.
  destruct (client_create (fst (client_state w)) _) as [[cmp|t] s'].
  - destruct (choices cmp) as [[|ch chs]|]; unfold throw, ret;
      cbn [callApi_catch];
      try (change (String.eqb no_choice no_choice) with true; unfold ret;
           intros H; inversion H; reflexivity).
    destruct (ch_message ch) as [m|]; unfold throw, ret; cbn [callApi_catch];
      try (intros H; inversion H; reflexivity).
    destruct (rm_function_call m) as [fc|];
      try (intros H; inversion H; reflexivity).
    destruct (JSON_parse (fc_arguments fc)); intros H; inversion H;
      reflexivity.
  - destruct t as [| |[m|]]; cbn [callApi_catch]; unfold throw, ret;
      try (intros H; inversion H; reflexivity).
    destruct (String.eqb m no_choice); intros H; inversion H; reflexivity.
Qed.

Lemma attempt_loop_counted validate c model sch :
  forall n msgs last (w : world (S * nat)) res w',
    attempt_loop (S * nat) (counted client_create) JSON_parse n
      (ArgObject c) model msgs last sch validate w = (res, w') ->
    exists tr,
      calls w' = (calls w ++ tr)%list
      /\ snd (client_state w') = snd (client_state w) + length tr
      /\ length tr <= n.
Proof.
  induction n as [|n IH]; intros msgs last w res w' Hrun.
  - simpl in Hrun. unfold ret in Hrun. inversion Hrun; subst.
    exists []. rewrite app_nil_r. simpl. split; [reflexivity | split; lia].
  - simpl in Hrun. unfold bind, attempt_body in Hrun. unfold bind in Hrun.
    destruct (callApiForBacklog _ _ _ _ model msgs sch w) as [o w1]
      eqn:Hcall.
    pose proof (callApi_calls _ _ _ _ _ _ _ _ _ Hcall) as Hone.
    pose proof (callApi_counted _ _ _ _ _ _ _ Hcall) as Hcount.
    assert (Hstep : forall m l,
               attempt_loop (S * nat) (counted client_create) JSON_parse n
                 (ArgObject c) model m l sch validate w1 = (res, w') ->
               exists tr,
                 calls w' = (calls w ++ tr)%list
                 /\ snd (client_state w') = snd (client_state w) + length tr
                 /\ length tr <= Datatypes.S n).
    { intros m l Hloop.
      destruct (IH _ _ _ _ _ Hloop) as [tr [Htr [Hn Hlen]]].
      exists ({| cr_messages := msgs; cr_outcome := o |} :: tr).
      rewrite Htr, Hone, <- app_assoc. simpl.
      split; [reflexivity | split; lia]. }
    assert (Hstop : w' = w1 ->
               exists tr,
                 calls w' = (calls w ++ tr)%list
                 /\ snd (client_state w') = snd (client_state w) + length tr
                 /\ length tr <= Datatypes.S n).
    { intros Hw. subst w'.
      exists [{| cr_messages := msgs; cr_outcome := o |}].
      simpl. split; [exact Hone | split; lia]. }
    destruct o as [[err|data fc]|t].
    + exact (Hstep _ _ Hrun).
    + unfold validateBacklog in Hrun.
      destruct (valid (validate data)); simpl in Hrun.
      * unfold ret in Hrun. inversion Hrun; subst. apply Hstop. reflexivity.
      * exact (Hstep _ _ Hrun).
    + inversion Hrun; subst. apply Hstop. reflexivity.
Qed.

(** X7. Each adapter call makes exactly one call of the client: against
    a client that counts its calls, the count grows by the number of
    adapter calls of the run, at most three. *)
Theorem one_client_call_per_attempt :
  forall validate c model msgs sch (w : world (S * nat)) res w',
    attemptBacklogGeneration (S * nat) (counted client_create) JSON_parse
      (ArgObject c) model msgs sch validate w = (res, w') ->
    exists tr,
      calls w' = (calls w ++ tr)%list
      /\ snd (client_state w') = snd (client_state w) + length tr
      /\ length tr <= 3.
Proof.
  intros validate c model msgs sch w res w' Hrun.
  exact (attempt_loop_counted _ _ _ _ _ _ _ _ _ _ Hrun).
Qed.

End CallCount.

(* ================================================================== *)
(** ** The client and the model *)

(** X8. The key decides the model. With an OpenAI key the client is
    built without base address and the model is gpt-4.1, whatever the
    GROQ key; with a GROQ key only, the client is built on the GROQ
    address and the model is llama3-70b-8192; without any key
    [initializeClient] throws. The SDK is taken to keep a base address it
    is given, and to leave none or one on openai.com when it is given
    none. *)
Theorem model_follows_the_key :
  forall (OpenAI : client_options -> client_object),
    (forall key url,
        baseURL (OpenAI {| opt_apiKey := key; opt_baseURL := Some url |})
        = Some url) ->
    (forall key,
        match baseURL (OpenAI {| opt_apiKey := key; opt_baseURL := None |})
        with
        | Some url => includes "openai.com" url
        | None => true
        end = true) ->
    forall openaiKey groqKey,
      if key_truthy openaiKey then
        exists c, initializeClient OpenAI openaiKey groqKey = inl c
                  /\ determineModel (ArgObject c) = "gpt-4.1"
      else if key_truthy groqKey then
        exists c, initializeClient OpenAI openaiKey groqKey = inl c
                  /\ determineModel (ArgObject c) = "llama3-70b-8192"
      else
        initializeClient OpenAI openaiKey groqKey
        = inr (Error "No API key provided for OpenAI or GROQ").
Proof.
  intros OpenAI Hgiven Hdefault openaiKey groqKey.
  assert (Hopenai : forall k,
             determineModel
               (ArgObject (OpenAI {| opt_apiKey := k; opt_baseURL := None |}))
             = "gpt-4.1").
  { intros k. unfold determineModel. specialize (Hdefault k).
    destruct (baseURL _) as [url|]; [rewrite Hdefault |]; reflexivity. }
  assert (Hgroq : forall g,
             determineModel
               (ArgObject
                  (OpenAI {| opt_apiKey := g;
                             opt_baseURL :=
                               Some "https://api.groq.com/openai/v1" |}))
             = "llama3-70b-8192").
  { intros g. unfold determineModel. rewrite Hgiven. reflexivity. }
  unfold initializeClient, key_truthy.
  destruct openaiKey as [k|], groqKey as [g|];
    try destruct (negb (String.eqb k ""));
    try destruct (negb (String.eqb g ""));
    eauto.
Qed.

Lemma model_follows_the_key_witness :
  exists c,
    initializeClient
      (fun o =>
         {| baseURL :=
              match opt_baseURL o with
              | Some url => Some url
              | None => Some "https://api.openai.com/v1"
              end |})
      (Some "") (Some "gsk_key") = inl c
    /\ determineModel (ArgObject c) = "llama3-70b-8192".
Proof.
  apply (model_follows_the_key
           (fun o =>
              {| baseURL :=
                   match opt_baseURL o with
                   | Some url => Some url
                   | None => Some "https://api.openai.com/v1"
                   end |})
           (fun key url => eq_refl) (fun key => eq_refl)
           (Some "") (Some "gsk_key")).
Defined.

(* ================================================================== *)
(** ** Slugs *)

Section SlugFacts.

Variable lower_unicode : string -> string.

Local Abbreviation createSlug := (Renderer.createSlug lower_unicode).

Lemma replace_runs_slug s :
  forall in_run,
    Renderer.slug_text in_run (Renderer.replace_runs in_run s) = true.
Proof.
  induction s as [|c s IH]; intros in_run; [reflexivity |].
  cbn [Renderer.replace_runs].
  destruct (Renderer.is_alnum c) eqn:Hc.
  - cbn [Renderer.slug_text]. rewrite Hc. apply IH.
  - destruct in_run.
    + apply IH.
    + cbn [Renderer.slug_text].
      change (Renderer.is_alnum "-") with false. cbn. apply IH.
Qed.

(** X9. A slug is made of the letters a to z, digits and single hyphens:
    no separator, no dot, no upper case, and no two hyphens in a row. *)
Theorem slug_is_safe :
  forall text s,
    createSlug text = inl s -> Renderer.slug_text false s = true.
Proof.
  intros text s. unfold Renderer.createSlug.
  destruct (Renderer.js_or text (Some (JStr "item"))) as [[| | |s0| |]|];
    try discriminate.
  intros H. inversion H; subst. apply replace_runs_slug.
Qed.

Lemma alnum_is_ascii c :
  Renderer.is_alnum c = true -> (nat_of_ascii c <? 128)%nat = true.
Proof.
  unfold Renderer.is_alnum. intros H. apply Nat.ltb_lt.
  apply orb_prop in H.
  destruct H as [H|H]; apply andb_prop in H; destruct H as [_ H];
    apply Nat.leb_le in H; lia.
Qed.

Lemma alnum_is_lower c :
  Renderer.is_alnum c = true -> Renderer.lower_ascii c = c.
Proof.
  unfold Renderer.is_alnum, Renderer.lower_ascii. intros H.
  destruct ((65 <=? nat_of_ascii c)%nat && (nat_of_ascii c <=? 90)%nat)%bool
    eqn:Hupper; [|reflexivity].
  exfalso. apply andb_prop in Hupper. destruct Hupper as [H1 H2].
  apply Nat.leb_le in H1, H2.
  apply orb_prop in H.
  destruct H as [H|H]; apply andb_prop in H; destruct H as [H3 H4];
    apply Nat.leb_le in H3, H4; lia.
Qed.

Lemma digit_is_alnum c :
  Shape.is_digit c = true -> Renderer.is_alnum c = true.
Proof.
  unfold Shape.is_digit, Renderer.is_alnum. intros H. rewrite H.
  apply orb_true_r.
Qed.

Lemma slug_is_ascii s :
  forall b, Renderer.slug_text b s = true -> Renderer.is_ascii s = true.
Proof.
  unfold Renderer.is_ascii.
  induction s as [|c s IH]; intros b H; [reflexivity |].
  cbn [Renderer.slug_text] in H. cbn [list_ascii_of_string forallb].
  destruct (Renderer.is_alnum c) eqn:Hc.
  - rewrite (alnum_is_ascii c Hc). exact (IH _ H).
  - apply andb_prop in H. destruct H as [H Hs].
    apply andb_prop in H. destruct H as [Heq _].
    apply Ascii.eqb_eq in Heq. subst c. exact (IH _ Hs).
Qed.

Lemma slug_is_lower s :
  forall b, Renderer.slug_text b s = true ->
            Renderer.map_string Renderer.lower_ascii s = s.
Proof.
  induction s as [|c s IH]; intros b H; [reflexivity |].
  cbn [Renderer.slug_text] in H. cbn [Renderer.map_string].
  destruct (Renderer.is_alnum c) eqn:Hc.
  - rewrite (alnum_is_lower c Hc), (IH _ H). reflexivity.
  - apply andb_prop in H. destruct H as [H Hs].
    apply andb_prop in H. destruct H as [Heq _].
    apply Ascii.eqb_eq in Heq. subst c. rewrite (IH _ Hs). reflexivity.
Qed.

Lemma slug_is_kept s :
  forall b, Renderer.slug_text b s = true -> Renderer.replace_runs b s = s.
Proof.
  induction s as [|c s IH]; intros b H; [reflexivity |].
  cbn [Renderer.slug_text] in H. cbn [Renderer.replace_runs].
  destruct (Renderer.is_alnum c) eqn:Hc.
  - rewrite (IH _ H). reflexivity.
  - apply andb_prop in H. destruct H as [H Hs].
    apply andb_prop in H. destruct H as [Heq Hb].
    apply Ascii.eqb_eq in Heq. subst c.
    destruct b; [discriminate Hb |]. rewrite (IH _ Hs). reflexivity.
Qed.

(** X10. [createSlug] leaves a slug as it is, so slugging twice is
    slugging once; and a missing or falsy text gives [item]. *)
Theorem slug_of_slug :
  (forall s,
      Renderer.slug_text false s = true -> s <> "" ->
      createSlug (Some (JStr s)) = inl s)
  /\ (forall text,
         MarkdownGenerator.truthy_opt text = false ->
         createSlug text = inl "item").
Proof.
  split.
  - intros s Hslug Hne.
    unfold Renderer.createSlug, Renderer.js_or.
    cbn [MarkdownGenerator.truthy_opt truthy].
    destruct (String.eqb s "") eqn:Heq;
      [apply String.eqb_eq in Heq; contradiction |].
    cbn [negb]. unfold Renderer.toLowerCase.
    rewrite (slug_is_ascii s _ Hslug), (slug_is_lower s _ Hslug),
      (slug_is_kept s _ Hslug).
    reflexivity.
  - intros text Hfalsy. unfold Renderer.createSlug, Renderer.js_or.
    rewrite Hfalsy. reflexivity.
Qed.

Lemma story_id_slug id :
  Shape.story_id_ok id = true ->
  exists a b c,
    id = String "U" (String "S" (String a (String b (String c ""))))
    /\ createSlug (Some (JStr id))
       = inl (String "u" (String "s" (String a (String b (String c ""))))).
Proof.
  destruct id as [|u [|s' [|a [|b [|c [|x rest]]]]]]; try discriminate.
  cbn [Shape.story_id_ok]. intros H.
  repeat (apply andb_prop in H; destruct H as [H ?H]).
  apply Ascii.eqb_eq in H. apply Ascii.eqb_eq in H3. subst u s'.
  exists a, b, c. split; [reflexivity |].
  unfold Renderer.createSlug, Renderer.js_or, Renderer.toLowerCase,
    Renderer.is_ascii.
  cbn [MarkdownGenerator.truthy_opt truthy String.eqb negb
       list_ascii_of_string forallb].
  rewrite !(alnum_is_ascii _ (digit_is_alnum _ H0)),
    !(alnum_is_ascii _ (digit_is_alnum _ H1)),
    !(alnum_is_ascii _ (digit_is_alnum _ H2)).
  change ((nat_of_ascii "U" <? 128)%nat) with true.
  change ((nat_of_ascii "S" <? 128)%nat) with true.
  cbn [andb Renderer.map_string].
  rewrite (alnum_is_lower _ (digit_is_alnum _ H0)),
    (alnum_is_lower _ (digit_is_alnum _ H1)),
    (alnum_is_lower _ (digit_is_alnum _ H2)).
  change (Renderer.lower_ascii "U") with "u"%char.
  change (Renderer.lower_ascii "S") with "s"%char.
  cbn [Renderer.replace_runs].
  change (Renderer.is_alnum "u") with true.
  change (Renderer.is_alnum "s") with true.
  rewrite (digit_is_alnum _ H0), (digit_is_alnum _ H1),
    (digit_is_alnum _ H2).
  reflexivity.
Qed.

(** X11. The slug of a story id of the schema is the id in lower case,
    and two such ids with the same slug are the same id: stories with
    different ids never share a file name. *)
Theorem story_ids_have_distinct_slugs :
  forall id id',
    Shape.story_id_ok id = true ->
    Shape.story_id_ok id' = true ->
    (exists s, createSlug (Some (JStr id)) = inl s
               /\ s = Renderer.map_string Renderer.lower_ascii id)
    /\ (createSlug (Some (JStr id)) = createSlug (Some (JStr id')) ->
        id = id').
Proof.
  intros id id' Hid Hid'.
  destruct (story_id_slug id Hid) as [a [b [c [Heq Hslug]]]].
  destruct (story_id_slug id' Hid') as [a' [b' [c' [Heq' Hslug']]]].
  split.
  - eexists. split; [exact Hslug |]. subst id.
    cbn [Shape.story_id_ok] in Hid.
    repeat (apply andb_prop in Hid; destruct Hid as [Hid ?H]).
    cbn [Renderer.map_string].
    rewrite (alnum_is_lower _ (digit_is_alnum _ H)),
      (alnum_is_lower _ (digit_is_alnum _ H0)),
      (alnum_is_lower _ (digit_is_alnum _ H1)).
    reflexivity.
  - rewrite Hslug, Hslug'. intros H. inversion H; subst. reflexivity.
Qed.

End SlugFacts.

(* ================================================================== *)
(** ** The markdown generator *)

Lemma field_ok_inv fs k ok :
  Shape.field_ok fs k ok = true ->
  exists v, lookup k fs = Some v /\ ok v = true.
Proof.
  unfold Shape.field_ok. destruct (lookup k fs) as [v|]; [eauto |].
  discriminate.
Qed.

Lemma string_field_inv fs k :
  Shape.field_ok fs k Shape.is_string = true ->
  exists s, lookup k fs = Some (JStr s).
Proof.
  intros H. apply field_ok_inv in H. destruct H as [v [Hv Hs]].
  destruct v; try discriminate Hs. eauto.
Qed.

Lemma strings_field_inv fs k min :
  Shape.field_ok fs k (Shape.strings_ok min) = true ->
  exists l, lookup k fs = Some (JArr l)
            /\ min <= length l
            /\ forallb Shape.is_string l = true.
Proof.
  intros H. apply field_ok_inv in H. destruct H as [v [Hv Hs]].
  destruct v as [| | | |l|]; try discriminate Hs.
  cbn [Shape.strings_ok] in Hs. apply andb_prop in Hs.
  destruct Hs as [Hlen Hall]. apply Nat.leb_le in Hlen. eauto.
Qed.

(** The fields of a story of the described shape. *)
Lemma story_ok_fields fs :
  Shape.story_ok (JObj fs) = true ->
  exists id title description criteria tasks priority,
    lookup "id" fs = Some (JStr id)
    /\ Shape.story_id_ok id = true
    /\ lookup "title" fs = Some (JStr title)
    /\ lookup "description" fs = Some (JStr description)
    /\ lookup "acceptance_criteria" fs = Some (JArr criteria)
    /\ forallb Shape.is_string criteria = true
    /\ lookup "tasks" fs = Some (JArr tasks)
    /\ forallb Shape.is_string tasks = true
    /\ 2 <= length tasks
    /\ lookup "priority" fs = Some (JStr priority)
    /\ truthy (JStr priority) = true.
Proof.
  unfold Shape.story_ok. intros H.
  repeat (apply andb_prop in H; destruct H as [H ?H]).
  apply field_ok_inv in H. destruct H as [vid [Hid Hidok]].
  destruct vid as [| | |id| |]; try discriminate Hidok.
  destruct (string_field_inv _ _ H4) as [title Htitle].
  destruct (string_field_inv _ _ H3) as [description Hdescription].
  destruct (strings_field_inv _ _ _ H2) as [criteria [Hc [_ Hcs]]].
  destruct (strings_field_inv _ _ _ H1) as [tasks [Ht [Hlen Hts]]].
  apply field_ok_inv in H0. destruct H0 as [vp [Hp Hpok]].
  destruct vp as [| | |priority| |]; try discriminate Hpok.
  exists id, title, description, criteria, tasks, priority.
  repeat (split; [assumption |]).
  cbn [Shape.priority_ok] in Hpok. cbn [truthy].
  destruct (String.eqb priority "") eqn:Hempty; [|reflexivity].
  apply String.eqb_eq in Hempty. subst priority. discriminate Hpok.
Qed.

(** Induction on parsed values, through arrays. *)
Lemma json_array_ind (P : json -> Prop) :
  P JNull ->
  (forall b, P (JBool b)) ->
  (forall n, P (JNum n)) ->
  (forall s, P (JStr s)) ->
  (forall l, Forall P l -> P (JArr l)) ->
  (forall fs, P (JObj fs)) ->
  forall d, P d.
Proof.
  intros HN HB HZ HS HA HO.
  exact (fix go (d : json) : P d :=
           match d with
           | JNull => HN
           | JBool b => HB b
           | JNum n => HZ n
           | JStr s => HS s
           | JArr l =>
               HA l ((fix all (l : list json) : Forall P l :=
                        match l with
                        | [] => Forall_nil P
                        | x :: r => Forall_cons x (go x) (all r)
                        end) l)
           | JObj fs => HO fs
           end).
Qed.

Lemma rbind_inl {A B : Type} (r : A + thrown) (k : A -> B + thrown) b :
  Renderer.rbind r k = inl b -> exists a, r = inl a /\ k a = inl b.
Proof. destruct r as [a|t]; [eauto | discriminate]. Qed.

Lemma all_values_returns {A B : Type} (f : A -> B + thrown) l :
  Forall (fun x => exists b, f x = inl b) l ->
  exists l', Renderer.all_values (map f l) = inl l'.
Proof.
  induction 1 as [|x l [b Hb] _ [l' IH]]; cbn [map Renderer.all_values].
  - eauto.
  - rewrite Hb, IH. cbn [Renderer.rbind]. eauto.
Qed.

Lemma all_values_throws {A B : Type} (f : A -> B + thrown) t l :
  Forall (fun x => (exists b, f x = inl b) \/ f x = inr t) l ->
  Exists (fun x => f x = inr t) l ->
  Renderer.all_values (map f l) = inr t.
Proof.
  induction 1 as [|x l Hx Hl IH]; intros Hex; cbn [map Renderer.all_values].
  - inversion Hex.
  - destruct Hx as [[b Hb] | Ht].
    + rewrite Hb. cbn [Renderer.rbind].
      inversion Hex as [? ? Hhere | ? ? Hlater]; subst.
      * rewrite Hb in Hhere. discriminate Hhere.
      * rewrite (IH Hlater). reflexivity.
    + rewrite Ht. reflexivity.
Qed.

Lemma throws_errors_rbind {A B : Type} (r : A + thrown)
    (k : A -> B + thrown) :
  Renderer.throws_errors r ->
  (forall a, Renderer.throws_errors (k a)) ->
  Renderer.throws_errors (Renderer.rbind r k).
Proof.
  intros Hr Hk t H. destruct r as [a|t0].
  - exact (Hk a t H).
  - inversion H; subst. exact (Hr t eq_refl).
Qed.

Lemma throws_errors_inl {A : Type} (a : A) :
  Renderer.throws_errors (inl a : A + thrown).
Proof. intros t H. discriminate H. Qed.

Lemma throws_errors_inr {A : Type} m :
  Renderer.throws_errors (inr (Error m) : A + thrown).
Proof. intros t H. inversion H. eauto. Qed.

Lemma throws_errors_all_values {A B : Type} (f : A -> B + thrown) l :
  (forall x, Renderer.throws_errors (f x)) ->
  Renderer.throws_errors (Renderer.all_values (map f l)).
Proof.
  intros Hf. induction l as [|x l IH]; cbn [map Renderer.all_values].
  - apply throws_errors_inl.
  - apply throws_errors_rbind; [apply Hf |]. intros a.
    apply throws_errors_rbind; [exact IH |]. intros l'.
    apply throws_errors_inl.
Qed.

Section RendererFacts.

Variable FsState : Type.
Variable fs_ensureDir : FsState -> string -> (unit + thrown) * FsState.
Variable fs_writeFile :
  FsState -> string -> string -> (unit + thrown) * FsState.
Variable path_join : string -> string -> string.
Variable JSON_stringify : json -> string.
Variable number_to_string : Z -> string.
Variable lower_unicode : string -> string.
Variable to_number_positive : string -> bool.
Variable stack_of : thrown -> option string.
Variable cwd : string.

Local Abbreviation to_string := (Renderer.to_string number_to_string).
Local Abbreviation text := (Renderer.text number_to_string).
Local Abbreviation element_text :=
  (fun x : json => match x with JNull => inl "" | _ => to_string x end).
Local Abbreviation array_join := (Renderer.array_join number_to_string).
Local Abbreviation positive :=
  (Renderer.positive number_to_string to_number_positive).
Local Abbreviation length_positive :=
  (Renderer.length_positive number_to_string to_number_positive).
Local Abbreviation checklist := (Renderer.checklist number_to_string).
Local Abbreviation dependencies_text :=
  (Renderer.dependencies_text number_to_string to_number_positive).
Local Abbreviation formatUserStory :=
  (Renderer.formatUserStory number_to_string to_number_positive).
Local Abbreviation dependencies_ok :=
  (Renderer.dependencies_ok number_to_string to_number_positive).
Local Abbreviation dependencies_lack_join :=
  (Renderer.dependencies_lack_join number_to_string to_number_positive).
Local Abbreviation render :=
  (Renderer.generateMarkdownFilesFromResult FsState fs_ensureDir
     fs_writeFile path_join JSON_stringify number_to_string lower_unicode
     to_number_positive stack_of cwd).

(** The conversion of a value to a text returns on the printable values,
    and throws on the others. *)
Lemma to_string_cases d :
  if Renderer.printable d then exists s, to_string d = inl s
  else to_string d = inr Renderer.cannot_convert.
Proof.
  induction d as [|b|n|s|l IH|fs] using json_array_ind;
    cbn [Renderer.printable Renderer.to_string]; eauto.
  - destruct b; eauto.
  - assert (Helement :
              Forall (fun x =>
                        if Renderer.printable x
                        then exists s, element_text x = inl s
                        else element_text x = inr Renderer.cannot_convert)
                     l).
    { apply Forall_impl with (2 := IH). intros x Hx.
      destruct x; cbn [Renderer.printable] in *; eauto. }
    destruct (forallb Renderer.printable l) eqn:Hall.
    + destruct (all_values_returns element_text l) as [texts Htexts].
      { rewrite forallb_forall in Hall. rewrite Forall_forall in *.
        intros x Hin. specialize (Helement x Hin).
        rewrite (Hall x Hin) in Helement. exact Helement. }
      rewrite Htexts. cbn [Renderer.rbind]. eauto.
    + rewrite (all_values_throws element_text Renderer.cannot_convert l);
        [reflexivity | |].
      * apply Forall_impl with (2 := Helement). intros x Hx.
        destruct (Renderer.printable x); [left | right]; exact Hx.
      * apply Exists_exists.
        destruct (forallb Renderer.printable l) eqn:Hall'; 
          [discriminate Hall |].
        clear Hall. induction l as [|x l IHl]; [discriminate Hall' |].
        cbn [forallb] in Hall'. inversion Helement; subst.
        inversion IH; subst.
        destruct (Renderer.printable x) eqn:Hx.
        -- cbn [andb] in Hall'.
           destruct (IHl H4 H2 Hall') as [y [Hin Hy]].
           exists y. split; [right; exact Hin | exact Hy].
        -- exists x. split; [left; reflexivity | assumption].
  - destruct (lookup "toString" fs); eauto.
Qed.

Lemma element_text_cases x :
  if Renderer.printable x then exists s, element_text x = inl s
  else element_text x = inr Renderer.cannot_convert.
Proof.
  pose proof (to_string_cases x) as H.
  destruct x; cbn [Renderer.printable] in *; eauto.
Qed.

Lemma array_join_cases sep l :
  if forallb Renderer.printable l
  then exists s, array_join sep l = inl s
  else array_join sep l = inr Renderer.cannot_convert.
Proof.
  unfold Renderer.array_join.
  destruct (forallb Renderer.printable l) eqn:Hall.
  - destruct (all_values_returns element_text l) as [texts Htexts].
    { rewrite forallb_forall in Hall. apply Forall_forall.
      intros x Hin. pose proof (element_text_cases x) as Hx.
      rewrite (Hall x Hin) in Hx. exact Hx. }
    rewrite Htexts. cbn [Renderer.rbind]. eauto.
  - rewrite (all_values_throws element_text Renderer.cannot_convert l);
      [reflexivity | |].
    + apply Forall_forall. intros x _.
      pose proof (element_text_cases x) as Hx.
      destruct (Renderer.printable x); [left | right]; exact Hx.
    + apply Exists_exists.
      induction l as [|x l IHl]; [discriminate Hall |].
      cbn [forallb] in Hall.
      destruct (Renderer.printable x) eqn:Hx.
      * destruct (IHl Hall) as [y [Hin Hy]].
        exists y. split; [right; exact Hin | exact Hy].
      * exists x. split; [left; reflexivity |].
        pose proof (element_text_cases x) as Hc. rewrite Hx in Hc. exact Hc.
Qed.

Lemma to_string_errors d : Renderer.throws_errors (to_string d).
Proof.
  intros t H. pose proof (to_string_cases d) as Hc.
  destruct (Renderer.printable d).
  - destruct Hc as [s Hs]. rewrite Hs in H. discriminate H.
  - rewrite Hc in H. inversion H. eexists. reflexivity.
Qed.

Lemma text_errors o : Renderer.throws_errors (text o).
Proof.
  destruct o as [d|]; [apply to_string_errors | apply throws_errors_inl].
Qed.

Lemma array_join_errors sep l : Renderer.throws_errors (array_join sep l).
Proof.
  intros t H. pose proof (array_join_cases sep l) as Hc.
  destruct (forallb Renderer.printable l).
  - destruct Hc as [s Hs]. rewrite Hs in H. discriminate H.
  - rewrite Hc in H. inversion H. eexists. reflexivity.
Qed.

(** A comparison with zero throws nothing but the error of the
    conversion. *)
Lemma positive_throws v t :
  positive v = inr t -> t = Renderer.cannot_convert.
Proof.
  unfold Renderer.positive.
  destruct v as [|b|n|s|l|fs]; try discriminate;
    match goal with
    | |- Renderer.rbind (Renderer.to_string _ ?d) _ = _ -> _ =>
        pose proof (to_string_cases d) as Hc;
        destruct (Renderer.printable d);
        [destruct Hc as [s Hs]; rewrite Hs; discriminate
        | rewrite Hc; intros H; inversion H; reflexivity]
    end.
Qed.

Lemma strings_print l :
  forallb Shape.is_string l = true ->
  exists texts, Renderer.all_values (map to_string l) = inl texts.
Proof.
  intros Hall. apply all_values_returns. apply Forall_forall.
  intros x Hin. rewrite forallb_forall in Hall. specialize (Hall x Hin).
  destruct x; try discriminate Hall. cbn [Renderer.to_string]. eauto.
Qed.

Lemma checklist_strings name l :
  forallb Shape.is_string l = true ->
  exists out, checklist name (Some (JArr l)) = inl out.
Proof.
  intros Hall. destruct (strings_print l Hall) as [texts Htexts].
  cbn [Renderer.checklist]. rewrite Htexts. cbn [Renderer.rbind]. eauto.
Qed.

Lemma checklist_errors name items :
  Renderer.throws_errors (checklist name items).
Proof.
  unfold Renderer.checklist.
  destruct items as [[| | | |l|]|];
    try (intros t H; inversion H; eexists; reflexivity).
  apply throws_errors_rbind.
  - apply throws_errors_all_values. apply to_string_errors.
  - intros texts. apply throws_errors_inl.
Qed.

(** What the dependencies of a story make of the [if] on them. *)
Lemma dependencies_text_cases story :
  if dependencies_ok story then
    exists s,
      dependencies_text (MarkdownGenerator.get story "dependencies") = inl s
  else
    dependencies_text (MarkdownGenerator.get story "dependencies")
    = inr (if dependencies_lack_join story
           then Renderer.not_a_function "story.dependencies.join"
           else Renderer.cannot_convert).
Proof.
  unfold Renderer.dependencies_ok, Renderer.dependencies_lack_join,
    Renderer.dependencies_text.
  destruct (MarkdownGenerator.get story "dependencies")
    as [[|b|n|s|l|fs]|]; cbn [truthy Renderer.length_positive];
    eauto.
  - destruct b; cbn [Renderer.rbind]; eauto.
  - destruct (negb (Z.eqb n 0)); cbn [Renderer.rbind]; eauto.
  - destruct s as [|c s]; cbn [String.eqb negb Renderer.rbind]; eauto.
  - destruct l as [|x l]; [cbn [forallb length Nat.ltb Nat.leb
                                 Renderer.rbind]; eauto |].
    change (0 <? length (x :: l))%nat with true. cbn [Renderer.rbind].
    pose proof (array_join_cases ", " (x :: l)) as Hjoin.
    destruct (forallb Renderer.printable (x :: l)).
    + destruct Hjoin as [joined Hjoined]. rewrite Hjoined.
      cbn [Renderer.rbind]. eauto.
    + rewrite Hjoin. reflexivity.
  - destruct (lookup "length" fs) as [v|]; [|cbn [Renderer.rbind]; eauto].
    destruct (positive v) as [[|]|t] eqn:Hpositive;
      cbn [Renderer.rbind]; eauto.
    rewrite (positive_throws _ _ Hpositive). reflexivity.
Qed.

Lemma dependencies_text_errors o :
  Renderer.throws_errors (dependencies_text o).
Proof.
  unfold Renderer.dependencies_text.
  destruct o as [d|]; [|apply throws_errors_inl].
  destruct (truthy d); [|apply throws_errors_inl].
  apply throws_errors_rbind.
  - intros t H.
    destruct d as [|b|n|s|l|fs]; try discriminate H.
    cbn [Renderer.length_positive] in H.
    destruct (lookup "length" fs) as [v|]; [|discriminate H].
    rewrite (positive_throws _ _ H). eexists. reflexivity.
  - intros [|]; [|apply throws_errors_inl].
    destruct d; try apply throws_errors_inr.
    apply throws_errors_rbind; [apply array_join_errors |].
    intros joined. apply throws_errors_inl.
Qed.

Lemma formatUserStory_errors story :
  Renderer.throws_errors (formatUserStory story).
Proof.
  unfold Renderer.formatUserStory.
  destruct story;
    try apply throws_errors_inr;
    repeat first
      [ apply throws_errors_inl
      | apply text_errors
      | apply dependencies_text_errors
      | apply checklist_errors
      | apply throws_errors_rbind; [| intros ?]
      | match goal with
        | |- Renderer.throws_errors (if ?c then _ else _) => destruct c
        end ].
Qed.

(** [formatUserStory] on a story of the described shape: only the
    dependencies can stop it. *)
Lemma formatUserStory_described story :
  Shape.story_ok story = true ->
  if dependencies_ok story then exists out, formatUserStory story = inl out
  else formatUserStory story
       = inr (if dependencies_lack_join story
              then Renderer.not_a_function "story.dependencies.join"
              else Renderer.cannot_convert).
Proof.
  intros Hok.
  destruct story as [| | | | |fs]; try discriminate Hok.
  destruct (story_ok_fields fs Hok)
    as [id [title [description [criteria [tasks [priority
        [Hid [_ [Htitle [Hdescription [Hc [Hcs [Ht [Hts [_
        [Hp Hptruthy]]]]]]]]]]]]]]]].
  pose proof (dependencies_text_cases (JObj fs)) as Hdeps.
  destruct (checklist_strings "acceptance_criteria" criteria Hcs)
    as [ctext Hctext].
  destruct (checklist_strings "tasks" tasks Hts) as [ttext Httext].
  unfold Renderer.formatUserStory.
  cbn [MarkdownGenerator.get] in Hdeps |- *.
  rewrite Hid, Htitle, Hdescription, Hp, Hc, Ht, Hctext, Httext.
  cbn [Renderer.text Renderer.to_string Renderer.rbind
       MarkdownGenerator.truthy_opt].
  rewrite Hptruthy. cbn [Renderer.rbind].
  destruct (dependencies_ok (JObj fs)).
  - destruct Hdeps as [deps Hdeps]. rewrite Hdeps.
    cbn [Renderer.rbind]. eauto.
  - rewrite Hdeps. reflexivity.
Qed.

Lemma checklist_inl name items out :
  checklist name items = inl out -> exists l, items = Some (JArr l).
Proof.
  unfold Renderer.checklist.
  destruct items as [[| | | |l|]|]; try discriminate. eauto.
Qed.

(** [formatUserStory] returns only on a story with an array of
    criteria. *)
Lemma formatUserStory_inl story out :
  formatUserStory story = inl out ->
  exists l, MarkdownGenerator.get story "acceptance_criteria"
            = Some (JArr l).
Proof.
  unfold Renderer.formatUserStory. intros H.
  destruct story; try discriminate H;
    (do 5 (apply rbind_inl in H; destruct H as [? [_ H]]);
     apply rbind_inl in H; destruct H as [c [Hc _]];
     exact (checklist_inl _ _ _ Hc)).
Qed.

(** X12. [formatUserStory] returns a text for a story of the described
    shape whose [dependencies], which the schema leaves free, are
    missing, an array of printable values, or a value without [length]
    above zero. When they are a non-empty string or an object with a
    [length] above zero, it throws for want of a [join]; in the other
    cases, an array holding an object with a field [toString] among
    them, it throws the error of converting an object. A story that is
    [null] or has no array under [acceptance_criteria] makes it throw as
    well. *)
Theorem formatUserStory_on_described_stories :
  (forall story,
      Shape.story_ok story = true ->
      if dependencies_ok story then
        exists out, formatUserStory story = inl out
      else
        formatUserStory story
        = inr (Error
                 (if dependencies_lack_join story
                  then "story.dependencies.join is not a function"
                  else "Cannot convert object to primitive value")))
  /\ (forall story,
         (forall l, MarkdownGenerator.get story "acceptance_criteria"
                    <> Some (JArr l)) ->
         exists m, formatUserStory story = inr (Error m)).
Proof.
  split.
  - intros story Hok.
    pose proof (formatUserStory_described story Hok) as H.
    destruct (dependencies_ok story); [exact H |].
    rewrite H. destruct (dependencies_lack_join story); reflexivity.
  - intros story Hno.
    destruct (formatUserStory story) as [out|t] eqn:Hrun.
    + exfalso.
      destruct (formatUserStory_inl story out Hrun) as [l Hl].
      exact (Hno l Hl).
    + destruct (formatUserStory_errors story t Hrun) as [m Hm].
      subst t. eauto.
Qed.

Local Abbreviation F := (Renderer.F FsState).
Local Abbreviation ensureDir := (Renderer.ensureDir FsState fs_ensureDir).
Local Abbreviation writeFile := (Renderer.writeFile FsState fs_writeFile).
Local Abbreviation generate_try :=
  (Renderer.generate_try FsState fs_ensureDir fs_writeFile path_join
     JSON_stringify number_to_string lower_unicode to_number_positive).

(** The handler of the [catch] of the generator. *)
Local Abbreviation report :=
  (fun error : thrown =>
     Renderer.fbind FsState
       (Renderer.lift FsState (Renderer.message_of error))
       (fun m =>
          Renderer.fbind FsState
            (Renderer.stderr_write FsState
               ("[DEBUG] Error generating Markdown files: "
                ++ Renderer.text_of_message m ++ newline))
            (fun _ =>
               Renderer.fret FsState
                 {| Renderer.rr_success := false;
                    Renderer.rr_files := None;
                    Renderer.rr_error :=
                      Some {| Renderer.re_message := m;
                              Renderer.re_stack := stack_of error |} |}))).

(** The generator on a directory that is a string. *)
Lemma render_in_directory r outputDir (w : Renderer.fs_world FsState) :
  render r (Renderer.DirString outputDir) w
  = match Renderer.validateBacklogResult r with
    | Some None =>
        Renderer.fthrow FsState
          (Renderer.cannot_read "undefined" "message") w
    | Some (Some err) =>
        Renderer.fbind FsState
          (Renderer.stderr_write FsState
             ("[ERROR] (markdown-generator) " ++ err_message err
              ++ newline))
          (fun _ =>
             Renderer.fret FsState
               {| Renderer.rr_success := false;
                  Renderer.rr_files := None;
                  Renderer.rr_error :=
                    Some {| Renderer.re_message := Some (err_message err);
                            Renderer.re_stack := None |} |}) w
    | None =>
        Renderer.ftry FsState
          (generate_try
             match r with
             | Some e => result e
             | None => None
             end
             (path_join outputDir ".agile-planner-backlog"))
          report w
    end.
Proof.
  unfold Renderer.generateMarkdownFilesFromResult.
  destruct (Renderer.validateBacklogResult r) as [[err|]|]; reflexivity.
Qed.

Lemma render_failure_envelope outputDir (w : Renderer.fs_world FsState)
    e m :
  success e = false ->
  error e = Some {| err_message := m |} ->
  render (Some e) (Renderer.DirString outputDir) w
  = (inl {| Renderer.rr_success := false;
            Renderer.rr_files := None;
            Renderer.rr_error :=
              Some {| Renderer.re_message := Some m;
                      Renderer.re_stack := None |} |},
     {| Renderer.fs_state := Renderer.fs_state w;
        Renderer.ops :=
          Renderer.ops w
          ++ [Renderer.Stderr
                ("[ERROR] (markdown-generator) " ++ m ++ newline)] |}).
Proof.
  intros Hs He.
  rewrite render_in_directory. unfold Renderer.validateBacklogResult.
  rewrite Hs, He. reflexivity.
Qed.

Section WithGenerator.

Context {ClientState : Type}.
Variable chat_completions_create :
  ClientState -> request -> (completion + thrown) * ClientState.
Variable JSON_parse : string -> json + string.

(** X13. The generator takes every failure of [generateBacklog] without
    touching a file: on a failure envelope that [generateBacklog]
    resolved with, it writes one line to the error stream, makes no
    directory and writes no file, and returns the failure with the same
    message. *)
Theorem failure_of_generateBacklog_writes_no_file :
  forall name desc client (gw : world ClientState) e gw' outputDir
         (w : Renderer.fs_world FsState),
    generateBacklog ClientState chat_completions_create JSON_parse
      name desc client gw = (Resolved e, gw') ->
    success e = false ->
    exists m,
      error e = Some {| err_message := m |}
      /\ render (Some e) (Renderer.DirString outputDir) w
         = (inl {| Renderer.rr_success := false;
                   Renderer.rr_files := None;
                   Renderer.rr_error :=
                     Some {| Renderer.re_message := Some m;
                             Renderer.re_stack := None |} |},
            {| Renderer.fs_state := Renderer.fs_state w;
               Renderer.ops :=
                 Renderer.ops w
                 ++ [Renderer.Stderr
                       ("[ERROR] (markdown-generator) " ++ m ++ newline)] |}).
Proof.
  intros name desc client gw e gw' outputDir w Hgen Hs.
  assert (Hfail : exists m, e = failure m).
  { destruct (generate_cases _ _ _ _ _ _ _ _ Hgen)
      as [[_ Hp] | [project [client' [tr [res [_ [_ [_ Hp]]]]]]]];
      inversion Hp as [He]; [eauto |].
    destruct res as [r|t]; [|eauto].
    destruct (gr_success r); [|eauto].
    subst e. discriminate Hs. }
  destruct Hfail as [m He]. subst e. exists m.
  split; [reflexivity |].
  apply render_failure_envelope; reflexivity.
Qed.

End WithGenerator.

(** The exceptions of the pure steps are errors. *)
Lemma createSlug_errors text :
  Renderer.throws_errors (Renderer.createSlug lower_unicode text).
Proof.
  unfold Renderer.createSlug.
  destruct (Renderer.js_or text _) as [[| | |s| |]|];
    intros t H; inversion H; eexists; reflexivity.
Qed.

Local Abbreviation throws_values := (Renderer.throws_values FsState).

Lemma tv_ret {A : Type} (a : A) : throws_values (Renderer.fret FsState a).
Proof. intros w t w' H. discriminate H. Qed.

Lemma tv_throw {A : Type} msg :
  throws_values (@Renderer.fthrow FsState A (ThrownValue msg)).
Proof. intros w t w' H. inversion H. eauto. Qed.

Lemma tv_lift {A : Type} (r : A + thrown) :
  Renderer.throws_errors r -> throws_values (Renderer.lift FsState r).
Proof.
  intros Hr w t w' H. unfold Renderer.lift in H. inversion H; subst.
  destruct (Hr t eq_refl) as [m Hm]. subst t. eexists. reflexivity.
Qed.

Lemma tv_bind {A B : Type} (m : F A) (k : A -> F B) :
  throws_values m -> (forall a, throws_values (k a)) ->
  throws_values (Renderer.fbind FsState m k).
Proof.
  intros Hm Hk w t w' H. unfold Renderer.fbind in H.
  destruct (m w) as [[a|t0] w0] eqn:Hrun.
  - exact (Hk a _ _ _ H).
  - inversion H; subst. exact (Hm _ _ _ Hrun).
Qed.

Lemma tv_try {A : Type} (m : F A) (h : thrown -> F A) :
  throws_values m ->
  (forall msg, throws_values (h (ThrownValue msg))) ->
  throws_values (Renderer.ftry FsState m h).
Proof.
  intros Hm Hh w t w' H. unfold Renderer.ftry in H.
  destruct (m w) as [[a|t0] w0] eqn:Hrun; [discriminate H |].
  destruct (Hm _ _ _ Hrun) as [msg Ht]. subst t0.
  exact (Hh msg _ _ _ H).
Qed.

Lemma tv_stderr text :
  throws_values (Renderer.stderr_write FsState text).
Proof. intros w t w' H. discriminate H. Qed.

Section ValuesOnly.

(** The file system throws nothing but values with a readable
    [message]. *)
Hypothesis ensureDir_values :
  forall st path t st',
    fs_ensureDir st path = (inr t, st') -> exists msg, t = ThrownValue msg.
Hypothesis writeFile_values :
  forall st path content t st',
    fs_writeFile st path content = (inr t, st') ->
    exists msg, t = ThrownValue msg.

Lemma tv_ensureDir path : throws_values (ensureDir path).
Proof.
  intros w t w' H. unfold Renderer.ensureDir in H.
  destruct (fs_ensureDir (Renderer.fs_state w) path) as [r st] eqn:Hrun.
  inversion H; subst. exact (ensureDir_values _ _ _ _ Hrun).
Qed.

Lemma tv_writeFile path content :
  throws_values (writeFile path content).
Proof.
  intros w t w' H. unfold Renderer.writeFile in H.
  destruct (fs_writeFile (Renderer.fs_state w) path content) as [r st]
    eqn:Hrun.
  inversion H; subst. exact (writeFile_values _ _ _ _ _ Hrun).
Qed.

(** The steps of a block, one after the other; [known] closes the calls
    of the functions already treated. *)
Ltac tv_steps known :=
  repeat first
    [ apply tv_ret
    | apply tv_throw
    | apply tv_stderr
    | apply tv_ensureDir
    | apply tv_writeFile
    | known
    | apply tv_lift;
      first [ apply text_errors
            | apply to_string_errors
            | apply formatUserStory_errors
            | apply createSlug_errors ]
    | apply tv_bind; [| intros ?]
    | match goal with
      | |- Renderer.throws_values _ (match ?x with _ => _ end) => destruct x
      end ].

Lemma tv_write_tasks dir tasks :
  forall idx,
    throws_values
      (Renderer.write_tasks FsState fs_writeFile path_join number_to_string
         dir tasks idx).
Proof.
  induction tasks as [|task rest IH]; intros idx; cbn [Renderer.write_tasks].
  - apply tv_ret.
  - tv_steps ltac:(apply IH).
Qed.

Lemma tv_generateUserStoryFiles story dir :
  throws_values
    (Renderer.generateUserStoryFiles FsState fs_ensureDir fs_writeFile
       path_join number_to_string lower_unicode to_number_positive
       story dir).
Proof.
  unfold Renderer.generateUserStoryFiles.
  tv_steps ltac:(apply tv_write_tasks).
Qed.

Lemma tv_each_story stories dir :
  throws_values
    (Renderer.each_story FsState fs_ensureDir fs_writeFile path_join
       number_to_string lower_unicode to_number_positive stories dir).
Proof.
  induction stories as [|story rest IH]; cbn [Renderer.each_story].
  - apply tv_ret.
  - apply tv_bind; [apply tv_generateUserStoryFiles | intros _; exact IH].
Qed.

Lemma tv_generateIteration iteration dir :
  throws_values
    (Renderer.generateIteration FsState fs_ensureDir fs_writeFile path_join
       number_to_string lower_unicode to_number_positive iteration dir).
Proof.
  unfold Renderer.generateIteration.
  tv_steps ltac:(apply tv_each_story).
Qed.

Lemma tv_each_iteration iterations dir :
  throws_values
    (Renderer.each_iteration FsState fs_ensureDir fs_writeFile path_join
       number_to_string lower_unicode to_number_positive iterations dir).
Proof.
  induction iterations as [|it rest IH]; cbn [Renderer.each_iteration].
  - apply tv_ret.
  - apply tv_bind; [apply tv_generateIteration | intros _; exact IH].
Qed.

Lemma tv_saveRawBacklog backlog dir :
  throws_values
    (Renderer.saveRawBacklog FsState fs_writeFile path_join JSON_stringify
       backlog dir).
Proof.
  unfold Renderer.saveRawBacklog. apply tv_try.
  - apply tv_bind; [apply tv_writeFile |]. intros _.
    apply tv_bind; [apply tv_stderr | intros _; apply tv_ret].
  - intros msg.
    apply tv_bind; [apply tv_lift; intros t H; discriminate H |].
    intros m. apply tv_bind; [apply tv_stderr | intros _; apply tv_throw].
Qed.

Lemma tv_generate_try backlog dir :
  throws_values (generate_try backlog dir).
Proof.
  unfold Renderer.generate_try, Renderer.generateEpicFiles,
    Renderer.generateMvpFiles, Renderer.generateIterationFiles.
  tv_steps ltac:(first [ apply tv_each_story
                       | apply tv_each_iteration
                       | apply tv_saveRawBacklog ]).
Qed.

(** The [try] of the generator returns, whatever its body does. *)
Lemma try_returns backlog dir (w : Renderer.fs_world FsState) :
  exists res w',
    Renderer.ftry FsState (generate_try backlog dir) report w
    = (inl res, w').
Proof.
  unfold Renderer.ftry.
  destruct (generate_try backlog dir w) as [[res|t] w0] eqn:Hrun;
    [eauto |].
  destruct (tv_generate_try _ _ _ _ _ Hrun) as [msg Ht]. subst t.
  eexists. eexists. reflexivity.
Qed.

(** X14. With a file system that throws errors with a readable message,
    the generator rejects in two cases only: an output directory that is
    given and is no string, which [path.join] refuses before anything
    else is looked at; and a failure envelope that has no error, whose
    message the generator reads. In every other case, with a string for
    the directory or none, it returns a result: what the file system, the
    printing of a value or the formatting of a story throws is caught
    and returned as a failure. *)
Theorem generator_rejects_in_two_cases_only :
  forall r outputDir (w : Renderer.fs_world FsState),
    match outputDir with
    | Renderer.DirOther received =>
        render r outputDir w
        = (inr (Error
                  ("The " ++ quote ++ "path" ++ quote
                   ++ " argument must be of type string. Received "
                   ++ received)),
           w)
    | _ =>
        match r with
        | Some e =>
            if negb (success e) && negb (Ajv.is_some (error e)) then
              render r outputDir w
              = (inr (Error
                   "Cannot read properties of undefined (reading 'message')"),
                 w)
            else exists res w', render r outputDir w = (inl res, w')
        | None => exists res w', render r outputDir w = (inl res, w')
        end
    end.
Proof.
  intros r outputDir w.
  assert (Hstring :
            forall dir,
              match r with
              | Some e =>
                  if negb (success e) && negb (Ajv.is_some (error e)) then
                    render r (Renderer.DirString dir) w
                    = (inr (Error
                         "Cannot read properties of undefined (reading 'message')"),
                       w)
                  else exists res w',
                      render r (Renderer.DirString dir) w = (inl res, w')
              | None =>
                  exists res w',
                    render r (Renderer.DirString dir) w = (inl res, w')
              end).
  { intros dir. destruct r as [e|].
    - rewrite render_in_directory. unfold Renderer.validateBacklogResult.
      destruct (success e); cbn [negb andb].
      + apply try_returns.
      + destruct (error e) as [err|]; cbn [Ajv.is_some negb].
        * eexists. eexists. reflexivity.
        * reflexivity.
    - eexists. eexists. reflexivity. }
  destruct outputDir as [|dir|received].
  - exact (Hstring cwd).
  - exact (Hstring dir).
  - reflexivity.
Qed.

End ValuesOnly.

Local Abbreviation writes_exactly := (Renderer.writes_exactly FsState).

Lemma writes_app a b :
  Renderer.writes (a ++ b) = Renderer.writes a + Renderer.writes b.
Proof.
  induction a as [|[p|p c|x] a IH]; simpl; rewrite ?IH; reflexivity.
Qed.

Lemma we_ret {A : Type} (a : A) (P : A -> Prop) :
  P a -> writes_exactly (Renderer.fret FsState a) P 0.
Proof.
  intros HP w. exists a, w, []. rewrite app_nil_r.
  repeat split. exact HP.
Qed.

Lemma we_lift {A : Type} (a : A) (P : A -> Prop) :
  P a -> writes_exactly (Renderer.lift FsState (inl a)) P 0.
Proof. exact (we_ret a P). Qed.

Lemma we_stderr text :
  writes_exactly (Renderer.stderr_write FsState text) (fun _ => True) 0.
Proof.
  intros w. eexists. eexists. exists [Renderer.Stderr text].
  repeat split.
Qed.

Lemma we_bind {A B : Type} (m : F A) (k : A -> F B)
    (P : A -> Prop) (Q : B -> Prop) n1 n2 :
  writes_exactly m P n1 ->
  (forall a, P a -> writes_exactly (k a) Q n2) ->
  writes_exactly (Renderer.fbind FsState m k) Q (n1 + n2).
Proof.
  intros Hm Hk w.
  destruct (Hm w) as [a [w1 [new1 [Hrun [Hops [HP Hn1]]]]]].
  destruct (Hk a HP w1) as [b [w2 [new2 [Hrun2 [Hops2 [HQ Hn2]]]]]].
  exists b, w2, (new1 ++ new2)%list.
  unfold Renderer.fbind. rewrite Hrun.
  split; [exact Hrun2 |].
  split; [rewrite Hops2, Hops, app_assoc; reflexivity |].
  split; [exact HQ | rewrite writes_app; lia].
Qed.

Lemma we_try {A : Type} (m : F A) (h : thrown -> F A) (P : A -> Prop) n :
  writes_exactly m P n -> writes_exactly (Renderer.ftry FsState m h) P n.
Proof.
  intros Hm w.
  destruct (Hm w) as [a [w1 [new1 [Hrun Hrest]]]].
  exists a, w1, new1. unfold Renderer.ftry. rewrite Hrun.
  split; [reflexivity | exact Hrest].
Qed.

(** A step that only returns a value. *)
Lemma we_step {A B : Type} (r : A + thrown) (k : A -> F B)
    (Q : B -> Prop) n a :
  r = inl a ->
  writes_exactly (k a) Q n ->
  writes_exactly (Renderer.fbind FsState (Renderer.lift FsState r) k) Q n.
Proof.
  intros Hr Hk. subst r.
  change n with (0 + n).
  apply (we_bind _ _ (fun x => x = a)); [apply we_lift; reflexivity |].
  intros x Hx. subst x. exact Hk.
Qed.

Section NeverFails.

(** The file system never fails. *)
Hypothesis ensureDir_ok : forall st path, fst (fs_ensureDir st path) = inl tt.
Hypothesis writeFile_ok :
  forall st path content, fst (fs_writeFile st path content) = inl tt.

Lemma we_ensureDir path :
  writes_exactly (ensureDir path) (fun _ => True) 0.
Proof.
  intros w. unfold Renderer.ensureDir.
  pose proof (ensureDir_ok (Renderer.fs_state w) path) as Hok.
  destruct (fs_ensureDir (Renderer.fs_state w) path) as [r st].
  simpl in Hok. subst r.
  eexists. eexists. exists [Renderer.EnsureDir path]. repeat split.
Qed.

Lemma we_writeFile path content :
  writes_exactly (writeFile path content) (fun _ => True) 1.
Proof.
  intros w. unfold Renderer.writeFile.
  pose proof (writeFile_ok (Renderer.fs_state w) path content) as Hok.
  destruct (fs_writeFile (Renderer.fs_state w) path content) as [r st].
  simpl in Hok. subst r.
  eexists. eexists. exists [Renderer.WriteFile path content]. repeat split.
Qed.

Lemma we_write_tasks dir tasks :
  forallb Shape.is_string tasks = true ->
  forall idx,
    writes_exactly
      (Renderer.write_tasks FsState fs_writeFile path_join number_to_string
         dir tasks idx)
      (fun _ => True) (length tasks).
Proof.
  induction tasks as [|task rest IH]; intros Hall idx;
    cbn [Renderer.write_tasks].
  - apply we_ret. exact I.
  - cbn [forallb] in Hall. apply andb_prop in Hall.
    destruct Hall as [Htask Hrest].
    destruct task as [| | |s| |]; try discriminate Htask.
    apply (we_step _ _ _ _ s); [reflexivity |].
    change (length (JStr s :: rest)) with (1 + length rest).
    apply (we_bind _ _ (fun _ => True)); [apply we_writeFile |].
    intros _ _. apply IH. exact Hrest.
Qed.

Lemma createSlug_of_id id title :
  Shape.story_id_ok id = true ->
  exists slug,
    Renderer.createSlug lower_unicode
      (Renderer.js_or (Some (JStr id)) title)
    = inl slug.
Proof.
  intros Hidok.
  unfold Renderer.createSlug, Renderer.js_or.
  cbn [MarkdownGenerator.truthy_opt truthy].
  destruct (negb (String.eqb id "")) eqn:Hne.
  - cbn [MarkdownGenerator.truthy_opt truthy]. rewrite Hne. eauto.
  - apply negb_false_iff in Hne. apply String.eqb_eq in Hne. subst id.
    discriminate Hidok.
Qed.

Lemma we_generateUserStoryFiles story dir :
  Shape.story_ok story = true ->
  dependencies_ok story = true ->
  writes_exactly
    (Renderer.generateUserStoryFiles FsState fs_ensureDir fs_writeFile
       path_join number_to_string lower_unicode to_number_positive
       story dir)
    (fun _ => True) (Renderer.story_files story).
Proof.
  intros Hok Hdeps.
  pose proof (formatUserStory_described story Hok) as Hformat.
  rewrite Hdeps in Hformat. destruct Hformat as [out Hout].
  destruct story as [| | | | |fs]; try discriminate Hok.
  destruct (story_ok_fields fs Hok)
    as [id [title [description [criteria [tasks [priority
        [Hid [Hidok [_ [_ [_ [_ [Ht [Hts [Hlen _]]]]]]]]]]]]]]].
  destruct (createSlug_of_id id (lookup "title" fs) Hidok) as [slug Hslug].
  unfold Renderer.generateUserStoryFiles, Renderer.story_files.
  cbn [MarkdownGenerator.get]. rewrite Hid, Ht.
  apply (we_step _ _ _ _ slug); [exact Hslug |].
  apply (we_step _ _ _ _ out); [exact Hout |].
  change (1 + length tasks) with (1 + (0 + length tasks)).
  apply (we_bind _ _ (fun _ => True)); [apply we_writeFile |].
  intros _ _.
  destruct (0 <? length tasks)%nat eqn:Hpos;
    [|apply Nat.ltb_ge in Hpos; lia].
  apply (we_bind _ _ (fun _ => True)); [apply we_ensureDir |].
  intros _ _. apply we_write_tasks. exact Hts.
Qed.

Lemma we_each_story stories dir :
  forallb Shape.story_ok stories = true ->
  forallb dependencies_ok stories = true ->
  writes_exactly
    (Renderer.each_story FsState fs_ensureDir fs_writeFile path_join
       number_to_string lower_unicode to_number_positive stories dir)
    (fun _ => True) (list_sum (map Renderer.story_files stories)).
Proof.
  induction stories as [|story rest IH]; intros Hok Hdeps;
    cbn [Renderer.each_story map list_sum].
  - apply we_ret. exact I.
  - cbn [forallb] in Hok, Hdeps.
    apply andb_prop in Hok. destruct Hok as [Hs Hrest].
    apply andb_prop in Hdeps. destruct Hdeps as [Hd Hdrest].
    apply (we_bind _ _ (fun _ => True));
      [exact (we_generateUserStoryFiles story dir Hs Hd) |].
    intros _ _. exact (IH Hrest Hdrest).
Qed.

Lemma stories_ok_elements min max v :
  Shape.stories_ok min max v = true ->
  exists l, v = JArr l /\ min <= length l
            /\ forallb Shape.story_ok l = true.
Proof.
  destruct v as [| | | |l|]; try discriminate.
  cbn [Shape.stories_ok]. intros H.
  apply andb_prop in H. destruct H as [H Hall].
  apply andb_prop in H. destruct H as [Hmin _].
  apply Nat.leb_le in Hmin. eauto.
Qed.

(** The text of a string, or of the string that stands for it when it
    is empty. *)
Lemma text_of_string_or s fallback :
  exists out,
    text (Renderer.js_or (Some (JStr s)) (Some (JStr fallback))) = inl out.
Proof.
  unfold Renderer.js_or.
  destruct (MarkdownGenerator.truthy_opt (Some (JStr s)));
    cbn [Renderer.text Renderer.to_string]; eauto.
Qed.

Lemma we_generateIteration iteration dir :
  Shape.iteration_ok iteration = true ->
  forallb dependencies_ok
    (Renderer.elements (MarkdownGenerator.get iteration "stories")) = true ->
  writes_exactly
    (Renderer.generateIteration FsState fs_ensureDir fs_writeFile path_join
       number_to_string lower_unicode to_number_positive iteration dir)
    (fun _ => True) (Renderer.iteration_files iteration).
Proof.
  intros Hok Hdeps.
  destruct iteration as [| | | | |fs]; try discriminate Hok.
  unfold Shape.iteration_ok in Hok.
  apply andb_prop in Hok. destruct Hok as [Hok Hstories].
  apply andb_prop in Hok. destruct Hok as [Hname Hgoal].
  destruct (string_field_inv _ _ Hname) as [name Hn].
  destruct (string_field_inv _ _ Hgoal) as [goal Hg].
  apply field_ok_inv in Hstories. destruct Hstories as [vs [Hs Hsok]].
  destruct (stories_ok_elements _ _ _ Hsok) as [l [Hvs [Hlen Hall]]].
  subst vs.
  unfold Renderer.generateIteration, Renderer.iteration_files,
    Renderer.stories_files.
  cbn [MarkdownGenerator.get] in Hdeps |- *.
  rewrite Hs in Hdeps |- *. rewrite Hn, Hg.
  cbn [Renderer.elements] in Hdeps.
  assert (Hslug : exists slug,
             Renderer.createSlug lower_unicode (Some (JStr name))
             = inl slug).
  { unfold Renderer.createSlug, Renderer.js_or.
    destruct (MarkdownGenerator.truthy_opt (Some (JStr name))); eauto. }
  destruct Hslug as [slug Hslug].
  destruct (text_of_string_or name "Iteration") as [title Htitle].
  apply (we_step _ _ _ _ slug); [exact Hslug |].
  change (1 + list_sum (map Renderer.story_files l))
    with (0 + (0 + (1 + (0 + list_sum (map Renderer.story_files l))))).
  apply (we_bind _ _ (fun _ => True)); [apply we_ensureDir |].
  intros _ _.
  apply (we_step _ _ _ _ title); [exact Htitle |].
  apply (we_bind _ _ (fun _ => True)).
  { destruct (MarkdownGenerator.truthy_opt (Some (JStr goal))).
    - apply (we_step _ _ _ _ goal); [reflexivity |]. apply we_ret. exact I.
    - apply we_ret. exact I. }
  intros content _.
  apply (we_bind _ _ (fun _ => True)); [apply we_writeFile |].
  intros _ _.
  destruct (0 <? length l)%nat eqn:Hpos;
    [|apply Nat.ltb_ge in Hpos; lia].
  apply (we_bind _ _ (fun _ => True)); [apply we_ensureDir |].
  intros _ _. exact (we_each_story l _ Hall Hdeps).
Qed.

Lemma we_each_iteration iterations dir :
  forallb Shape.iteration_ok iterations = true ->
  forallb
    (fun iteration =>
       forallb dependencies_ok
         (Renderer.elements (MarkdownGenerator.get iteration "stories")))
    iterations = true ->
  writes_exactly
    (Renderer.each_iteration FsState fs_ensureDir fs_writeFile path_join
       number_to_string lower_unicode to_number_positive iterations dir)
    (fun _ => True) (list_sum (map Renderer.iteration_files iterations)).
Proof.
  induction iterations as [|it rest IH]; intros Hok Hdeps;
    cbn [Renderer.each_iteration map list_sum].
  - apply we_ret. exact I.
  - cbn [forallb] in Hok, Hdeps.
    apply andb_prop in Hok. destruct Hok as [Hi Hrest].
    apply andb_prop in Hdeps. destruct Hdeps as [Hd Hdrest].
    apply (we_bind _ _ (fun _ => True));
      [exact (we_generateIteration it dir Hi Hd) |].
    intros _ _. exact (IH Hrest Hdrest).
Qed.

(** The files of the epic, for an epic of the described shape. *)
Lemma we_generateEpicFiles efs dir :
  Shape.epic_ok (JObj efs) = true ->
  writes_exactly
    (Renderer.generateEpicFiles FsState fs_ensureDir fs_writeFile path_join
       number_to_string (JObj efs) dir)
    (fun epicsDir => epicsDir = path_join dir "epics") 1.
Proof.
  intros Hok. unfold Shape.epic_ok in Hok.
  apply andb_prop in Hok. destruct Hok as [Htitle Hdescription].
  destruct (string_field_inv _ _ Htitle) as [title Ht].
  destruct (string_field_inv _ _ Hdescription) as [description Hd].
  destruct (text_of_string_or description "No description provided.")
    as [dtext Hdtext].
  unfold Renderer.generateEpicFiles.
  cbn [MarkdownGenerator.get]. rewrite Ht, Hd.
  change 1 with (0 + (1 + 0)).
  apply (we_bind _ _ (fun _ => True)); [apply we_ensureDir |].
  intros _ _.
  apply (we_step _ _ _ _ title); [reflexivity |].
  apply (we_step _ _ _ _ dtext); [exact Hdtext |].
  apply (we_bind _ _ (fun _ => True)); [apply we_writeFile |].
  intros _ _. apply we_ret. reflexivity.
Qed.

(** The parts of a backlog of the described shape. *)
Lemma backlog_ok_fields fs :
  Shape.backlog_ok (JObj fs) = true ->
  exists efs mvp its,
    lookup "epic" fs = Some (JObj efs)
    /\ Shape.epic_ok (JObj efs) = true
    /\ lookup "mvp" fs = Some (JArr mvp)
    /\ 3 <= length mvp
    /\ forallb Shape.story_ok mvp = true
    /\ lookup "iterations" fs = Some (JArr its)
    /\ 2 <= length its
    /\ forallb Shape.iteration_ok its = true.
Proof.
  intros Hok. unfold Shape.backlog_ok in Hok.
  apply andb_prop in Hok. destruct Hok as [Hok Hits].
  apply andb_prop in Hok. destruct Hok as [Hepic Hmvp].
  apply field_ok_inv in Hepic. destruct Hepic as [ve [He Heok]].
  destruct ve as [| | | | |efs]; try discriminate Heok.
  apply field_ok_inv in Hmvp. destruct Hmvp as [vm [Hm Hmok]].
  destruct (stories_ok_elements _ _ _ Hmok) as [mvp [Hvm [Hmlen Hmall]]].
  subst vm.
  apply field_ok_inv in Hits. destruct Hits as [vi [Hi Hiok]].
  destruct vi as [| | | |its|]; try discriminate Hiok.
  cbn [Shape.iterations_ok] in Hiok.
  apply andb_prop in Hiok. destruct Hiok as [Hiok Hiall].
  apply andb_prop in Hiok. destruct Hiok as [Hilen _].
  apply Nat.leb_le in Hilen.
  exists efs, mvp, its. repeat (split; [assumption |]). assumption.
Qed.

Lemma epic_of_described_backlog fs efs :
  lookup "epic" fs = Some (JObj efs) ->
  MarkdownGenerator.epic_of_backlog (JObj fs) = inl (JObj efs).
Proof.
  intros He.
  unfold MarkdownGenerator.epic_of_backlog, MarkdownGenerator.select_epic.
  cbn [MarkdownGenerator.get]. rewrite He. reflexivity.
Qed.

Lemma we_generate_try b dir :
  Shape.backlog_ok b = true ->
  Renderer.backlog_renders number_to_string to_number_positive b = true ->
  writes_exactly (generate_try (Some b) dir)
    (fun res =>
       res = {| Renderer.rr_success := true;
                Renderer.rr_files := Some (path_join dir "epics");
                Renderer.rr_error := None |})
    (Renderer.backlog_files b).
Proof.
  intros Hok Hrenders.
  destruct b as [| | | | |fs]; try discriminate Hok.
  destruct (backlog_ok_fields fs Hok)
    as [efs [mvp [its [He [Heok [Hm [Hmlen [Hmall [Hi [Hilen Hiall]]]]]]]]]].
  unfold Renderer.backlog_renders in Hrenders.
  cbn [MarkdownGenerator.get] in Hrenders. rewrite Hm, Hi in Hrenders.
  cbn [Renderer.elements] in Hrenders.
  apply andb_prop in Hrenders. destruct Hrenders as [Hmdeps Hideps].
  unfold Renderer.generate_try, Renderer.backlog_files,
    Renderer.stories_files.
  cbn [MarkdownGenerator.get]. rewrite Hm, Hi.
  rewrite (epic_of_described_backlog fs efs He).
  replace (4 + list_sum (map Renderer.story_files mvp)
           + list_sum (map Renderer.iteration_files its))
    with (0 + (1 + (1
                    + ((0 + (1 + (0 + list_sum
                                        (map Renderer.story_files mvp))))
                       + ((0 + list_sum (map Renderer.iteration_files its))
                          + ((1 + (0 + 0)) + (0 + 0)))))))
    by lia.
  apply (we_bind _ _ (fun _ => True)); [apply we_ensureDir |].
  intros _ _.
  apply (we_bind _ _ (fun _ => True)); [apply we_writeFile |].
  intros _ _.
  apply (we_bind _ _ (fun epicsDir => epicsDir = path_join dir "epics"));
    [exact (we_generateEpicFiles efs dir Heok) |].
  intros epicsDir HepicsDir. subst epicsDir.
  apply (we_bind _ _ (fun _ => True)).
  { unfold Renderer.generateMvpFiles.
    apply (we_bind _ _ (fun _ => True)); [apply we_ensureDir |].
    intros _ _.
    apply (we_bind _ _ (fun _ => True)); [apply we_writeFile |].
    intros _ _.
    destruct (0 <? length mvp)%nat eqn:Hpos;
      [|apply Nat.ltb_ge in Hpos; lia].
    apply (we_bind _ _ (fun _ => True)); [apply we_ensureDir |].
    intros _ _. exact (we_each_story mvp _ Hmall Hmdeps). }
  intros _ _.
  apply (we_bind _ _ (fun _ => True)).
  { unfold Renderer.generateIterationFiles.
    destruct (0 <? length its)%nat eqn:Hpos;
      [|apply Nat.ltb_ge in Hpos; lia].
    apply (we_bind _ _ (fun _ => True)); [apply we_ensureDir |].
    intros _ _. exact (we_each_iteration its _ Hiall Hideps). }
  intros _ _.
  apply (we_bind _ _ (fun _ => True)).
  { unfold Renderer.saveRawBacklog. apply we_try.
    apply (we_bind _ _ (fun _ => True)); [apply we_writeFile |].
    intros _ _.
    apply (we_bind _ _ (fun _ => True)); [apply we_stderr |].
    intros _ _. apply we_ret. exact I. }
  intros _ _.
  apply (we_bind _ _ (fun _ => True)); [apply we_stderr |].
  intros _ _. apply we_ret. reflexivity.
Qed.

(** X15. On a file system that never fails, the generator succeeds on
    every success envelope whose backlog has the described shape and no
    story with [dependencies] that stop the formatting: in every story
    they are missing, an array of printable values, or a value without
    [length] above zero. It returns the directory of the epics, and it
    writes one file for each story and for each task of a story, one for
    each iteration, and four more: the README, the epic, the index of
    the MVP and the raw backlog. *)
Theorem described_backlog_is_rendered :
  forall e b outputDir (w : Renderer.fs_world FsState),
    success e = true ->
    result e = Some b ->
    Shape.backlog_ok b = true ->
    Renderer.backlog_renders number_to_string to_number_positive b = true ->
    exists w' new,
      render (Some e) (Renderer.DirString outputDir) w
      = (inl {| Renderer.rr_success := true;
                Renderer.rr_files :=
                  Some (path_join
                          (path_join outputDir ".agile-planner-backlog")
                          "epics");
                Renderer.rr_error := None |}, w')
      /\ Renderer.ops w' = (Renderer.ops w ++ new)%list
      /\ Renderer.writes new = Renderer.backlog_files b.
Proof.
  intros e b outputDir w Hs Hres Hok Hrenders.
  rewrite render_in_directory. unfold Renderer.validateBacklogResult.
  rewrite Hs, Hres. cbn [negb].
  destruct (we_try _ report _ _
              (we_generate_try b
                 (path_join outputDir ".agile-planner-backlog")
                 Hok Hrenders) w)
    as [res [w' [new [Hrun [Hops [Hresult Hcount]]]]]].
  exists w', new. subst res.
  split; [exact Hrun | split; [exact Hops | exact Hcount]].
Qed.

Lemma throws_bind_left {A B : Type} (m : F A) (k : A -> F B) t :
  Renderer.throws FsState m t ->
  Renderer.throws FsState (Renderer.fbind FsState m k) t.
Proof.
  intros Hm w. destruct (Hm w) as [w' Hrun].
  exists w'. unfold Renderer.fbind. rewrite Hrun. reflexivity.
Qed.

Lemma throws_bind_right {A B : Type} (m : F A) (k : A -> F B)
    (P : A -> Prop) n t :
  writes_exactly m P n ->
  (forall a, P a -> Renderer.throws FsState (k a) t) ->
  Renderer.throws FsState (Renderer.fbind FsState m k) t.
Proof.
  intros Hm Hk w.
  destruct (Hm w) as [a [w1 [new [Hrun [_ [HP _]]]]]].
  destruct (Hk a HP w1) as [w2 Hrun2].
  exists w2. unfold Renderer.fbind. rewrite Hrun. exact Hrun2.
Qed.

Lemma throws_lift {A : Type} t :
  Renderer.throws FsState (@Renderer.lift FsState A (inr t)) t.
Proof. intros w. exists w. reflexivity. Qed.

(** X16. The schema does not protect the generator from the
    [dependencies] of a story. On a file system that never fails, a
    success envelope whose backlog has the described shape, so that the
    validator accepts it, but whose first MVP story has [dependencies]
    that stop the formatting, makes the generator return a failure:
    "story.dependencies.join is not a function" when they are a
    non-empty string or an object with a [length] above zero, and
    "Cannot convert object to primitive value" otherwise, as for an
    array holding an object with a field [toString]. *)
Theorem accepted_backlog_can_fail_to_render :
  forall e fs story rest outputDir (w : Renderer.fs_world FsState),
    success e = true ->
    result e = Some (JObj fs) ->
    Shape.backlog_ok (JObj fs) = true ->
    lookup "mvp" fs = Some (JArr (story :: rest)) ->
    dependencies_ok story = false ->
    exists w',
      render (Some e) (Renderer.DirString outputDir) w
      = (inl {| Renderer.rr_success := false;
                Renderer.rr_files := None;
                Renderer.rr_error :=
                  Some {| Renderer.re_message :=
                            Some (if dependencies_lack_join story
                                  then "story.dependencies.join is not a function"
                                  else "Cannot convert object to primitive value");
                          Renderer.re_stack :=
                            stack_of
                              (Error
                                 (if dependencies_lack_join story
                                  then "story.dependencies.join is not a function"
                                  else "Cannot convert object to primitive value"))
                       |} |}, w').
Proof.
  intros e fs story rest outputDir w Hs Hres Hok Hmvp Hdeps.
  destruct (backlog_ok_fields fs Hok)
    as [efs [mvp [its [He [Heok [Hm [_ [Hmall _]]]]]]]].
  rewrite Hmvp in Hm. inversion Hm; subst mvp. clear Hm.
  cbn [forallb] in Hmall. apply andb_prop in Hmall.
  destruct Hmall as [Hstory _].
  pose proof (formatUserStory_described story Hstory) as Hformat.
  rewrite Hdeps in Hformat.
  set (m := if dependencies_lack_join story
            then "story.dependencies.join is not a function"
            else "Cannot convert object to primitive value").
  assert (Hthrown : formatUserStory story = inr (Error m)).
  { rewrite Hformat. unfold m.
    destruct (dependencies_lack_join story); reflexivity. }
  clearbody m. clear Hformat.
  destruct story as [| | | | |sfs]; try discriminate Hstory.
  destruct (story_ok_fields sfs Hstory)
    as [id [title [description [criteria [tasks [priority
        [Hid [Hidok _]]]]]]]].
  destruct (createSlug_of_id id (lookup "title" sfs) Hidok) as [slug Hslug].
  assert (Hthrows :
            Renderer.throws FsState
              (generate_try (Some (JObj fs))
                 (path_join outputDir ".agile-planner-backlog"))
              (Error m)).
  { unfold Renderer.generate_try. cbn [MarkdownGenerator.get].
    rewrite (epic_of_described_backlog fs efs He), Hmvp.
    apply (throws_bind_right _ _ (fun _ => True) 0); [apply we_ensureDir |].
    intros _ _.
    apply (throws_bind_right _ _ (fun _ => True) 1); [apply we_writeFile |].
    intros _ _.
    apply (throws_bind_right _ _ _ 1 _
             (we_generateEpicFiles efs _ Heok)).
    intros epicsDir _.
    apply throws_bind_left.
    unfold Renderer.generateMvpFiles.
    apply (throws_bind_right _ _ (fun _ => True) 0); [apply we_ensureDir |].
    intros _ _.
    apply (throws_bind_right _ _ (fun _ => True) 1); [apply we_writeFile |].
    intros _ _.
    cbn [length Nat.ltb Nat.leb].
    apply (throws_bind_right _ _ (fun _ => True) 0); [apply we_ensureDir |].
    intros _ _.
    cbn [Renderer.each_story]. apply throws_bind_left.
    unfold Renderer.generateUserStoryFiles.
    cbn [MarkdownGenerator.get]. rewrite Hid, Hslug, Hthrown.
    apply (throws_bind_right _ _ (fun _ => True) 0);
      [apply we_lift; exact I |].
    intros usSlug _. apply throws_bind_left. apply throws_lift. }
  destruct (Hthrows w) as [w1 Hrun].
  rewrite render_in_directory. unfold Renderer.validateBacklogResult.
  rewrite Hs, Hres. cbn [negb].
  unfold Renderer.ftry. rewrite Hrun.
  eexists. reflexivity.
Qed.

End NeverFails.

(** X17. The README is written before the epic is looked for: on a
    success envelope whose backlog has no epic, once the output
    directory is made and the README written, the generator returns the
    failure "Backlog does not contain an epic" and leaves the README
    behind. *)
Theorem backlog_without_epic_leaves_readme :
  forall e b err outputDir (w : Renderer.fs_world FsState) st1 st2,
    success e = true ->
    result e = Some b ->
    b <> JNull ->
    MarkdownGenerator.epic_of_backlog b = inr err ->
    fs_ensureDir (Renderer.fs_state w)
      (path_join outputDir ".agile-planner-backlog") = (inl tt, st1) ->
    fs_writeFile st1
      (path_join (path_join outputDir ".agile-planner-backlog") "README.md")
      Renderer.readme = (inl tt, st2) ->
    render (Some e) (Renderer.DirString outputDir) w
    = (inl {| Renderer.rr_success := false;
              Renderer.rr_files := None;
              Renderer.rr_error :=
                Some {| Renderer.re_message :=
                          Some "Backlog does not contain an epic";
                        Renderer.re_stack := None |} |},
       {| Renderer.fs_state := st2;
          Renderer.ops :=
            Renderer.ops w
            ++ [Renderer.EnsureDir
                  (path_join outputDir ".agile-planner-backlog");
                Renderer.WriteFile
                  (path_join (path_join outputDir ".agile-planner-backlog")
                     "README.md")
                  Renderer.readme] |}).
Proof.
  intros e b err outputDir w st1 st2 Hs Hres Hnull Hepic Hens Hwr.
  assert (Hmsg : err_message err = "Backlog does not contain an epic").
  { unfold MarkdownGenerator.epic_of_backlog in Hepic.
    destruct (MarkdownGenerator.select_epic b) as [epic|];
      [destruct (truthy epic) |]; inversion Hepic; reflexivity. }
  rewrite render_in_directory. unfold Renderer.validateBacklogResult.
  rewrite Hs, Hres. cbn [negb].
  unfold Renderer.ftry, Renderer.generate_try, Renderer.fbind,
    Renderer.ensureDir, Renderer.writeFile.
  rewrite Hens. cbn [Renderer.fs_state Renderer.ops]. rewrite Hwr.
  cbn [Renderer.fs_state Renderer.ops].
  destruct b; try contradiction; rewrite Hepic; unfold Renderer.fret;
    rewrite Hmsg, <- app_assoc; reflexivity.
Qed.

End RendererFacts.

(* ================================================================== *)
(** ** What the requests of a generation carry *)

Section RequestFacts.

Context {ClientState : Type}.
Variable chat_completions_create :
  ClientState -> request -> (completion + thrown) * ClientState.
Variable JSON_parse : string -> json + string.

Local Abbreviation generate :=
  (generateBacklog ClientState chat_completions_create JSON_parse).

(** X18. Every adapter call of a [generateBacklog] run carries a
    conversation that starts with the three initial turns, the second
    being the user turn with the project name and description, and that
    has at most seven turns. *)
Theorem requests_start_with_the_project :
  forall name desc client (w : world ClientState) p w' before c rest,
    generate name desc client w = (p, w') ->
    calls w' = (calls w ++ before ++ c :: rest)%list ->
    exists project client',
      processBacklogParams name desc client = ParamsValid project client'
      /\ firstn 3 (cr_messages c) = createApiMessages project
      /\ nth_error (cr_messages c) 1
         = Some {| role := "user";
                   content := Some ("Project description: " ++ project);
                   msg_function_call := None |}
      /\ length (cr_messages c) <= 7
      /\ (forall s, desc = ArgString s -> project = name ++ ": " ++ s).
Proof.
  intros name desc client w p w' before c rest Hgen Hcalls.
  destruct (generate_cases _ _ _ _ _ _ _ _ Hgen)
    as [[Hw _] | [project [client' [tr [res [Hparams [Hl [Htr _]]]]]]]].
  - subst w'. rewrite <- (app_nil_r (calls w)) in Hcalls at 1.
    apply app_inv_head in Hcalls.
    exfalso. exact (nil_neq_app_cons _ _ _ Hcalls).
  - rewrite Htr in Hcalls. apply app_inv_head in Hcalls.
    pose proof (trace_conversation _ _ _ _ _ _ Hl _ _ _ Hcalls) as Hconv.
    exists project, client'.
    split; [exact Hparams |].
    rewrite Hconv.
    split; [reflexivity | split; [reflexivity | split]].
    + rewrite length_app.
      pose proof (flat_map_corrections_length
                    (Ajv.compile createBacklogSchema) before) as Hcorr.
      destruct (trace_bounded _ _ _ _ _ _ Hl) as [Hlen _].
      rewrite Hcalls, length_app in Hlen. simpl in Hlen. simpl. lia.
    + intros s Hdesc. subst desc.
      unfold processBacklogParams in Hparams. cbn [typeof] in Hparams.
      cbn [String.eqb Ascii.eqb Bool.eqb andb] in Hparams.
      destruct (negb (arg_truthy client)); inversion Hparams; reflexivity.
Qed.

End RequestFacts.

(* ================================================================== *)
(** ** Sample runs of the properties above *)

Lemma thrown_attempt_is_last_witness :
  skipn 1 (calls (snd (Scenario.run_loop Samples.hang_up_script))) = []
  /\ fst (Scenario.run_loop Samples.hang_up_script)
     = inr (Error "socket hang up").
Proof.
  apply (thrown_attempt_is_last
           Scenario.scripted_create Scenario.parse
           (Ajv.compile createBacklogSchema) Scenario.a_client "gpt-4.1"
           Scenario.messages0 createBacklogSchema
           (Scenario.start Samples.hang_up_script)
           (fst (Scenario.run_loop Samples.hang_up_script))
           (snd (Scenario.run_loop Samples.hang_up_script))
           []
           (nth 0 (calls (snd (Scenario.run_loop Samples.hang_up_script)))
                Scenario.no_call)
           (skipn 1 (calls (snd (Scenario.run_loop Samples.hang_up_script))))
           (Error "socket hang up")).
  - apply surjective_pairing.
  - vm_compute. reflexivity.
  - vm_compute. reflexivity.
Defined.

Lemma conversation_is_initial_plus_corrections_witness :
  cr_messages
    (nth 1 (calls (snd (Scenario.run_loop Scenario.retry_script)))
         Scenario.no_call)
  = (Scenario.messages0
     ++ flat_map (corrections (Ajv.compile createBacklogSchema))
          (firstn 1 (calls (snd (Scenario.run_loop Scenario.retry_script)))))%list
  /\ length
       (cr_messages
          (nth 1 (calls (snd (Scenario.run_loop Scenario.retry_script)))
               Scenario.no_call))
     <= length Scenario.messages0 + 4.
Proof.
  apply (conversation_is_initial_plus_corrections
           Scenario.scripted_create Scenario.parse
           (Ajv.compile createBacklogSchema) Scenario.a_client "gpt-4.1"
           Scenario.messages0 createBacklogSchema
           (Scenario.start Scenario.retry_script)
           (fst (Scenario.run_loop Scenario.retry_script))
           (snd (Scenario.run_loop Scenario.retry_script))
           (firstn 1 (calls (snd (Scenario.run_loop Scenario.retry_script))))
           (nth 1 (calls (snd (Scenario.run_loop Scenario.retry_script)))
                Scenario.no_call)
           (skipn 2 (calls (snd (Scenario.run_loop Scenario.retry_script))))).
  - apply surjective_pairing.
  - vm_compute. reflexivity.
Defined.

Lemma success_carries_a_described_backlog_witness :
  exists b before msgs fc,
    result (Samples.succeeded Scenario.conformant) = Some b
    /\ Shape.backlog_ok b = true
    /\ calls (snd (Scenario.run_generate (ArgString "books")
                     Scenario.a_client Scenario.retry_script))
       = (calls (Scenario.start Scenario.retry_script) ++ before
          ++ [{| cr_messages := msgs;
                 cr_outcome := inl (ApiValid b fc) |}])%list
    /\ length before <= 2.
Proof.
  apply (success_carries_a_described_backlog
           Scenario.scripted_create Scenario.parse
           "Library" (ArgString "books") Scenario.a_client
           (Scenario.start Scenario.retry_script)
           (Samples.succeeded Scenario.conformant)
           (snd (Scenario.run_generate (ArgString "books")
                   Scenario.a_client Scenario.retry_script))).
  - vm_compute. reflexivity.
  - reflexivity.
Defined.

Lemma exhausted_run_reports_last_failure_witness :
  length (calls (snd (Scenario.run_generate (ArgString "books")
                        Scenario.a_client Scenario.failing_script))) = 3
  /\ exists first others,
       last_known_failure (Ajv.compile createBacklogSchema)
         (calls (snd (Scenario.run_generate (ArgString "books")
                        Scenario.a_client Scenario.failing_script))) None
       = Some (first :: others)
       /\ message first <> ""
       /\ Samples.failed "Erreur de parsing JSON: Unexpected token"
          = {| success := false; result := None;
               error := Some {| err_message := message first |} |}.
Proof.
  apply (exhausted_run_reports_last_failure
           Scenario.scripted_create Scenario.parse
           "Library" (ArgString "books") Scenario.a_client
           (Scenario.start Scenario.failing_script)
           (Samples.failed "Erreur de parsing JSON: Unexpected token")
           (snd (Scenario.run_generate (ArgString "books")
                   Scenario.a_client Scenario.failing_script))).
  - vm_compute. reflexivity.
  - vm_compute. reflexivity.
  - vm_compute. discriminate.
  - vm_compute. reflexivity.
Defined.

Lemma one_client_call_per_attempt_witness :
  exists tr,
    calls (snd (Samples.run_counting Scenario.retry_script))
    = (calls (Samples.counting Scenario.retry_script) ++ tr)%list
    /\ snd (client_state (snd (Samples.run_counting Scenario.retry_script)))
       = snd (client_state (Samples.counting Scenario.retry_script))
         + length tr
    /\ length tr <= 3.
Proof.
  apply (one_client_call_per_attempt
           Scenario.scripted_create Scenario.parse
           (Ajv.compile createBacklogSchema) {| baseURL := None |} "gpt-4.1"
           Scenario.messages0 createBacklogSchema
           (Samples.counting Scenario.retry_script)
           (fst (Samples.run_counting Scenario.retry_script))
           (snd (Samples.run_counting Scenario.retry_script))).
  apply surjective_pairing.
Defined.

Lemma slug_is_safe_witness :
  Renderer.slug_text false "sign-up-now-" = true.
Proof.
  apply (slug_is_safe Renderer.Disk.lower
           (Some (JStr "Sign up, now!")) "sign-up-now-").
  vm_compute. reflexivity.
Defined.

Lemma slug_of_slug_witness :
  Renderer.createSlug Renderer.Disk.lower (Some (JStr "us001-tasks"))
  = inl "us001-tasks"
  /\ Renderer.createSlug Renderer.Disk.lower (Some (JStr ""))
     = inl "item".
Proof.
  split.
  - apply (proj1 (slug_of_slug Renderer.Disk.lower) "us001-tasks").
    + vm_compute. reflexivity.
    + discriminate.
  - apply (proj2 (slug_of_slug Renderer.Disk.lower) (Some (JStr ""))).
    reflexivity.
Defined.

Lemma story_ids_have_distinct_slugs_witness :
  (exists s,
      Renderer.createSlug Renderer.Disk.lower (Some (JStr "US001")) = inl s
      /\ s = Renderer.map_string Renderer.lower_ascii "US001")
  /\ (Renderer.createSlug Renderer.Disk.lower (Some (JStr "US001"))
      = Renderer.createSlug Renderer.Disk.lower (Some (JStr "US002")) ->
      "US001" = "US002").
Proof.
  apply (story_ids_have_distinct_slugs Renderer.Disk.lower "US001" "US002").
  - vm_compute. reflexivity.
  - vm_compute. reflexivity.
Defined.

Lemma requests_start_with_the_project_witness :
  exists project client',
    processBacklogParams "Library" (ArgString "books") Scenario.a_client
    = ParamsValid project client'
    /\ firstn 3
         (cr_messages
            (nth 1 (calls (snd (Scenario.run_generate (ArgString "books")
                                  Scenario.a_client Scenario.retry_script)))
                 Scenario.no_call))
       = createApiMessages project
    /\ nth_error
         (cr_messages
            (nth 1 (calls (snd (Scenario.run_generate (ArgString "books")
                                  Scenario.a_client Scenario.retry_script)))
                 Scenario.no_call)) 1
       = Some {| role := "user";
                 content := Some ("Project description: " ++ project);
                 msg_function_call := None |}
    /\ length
         (cr_messages
            (nth 1 (calls (snd (Scenario.run_generate (ArgString "books")
                                  Scenario.a_client Scenario.retry_script)))
                 Scenario.no_call)) <= 7
    /\ (forall s, ArgString "books" = ArgString s ->
                  project = "Library" ++ ": " ++ s).
Proof.
  apply (requests_start_with_the_project
           Scenario.scripted_create Scenario.parse
           "Library" (ArgString "books") Scenario.a_client
           (Scenario.start Scenario.retry_script)
           (fst (Scenario.run_generate (ArgString "books")
                   Scenario.a_client Scenario.retry_script))
           (snd (Scenario.run_generate (ArgString "books")
                   Scenario.a_client Scenario.retry_script))
           (firstn 1
              (calls (snd (Scenario.run_generate (ArgString "books")
                             Scenario.a_client Scenario.retry_script))))
           (nth 1 (calls (snd (Scenario.run_generate (ArgString "books")
                                 Scenario.a_client Scenario.retry_script)))
                Scenario.no_call)
           (skipn 2
              (calls (snd (Scenario.run_generate (ArgString "books")
                             Scenario.a_client Scenario.retry_script))))).
  - apply surjective_pairing.
  - vm_compute. reflexivity.
Defined.

Lemma validation_requires_epic_renderer_takes_both_witness :
  valid (Ajv.compile createBacklogSchema Scenario.conformant) = true
  /\ (exists fs efs,
         Scenario.conformant = JObj fs /\ lookup "epic" fs = Some (JObj efs))
  /\ (valid (Ajv.compile createBacklogSchema Scenario.legacy) = false
      /\ In {| instancePath := Some "";
               message := "must have required property 'epic'" |}
            (errors (Ajv.compile createBacklogSchema Scenario.legacy)))
  /\ MarkdownGenerator.epic_of_backlog Scenario.conformant
     = inl Scenario.the_epic
  /\ MarkdownGenerator.epic_of_backlog Scenario.legacy
     = inl Scenario.the_epic.
Proof.
  split; [|split; [|split; [|split]]].
  - apply (proj1 validation_requires_epic_renderer_takes_both
             (match Scenario.conformant with
              | JObj fs => fs
              | _ => []
              end)); vm_compute; reflexivity.
  - apply (proj1 (proj2 validation_requires_epic_renderer_takes_both)
             Scenario.conformant).
    vm_compute. reflexivity.
  - apply (proj1 (proj2 (proj2
                    validation_requires_epic_renderer_takes_both))
             (match Scenario.legacy with
              | JObj fs => fs
              | _ => []
              end)).
    reflexivity.
  - apply (proj1 (proj2 (proj2 (proj2
                    validation_requires_epic_renderer_takes_both)))
             _ Scenario.the_epic); reflexivity.
  - apply (proj2 (proj2 (proj2 (proj2
                    validation_requires_epic_renderer_takes_both)))
             _ Scenario.the_epic []); reflexivity.
Defined.

(** The client rejects with [undefined] at the second call, after a
    schema failure: the call is the last, and the envelope carries the
    message of the error that the adapter's [catch] throws. *)
Lemma exceptions_become_failure_envelopes_witness :
  fst (Scenario.run_generate (ArgString "books") Scenario.a_client
         Samples.undefined_script)
  = Resolved {| success := false;
                result := None;
                error := Some {| err_message :=
                  "Cannot read properties of undefined (reading 'message')"
                |} |}.
Proof.
  destruct (exceptions_become_failure_envelopes
              Scenario.scripted_create Scenario.parse
              "Library" (ArgString "books") Scenario.a_client
              (Scenario.start Samples.undefined_script))
    as [e [w' [Hgen [_ [Hany _]]]]].
  assert (Hw : w' = snd (Scenario.run_generate (ArgString "books")
                           Scenario.a_client Samples.undefined_script)).
  { unfold Scenario.run_generate. rewrite Hgen. reflexivity. }
  assert (He : fst (Scenario.run_generate (ArgString "books")
                      Scenario.a_client Samples.undefined_script)
               = Resolved e).
  { unfold Scenario.run_generate. rewrite Hgen. reflexivity. }
  rewrite He. f_equal.
  apply (Hany (firstn 1 (calls w')) (nth 1 (calls w') Scenario.no_call)
           (skipn 2 (calls w'))
           (Error "Cannot read properties of undefined (reading 'message')"));
    rewrite Hw; vm_compute; reflexivity.
Defined.


Lemma formatUserStory_on_described_stories_witness :
  (exists out,
      Renderer.formatUserStory Renderer.Disk.number Renderer.Disk.positive
        (Samples.story_with "US001" (JArr [JStr "US002"; JNull]))
      = inl out)
  /\ Renderer.formatUserStory Renderer.Disk.number Renderer.Disk.positive
       (Samples.story_depending_on "US001" "US000")
     = inr (Error "story.dependencies.join is not a function")
  /\ Renderer.formatUserStory Renderer.Disk.number Renderer.Disk.positive
       (Samples.story_with "US001" Samples.unprintable_dependencies)
     = inr (Error "Cannot convert object to primitive value")
  /\ exists m,
       Renderer.formatUserStory Renderer.Disk.number Renderer.Disk.positive
         (JObj [("id", JStr "US001")])
       = inr (Error m).
Proof.
  split; [|split; [|split]].
  - apply (proj1 (formatUserStory_on_described_stories
                    Renderer.Disk.number Renderer.Disk.positive)
             (Samples.story_with "US001" (JArr [JStr "US002"; JNull]))).
    vm_compute. reflexivity.
  - apply (proj1 (formatUserStory_on_described_stories
                    Renderer.Disk.number Renderer.Disk.positive)
             (Samples.story_depending_on "US001" "US000")).
    vm_compute. reflexivity.
  - apply (proj1 (formatUserStory_on_described_stories
                    Renderer.Disk.number Renderer.Disk.positive)
             (Samples.story_with "US001" Samples.unprintable_dependencies)).
    vm_compute. reflexivity.
  - apply (proj2 (formatUserStory_on_described_stories
                    Renderer.Disk.number Renderer.Disk.positive)
             (JObj [("id", JStr "US001")])).
    intros l. vm_compute. discriminate.
Defined.

Lemma failure_of_generateBacklog_writes_no_file_witness :
  exists m,
    error (Samples.failed "Erreur de parsing JSON: Unexpected token")
    = Some {| err_message := m |}
    /\ Renderer.Disk.render
         (Some (Samples.failed "Erreur de parsing JSON: Unexpected token"))
         (Renderer.DirString "out")
       = (inl {| Renderer.rr_success := false;
                 Renderer.rr_files := None;
                 Renderer.rr_error :=
                   Some {| Renderer.re_message := Some m;
                           Renderer.re_stack := None |} |},
          {| Renderer.fs_state := Renderer.fs_state Renderer.Disk.empty;
             Renderer.ops :=
               Renderer.ops Renderer.Disk.empty
               ++ [Renderer.Stderr
                     ("[ERROR] (markdown-generator) " ++ m ++ newline)] |}).
Proof.
  apply (failure_of_generateBacklog_writes_no_file
           _ Renderer.Disk.ensureDir Renderer.Disk.writeFile
           Renderer.Disk.join Renderer.Disk.stringify Renderer.Disk.number
           Renderer.Disk.lower Renderer.Disk.positive Renderer.Disk.stack
           Renderer.Disk.cwd
           Scenario.scripted_create Scenario.parse
           "Library" (ArgString "books") Scenario.a_client
           (Scenario.start Scenario.failing_script)
           (Samples.failed "Erreur de parsing JSON: Unexpected token")
           (snd (Scenario.run_generate (ArgString "books")
                   Scenario.a_client Scenario.failing_script))
           "out" Renderer.Disk.empty).
  - vm_compute. reflexivity.
  - reflexivity.
Defined.

(** On a file system whose every operation fails, the generator returns
    a result; with [null] for the directory it rejects. *)
Lemma generator_rejects_in_two_cases_only_witness :
  (exists res w',
      Samples.render_on_failing_disk
        (Some (Samples.succeeded Scenario.conformant))
        (Renderer.DirString "out")
      = (inl res, w'))
  /\ Samples.render_on_failing_disk
       (Some (Samples.succeeded Scenario.conformant))
       (Renderer.DirOther "null")
     = (inr (Error
               ("The " ++ quote ++ "path" ++ quote
                ++ " argument must be of type string. Received null")),
        Renderer.Disk.empty).
Proof.
  split.
  - apply (generator_rejects_in_two_cases_only
             _ Renderer.Disk.failing_ensureDir
             Renderer.Disk.failing_writeFile
             Renderer.Disk.join Renderer.Disk.stringify Renderer.Disk.number
             Renderer.Disk.lower Renderer.Disk.positive Renderer.Disk.stack
             Renderer.Disk.cwd
             (fun st path t st' H =>
                ex_intro _ _ (eq_sym (f_equal (fun p => match fst p with
                                                        | inr t => t
                                                        | inl _ => ThrownNull
                                                        end) H)))
             (fun st path content t st' H =>
                ex_intro _ _ (eq_sym (f_equal (fun p => match fst p with
                                                        | inr t => t
                                                        | inl _ => ThrownNull
                                                        end) H)))
             (Some (Samples.succeeded Scenario.conformant))
             (Renderer.DirString "out") Renderer.Disk.empty).
  - apply (generator_rejects_in_two_cases_only
             _ Renderer.Disk.failing_ensureDir
             Renderer.Disk.failing_writeFile
             Renderer.Disk.join Renderer.Disk.stringify Renderer.Disk.number
             Renderer.Disk.lower Renderer.Disk.positive Renderer.Disk.stack
             Renderer.Disk.cwd
             (fun st path t st' H =>
                ex_intro _ _ (eq_sym (f_equal (fun p => match fst p with
                                                        | inr t => t
                                                        | inl _ => ThrownNull
                                                        end) H)))
             (fun st path content t st' H =>
                ex_intro _ _ (eq_sym (f_equal (fun p => match fst p with
                                                        | inr t => t
                                                        | inl _ => ThrownNull
                                                        end) H)))
             (Some (Samples.succeeded Scenario.conformant))
             (Renderer.DirOther "null") Renderer.Disk.empty).
Defined.

Lemma described_backlog_is_rendered_witness :
  exists w' new,
    Renderer.Disk.render (Some (Samples.succeeded Samples.with_dependencies))
      (Renderer.DirString "out")
    = (inl {| Renderer.rr_success := true;
              Renderer.rr_files :=
                Some "out/.agile-planner-backlog/epics";
              Renderer.rr_error := None |}, w')
    /\ Renderer.ops w' = (Renderer.ops Renderer.Disk.empty ++ new)%list
    /\ Renderer.writes new = 21.
Proof.
  apply (described_backlog_is_rendered
           _ Renderer.Disk.ensureDir Renderer.Disk.writeFile
           Renderer.Disk.join Renderer.Disk.stringify Renderer.Disk.number
           Renderer.Disk.lower Renderer.Disk.positive Renderer.Disk.stack
           Renderer.Disk.cwd
           (fun st path => eq_refl) (fun st path content => eq_refl)
           (Samples.succeeded Samples.with_dependencies)
           Samples.with_dependencies
           "out" Renderer.Disk.empty).
  - reflexivity.
  - reflexivity.
  - vm_compute. reflexivity.
  - vm_compute. reflexivity.
Defined.

(** Two backlogs that the validator accepts and the generator cannot
    render: the dependencies of the first story are a string in one, and
    an array holding an object with a field [toString] in the other. *)
Lemma accepted_backlog_can_fail_to_render_witness :
  (valid (Ajv.compile createBacklogSchema
            Samples.with_string_dependencies) = true
   /\ valid (Ajv.compile createBacklogSchema
               Samples.with_unprintable_dependencies) = true)
  /\ (exists w',
         Renderer.Disk.render
           (Some (Samples.succeeded Samples.with_string_dependencies))
           (Renderer.DirString "out")
         = (inl {| Renderer.rr_success := false;
                   Renderer.rr_files := None;
                   Renderer.rr_error :=
                     Some {| Renderer.re_message :=
                               Some "story.dependencies.join is not a function";
                             Renderer.re_stack := None |} |}, w'))
  /\ (exists w',
         Renderer.Disk.render
           (Some (Samples.succeeded Samples.with_unprintable_dependencies))
           (Renderer.DirString "out")
         = (inl {| Renderer.rr_success := false;
                   Renderer.rr_files := None;
                   Renderer.rr_error :=
                     Some {| Renderer.re_message :=
                               Some "Cannot convert object to primitive value";
                             Renderer.re_stack := None |} |}, w')).
Proof.
  split; [split; vm_compute; reflexivity | split].
  - apply (accepted_backlog_can_fail_to_render
             _ Renderer.Disk.ensureDir Renderer.Disk.writeFile
             Renderer.Disk.join Renderer.Disk.stringify Renderer.Disk.number
             Renderer.Disk.lower Renderer.Disk.positive Renderer.Disk.stack
             Renderer.Disk.cwd
             (fun st path => eq_refl) (fun st path content => eq_refl)
             (Samples.succeeded Samples.with_string_dependencies)
             (Samples.fields_with
                (Samples.story_depending_on "US001" "US000"))
             (Samples.story_depending_on "US001" "US000")
             [Scenario.story "US002"; Scenario.story "US003"]
             "out" Renderer.Disk.empty).
    + reflexivity.
    + reflexivity.
    + vm_compute. reflexivity.
    + reflexivity.
    + vm_compute. reflexivity.
  - apply (accepted_backlog_can_fail_to_render
             _ Renderer.Disk.ensureDir Renderer.Disk.writeFile
             Renderer.Disk.join Renderer.Disk.stringify Renderer.Disk.number
             Renderer.Disk.lower Renderer.Disk.positive Renderer.Disk.stack
             Renderer.Disk.cwd
             (fun st path => eq_refl) (fun st path content => eq_refl)
             (Samples.succeeded Samples.with_unprintable_dependencies)
             (Samples.fields_with
                (Samples.story_with "US001"
                   Samples.unprintable_dependencies))
             (Samples.story_with "US001" Samples.unprintable_dependencies)
             [Scenario.story "US002"; Scenario.story "US003"]
             "out" Renderer.Disk.empty).
    + reflexivity.
    + reflexivity.
    + vm_compute. reflexivity.
    + reflexivity.
    + vm_compute. reflexivity.
Defined.

Lemma backlog_without_epic_leaves_readme_witness :
  Renderer.Disk.render (Some (Samples.succeeded Samples.without_epic))
    (Renderer.DirString "out")
  = (inl {| Renderer.rr_success := false;
            Renderer.rr_files := None;
            Renderer.rr_error :=
              Some {| Renderer.re_message :=
                        Some "Backlog does not contain an epic";
                      Renderer.re_stack := None |} |},
     {| Renderer.fs_state :=
          [("out/.agile-planner-backlog/README.md", Renderer.readme)];
        Renderer.ops :=
          Renderer.ops Renderer.Disk.empty
          ++ [Renderer.EnsureDir "out/.agile-planner-backlog";
              Renderer.WriteFile "out/.agile-planner-backlog/README.md"
                Renderer.readme] |}).
Proof.
  apply (backlog_without_epic_leaves_readme
           _ Renderer.Disk.ensureDir Renderer.Disk.writeFile
           Renderer.Disk.join Renderer.Disk.stringify Renderer.Disk.number
           Renderer.Disk.lower Renderer.Disk.positive Renderer.Disk.stack
           Renderer.Disk.cwd
           (Samples.succeeded Samples.without_epic) Samples.without_epic
           {| err_message := "Backlog does not contain an epic" |}
           "out" Renderer.Disk.empty
           []
           [("out/.agile-planner-backlog/README.md", Renderer.readme)]).
  - reflexivity.
  - reflexivity.
  - discriminate.
  - reflexivity.
  - reflexivity.
  - reflexivity.
Defined.
